(** * Qwen2 decoder layer and distributed sanity checks: a shallow embedding

    The development follows [src/nanotron/models/qwen.py] and
    [src/nanotron/sanity_checks.py].

    - [Attention]   : position-id remapping, the packed causal mask built by
                      [get_attention_mask], the call [CoreAttention.forward]
                      makes to the attention implementation, and the way the
                      decoder stack hands position ids from layer to layer.
    - [SanityChecks]: [assert_tensor_synced_across_pg] and
                      [after_tbi_sanity_checks], with exceptions and the log
                      made explicit.
    - [MoE]         : router, top-k, softmax, token dispatch, per-expert
                      feed-forward, scatter-add combination and the shared
                      expert of [Qwen2MoELayer], over the real numbers.

    Floating-point tensors of the forward pass are idealised as lists of real
    numbers; gradient buffers, where NaN and infinities matter, are lists of
    extended values. *)

From Stdlib Require Import String.
From Stdlib Require Import List ZArith Arith Bool Lia.
From Stdlib Require Import Sorting.Sorted.
From Stdlib Require Import QArith Qabs DecimalString.
From Stdlib Require Import Reals Lra.
From Stdlib Require Lqa.
From Stdlib Require Import Sorting.Permutation.
Import ListNotations.
Local Open Scope string_scope.
Local Open Scope list_scope.
Local Open Scope nat_scope.

(* ================================================================== *)
(** ** Generic list helpers *)
(* ================================================================== *)

(** [imap f l] is [[f 0 x0; f 1 x1; ...]]: a comprehension over
    [enumerate(l)]. *)
Definition imap {A B : Type} (f : nat -> A -> B) (l : list A) : list B :=
  map (fun p => f (fst p) (snd p)) (combine (seq 0 (length l)) l).

Lemma imap_length {A B} (f : nat -> A -> B) l : length (imap f l) = length l.
Proof.
  unfold imap. rewrite length_map, length_combine, length_seq. lia.
Qed.

Lemma combine_seq_nth {A} (l : list A) (s i : nat) (d : A) :
  i < length l ->
  nth i (combine (seq s (length l)) l) (s + i, d) = (s + i, nth i l d).
Proof.
  revert s i. induction l as [|x l IH]; intros s i Hi; simpl in *; [lia|].
  destruct i as [|i].
  - now rewrite Nat.add_0_r.
  - replace (s + S i) with (S s + i) by lia. apply IH. lia.
Qed.

Lemma imap_nth {A B} (f : nat -> A -> B) l i (d : A) (e : B) :
  i < length l -> nth i (imap f l) e = f i (nth i l d).
Proof.
  intros Hi. unfold imap.
  rewrite (nth_indep _ e (f (fst (0 + i, d)) (snd (0 + i, d)))).
  - rewrite (map_nth (fun p => f (fst p) (snd p))).
    rewrite combine_seq_nth by assumption. reflexivity.
  - rewrite length_map, length_combine, length_seq. lia.
Qed.

(* ================================================================== *)
(** ** Attention: position ids, packed causal mask, decoder stack *)
(* ================================================================== *)

Module Attention.

(** An integer tensor as [Qwen2Attention.forward] may receive it: the first
    layer gets [[batch_size, seq_length]], later layers get the flattened
    vector returned by the previous one. *)
Inductive IntTensor :=
| Tensor1d (v : list Z)
| Tensor2d (rows : list (list Z)).

(** [t.masked_fill(t == x, value)] *)
Definition masked_fill_eq (t : IntTensor) (x value : Z) : IntTensor :=
  let fill := map (fun p => if Z.eqb p x then value else p) in
  match t with
  | Tensor1d v => Tensor1d (fill v)
  | Tensor2d rows => Tensor2d (map fill rows)
  end.

(** [t.view(-1)] *)
Definition view_flat (t : IntTensor) : list Z :=
  match t with
  | Tensor1d v => v
  | Tensor2d rows => concat rows
  end.

(** The first two statements of [Qwen2Attention.forward]. *)
Definition remap_position_ids (position_ids : IntTensor) : list Z :=
  let position_ids := masked_fill_eq position_ids (-1) 0 in
  view_flat position_ids.

(** *** [get_attention_mask] *)

(** [torch.where(position_ids == 0)[0]], indices counted from [i]. *)
Fixpoint where_zero_from (i : nat) (position_ids : list Z) : list nat :=
  match position_ids with
  | [] => []
  | p :: rest =>
      if Z.eqb p 0 then i :: where_zero_from (S i) rest
      else where_zero_from (S i) rest
  end.

Definition where_zero (position_ids : list Z) : list nat :=
  where_zero_from 0 position_ids.

(** [torch.zeros(r, c)] and [torch.tril(torch.ones(d, d))]; entries are the
    floats 0.0 and 1.0, written as integers. *)
Definition zeros (r c : nat) : list (list Z) := repeat (repeat 0%Z c) r.

Definition tril_ones (d : nat) : list (list Z) :=
  map (fun r => map (fun c => if c <=? r then 1%Z else 0%Z) (seq 0 d)) (seq 0 d).

Definition entry (m : list (list Z)) (r c : nat) : Z := nth c (nth r m []) 0%Z.

(** [m[a:b, a:b] = blk] *)
Definition assign_block (m : list (list Z)) (a b : nat) (blk : list (list Z))
  : list (list Z) :=
  imap (fun r row =>
          if (a <=? r) && (r <? b)
          then imap (fun c x =>
                       if (a <=? c) && (c <? b) then entry blk (r - a) (c - a)
                       else x) row
          else row) m.

(** One iteration of [for i in range(len(cu_seqlens) - 1)]. *)
Definition mask_step (cu_seqlens : list nat) (attention_mask : list (list Z))
  (i : nat) : list (list Z) :=
  let a := nth i cu_seqlens 0 in
  let b := nth (i + 1) cu_seqlens 0 in
  assign_block attention_mask a b (tril_ones (b - a)).

Definition to_bool (x : Z) : bool := negb (Z.eqb x 0).

Definition get_attention_mask (position_ids : list Z) (seq_length : nat)
  : list (list bool) * list nat :=
  let attention_mask := zeros seq_length seq_length in
  let start_indices := where_zero position_ids in
  let cu_seqlens := start_indices ++ [seq_length] in
  let attention_mask :=
    fold_left (mask_step cu_seqlens) (seq 0 (length cu_seqlens - 1))
      attention_mask in
  (map (map to_bool) attention_mask, cu_seqlens).

Definition mask_at (mask : list (list bool)) (i j : nat) : bool :=
  nth j (nth i mask []) false.

(** *** [CoreAttention], [Qwen2Attention], [Qwen2DecoderLayer], [Qwen2Model] *)

(** The attributes of [Qwen2Config] read by [CoreAttention.forward]; an
    attribute that is absent (or [None]) is [None]. *)
Record Qwen2Config := {
  use_sliding_window : option bool;
  sliding_window : option nat;
  max_window_layers : option nat;
  _attn_implementation : string
}.

Definition getattr {A : Type} (attribute : option A) (default : A) : A :=
  match attribute with Some v => v | None => default end.

Record CoreAttention := {
  config : Qwen2Config;
  layer_idx : nat
}.

(** The keyword arguments an attention implementation is called with; a
    keyword that is not passed, or passed as [None], is [None]. *)
Record AttentionKwargs := {
  kw_attention_mask : option (list (list bool));
  kw_sliding_window : option nat;
  kw_cu_seqlens : option (list nat);
  kw_max_seqlen : option nat
}.

(** The test guarding the sliding-window statement of
    [CoreAttention.forward]. *)
Definition sliding_window_condition (self : CoreAttention) : bool :=
  getattr (use_sliding_window (config self)) false
  && (match sliding_window (config self) with Some _ => true | None => false end)
  && (getattr (max_window_layers (config self)) 0 <=? layer_idx self).

(** The keywords of the [attention_func] call.  The guarded statement is the
    bare expression [getattr(self.config, "sliding_window", None)], which
    binds nothing; [attention_mask=None] is passed literally, and
    [sliding_window], [cu_seqlens] and [max_seqlen] are commented out of the
    call; [**kwargs] is empty for the only caller. *)
Definition CoreAttention_kwargs (self : CoreAttention)
  (attention_mask : list (list bool)) (cu_seqlens : option (list nat))
  (sliding_window_arg : option nat) : AttentionKwargs :=
  let sliding_window_arg :=
    if sliding_window_condition self
    then (let _ := sliding_window (config self) in sliding_window_arg)
    else sliding_window_arg in
  {| kw_attention_mask := None;
     kw_sliding_window := None;
     kw_cu_seqlens := None;
     kw_max_seqlen := None |}.

(** *** Shape and entries of the mask under construction *)

Lemma entry_zeros r c n m : entry (zeros n m) r c = 0%Z.
Proof.
  unfold entry, zeros.
  destruct (Nat.lt_ge_cases r n) as [Hr|Hr].
  - rewrite (nth_indep _ [] (repeat 0%Z m)) by now rewrite repeat_length.
    rewrite nth_repeat.
    destruct (Nat.lt_ge_cases c m) as [Hc|Hc].
    + now rewrite nth_repeat.
    + apply nth_overflow. now rewrite repeat_length.
  - rewrite (nth_overflow (repeat _ n)) by now rewrite repeat_length.
    now destruct c.
Qed.

Definition square (n : nat) (m : list (list Z)) : Prop :=
  length m = n /\ forall r, r < n -> length (nth r m []) = n.

Lemma square_zeros n : square n (zeros n n).
Proof.
  split; unfold zeros.
  - apply repeat_length.
  - intros r Hr.
    rewrite (nth_indep _ [] (repeat 0%Z n)) by now rewrite repeat_length.
    rewrite nth_repeat. apply repeat_length.
Qed.

Lemma square_assign_block n m a b blk :
  square n m -> square n (assign_block m a b blk).
Proof.
  intros [Hl Hr]. split; unfold assign_block.
  - now rewrite imap_length.
  - intros r Hlt. rewrite (imap_nth _ _ _ []) by lia.
    destruct ((a <=? r) && (r <? b)); [rewrite imap_length|]; now apply Hr.
Qed.

Lemma entry_assign_block n m a b blk r c :
  square n m -> r < n -> c < n ->
  entry (assign_block m a b blk) r c =
    if ((a <=? r) && (r <? b)) && ((a <=? c) && (c <? b))
    then entry blk (r - a) (c - a) else entry m r c.
Proof.
  intros [Hl Hr] Hrn Hcn. unfold assign_block.
  unfold entry at 1. rewrite (imap_nth _ _ _ []) by lia.
  destruct ((a <=? r) && (r <? b)); simpl; [|reflexivity].
  rewrite (imap_nth _ _ _ 0%Z) by (rewrite Hr; lia).
  destruct ((a <=? c) && (c <? b)); reflexivity.
Qed.

Lemma entry_tril_ones d r c :
  r < d -> c < d -> entry (tril_ones d) r c = if c <=? r then 1%Z else 0%Z.
Proof.
  intros Hr Hc. unfold entry, tril_ones.
  rewrite (nth_indep _ [] ((fun r => map (fun c => if c <=? r then 1%Z else 0%Z)
                                         (seq 0 d)) 0))
    by now rewrite length_map, length_seq.
  rewrite (map_nth (fun r => map (fun c => if c <=? r then 1%Z else 0%Z) (seq 0 d))).
  rewrite seq_nth by assumption. simpl.
  rewrite (nth_indep _ 0%Z ((fun c => if c <=? r then 1%Z else 0%Z) 0))
    by now rewrite length_map, length_seq.
  rewrite (map_nth (fun c => if c <=? r then 1%Z else 0%Z)).
  now rewrite seq_nth.
Qed.

(** Token pair [(r, c)] falls in the [i]-th diagonal block. *)
Definition in_block (cu : list nat) (r c i : nat) : bool :=
  let a := nth i cu 0 in
  let b := nth (i + 1) cu 0 in
  ((a <=? r) && (r <? b)) && ((a <=? c) && (c <? b)).

Lemma mask_loop_invariant n cu k :
  let m := fold_left (mask_step cu) (seq 0 k) (zeros n n) in
  square n m /\
  forall r c, r < n -> c < n ->
    entry m r c =
      if existsb (in_block cu r c) (seq 0 k) && (c <=? r) then 1%Z else 0%Z.
Proof.
  induction k as [|k [IHsq IHe]]; cbv zeta.
  - simpl. split; [apply square_zeros|]. intros. apply entry_zeros.
  - rewrite seq_S, fold_left_app. simpl. split.
    + unfold mask_step. now apply square_assign_block.
    + intros r c Hr Hc. unfold mask_step at 1.
      rewrite (entry_assign_block n) by assumption.
      rewrite existsb_app. simpl. rewrite orb_false_r.
      fold (in_block cu r c k). rewrite IHe by assumption.
      destruct (in_block cu r c k) eqn:Hin.
      * rewrite orb_true_r. simpl.
        unfold in_block in Hin.
        apply andb_prop in Hin as [H1 H2].
        apply andb_prop in H1 as [Ha Hb]. apply andb_prop in H2 as [Hc1 Hc2].
        apply Nat.leb_le in Ha, Hc1. apply Nat.ltb_lt in Hb, Hc2.
        rewrite entry_tril_ones by lia.
        destruct (c <=? r) eqn:E1; destruct (c - nth k cu 0 <=? r - nth k cu 0) eqn:E2;
          try reflexivity.
        -- apply Nat.leb_le in E1. apply Nat.leb_gt in E2. lia.
        -- apply Nat.leb_gt in E1. apply Nat.leb_le in E2. lia.
      * now rewrite orb_false_r.
Qed.

Lemma mask_at_to_bool m i j :
  mask_at (map (map to_bool) m) i j = to_bool (entry m i j).
Proof.
  unfold mask_at, entry.
  change (@nil bool) with (map to_bool []).
  rewrite (map_nth (map to_bool)).
  change false with (to_bool 0).
  now rewrite (map_nth to_bool).
Qed.

(** *** The boundary list [cu_seqlens] *)

Lemma where_zero_from_spec s position_ids t :
  In t (where_zero_from s position_ids) <->
  s <= t /\ nth_error position_ids (t - s) = Some 0%Z.
Proof.
  revert s. induction position_ids as [|p rest IH]; intros s; simpl.
  - split; [tauto|]. intros [_ H]. now destruct (t - s).
  - assert (Hrest : In t (where_zero_from (S s) rest) <->
                    s < t /\ nth_error (p :: rest) (t - s) = Some 0%Z).
    { rewrite IH. split; intros [H1 H2]; (split; [lia|]).
      - replace (t - s) with (S (t - S s)) by lia. exact H2.
      - replace (t - s) with (S (t - S s)) in H2 by lia. exact H2. }
    destruct (Z.eqb_spec p 0) as [->|Hp]; simpl; rewrite Hrest.
    + split.
      * intros [->|[H1 H2]]; [rewrite Nat.sub_diag; auto|split; [lia|auto]].
      * intros [H1 H2]. destruct (Nat.eq_dec s t) as [->|]; [now left|right].
        split; [lia|auto].
    + split; [intros [H1 H2]; split; [lia|auto]|].
      intros [H1 H2]. destruct (Nat.eq_dec s t) as [->|]; [|split; [lia|auto]].
      rewrite Nat.sub_diag in H2. simpl in H2. congruence.
Qed.

Lemma where_zero_spec position_ids t :
  In t (where_zero position_ids) <-> nth_error position_ids t = Some 0%Z.
Proof.
  unfold where_zero. rewrite where_zero_from_spec, Nat.sub_0_r.
  split; [tauto|]. split; [lia|auto].
Qed.

Lemma where_zero_from_sorted s position_ids :
  StronglySorted lt (where_zero_from s position_ids).
Proof.
  revert s. induction position_ids as [|p rest IH]; intros s; simpl.
  - constructor.
  - destruct (Z.eqb p 0); [|apply IH].
    constructor; [apply IH|].
    apply Forall_forall. intros t Ht.
    apply where_zero_from_spec in Ht. lia.
Qed.

Lemma where_zero_lt position_ids t :
  In t (where_zero position_ids) -> t < length position_ids.
Proof.
  intros H. apply where_zero_spec in H.
  apply nth_error_Some. congruence.
Qed.

Lemma cu_seqlens_sorted position_ids :
  StronglySorted lt (where_zero position_ids ++ [length position_ids]).
Proof.
  pose proof (where_zero_from_sorted 0 position_ids) as Hs.
  fold (where_zero position_ids) in Hs.
  pose proof (where_zero_lt position_ids) as Hlt.
  induction (where_zero position_ids) as [|x l IH]; simpl.
  - repeat constructor.
  - inversion Hs; subst. constructor.
    + apply IH; [assumption|]. intros t Ht. apply Hlt. now right.
    + apply Forall_app. split; [assumption|].
      constructor; [|constructor]. apply Hlt. now left.
Qed.

Lemma sorted_nth_lt (l : list nat) i j :
  StronglySorted lt l -> i < j -> j < length l -> nth i l 0 < nth j l 0.
Proof.
  intros Hs. revert i j. induction Hs as [|x l Hs IH Hall]; intros i j Hij Hj.
  - simpl in Hj. lia.
  - destruct j as [|j]; [lia|]. simpl in Hj. destruct i as [|i]; simpl.
    + rewrite Forall_forall in Hall. apply Hall. apply nth_In. lia.
    + apply IH; lia.
Qed.

(** Any point at or after some element of [l] and before its last element
    lies between two consecutive elements. *)
Lemma consecutive_cover (l : list nat) c :
  (exists t, In t l /\ t <= c) -> c < last l 0 ->
  exists i, i + 1 < length l /\ nth i l 0 <= c /\ c < nth (i + 1) l 0.
Proof.
  induction l as [|x l IH]; intros [t [Hin Ht]] Hlast.
  - contradiction.
  - destruct l as [|y l].
    + simpl in *. destruct Hin as [->|[]]. lia.
    + change (last (x :: y :: l) 0) with (last (y :: l) 0) in Hlast.
      destruct (existsb (fun t => t <=? c) (y :: l)) eqn:E.
      * apply existsb_exists in E as [t' [Hin' Ht']]. apply Nat.leb_le in Ht'.
        destruct IH as [i [H1 [H2 H3]]]; [now exists t'|assumption|].
        exists (S i). simpl in *. repeat split; try lia; assumption.
      * exists 0. simpl. split; [lia|].
        assert (Hy : (y <=? c) = false).
        { simpl in E. now apply orb_false_elim in E as [E _]. }
        apply Nat.leb_gt in Hy.
        destruct Hin as [->|Hin]; [lia|].
        exfalso.
        assert (existsb (fun t => t <=? c) (y :: l) = true); [|congruence].
        apply existsb_exists. exists t. split; [assumption|now apply Nat.leb_le].
Qed.

(** The pairs covered by some diagonal block, in terms of the position ids. *)
Lemma in_some_block_iff position_ids r c :
  let n := length position_ids in
  let cu := where_zero position_ids ++ [n] in
  c <= r ->
  ((exists i, i < length cu - 1 /\ in_block cu r c i = true) <->
   (r < n /\
    (exists t, t <= c /\ nth_error position_ids t = Some 0%Z) /\
    (forall t, c < t <= r -> nth_error position_ids t <> Some 0%Z))).
Proof.
  intros n cu Hcr.
  pose proof (cu_seqlens_sorted position_ids) as Hs. fold n cu in Hs.
  assert (Hlen : length cu = length (where_zero position_ids) + 1)
    by (unfold cu; rewrite length_app; reflexivity).
  assert (Hcu : forall t, In t cu <-> In t (where_zero position_ids) \/ t = n).
  { intros t. unfold cu. rewrite in_app_iff. simpl. intuition. }
  split.
  - intros [i [Hi Hin]]. unfold in_block in Hin.
    apply andb_prop in Hin as [H1 H2].
    apply andb_prop in H1 as [Ha Hb]. apply andb_prop in H2 as [Hc1 Hc2].
    apply Nat.leb_le in Ha, Hc1. apply Nat.ltb_lt in Hb, Hc2.
    assert (Hb_le : nth (i + 1) cu 0 <= n).
    { assert (In (nth (i + 1) cu 0) cu) as Hb_in by (apply nth_In; lia).
      apply Hcu in Hb_in as [Hz| ->]; [apply where_zero_lt in Hz; lia|lia]. }
    assert (Ha_zero : In (nth i cu 0) (where_zero position_ids)).
    { assert (In (nth i cu 0) cu) as Ha_in by (apply nth_In; lia).
      apply Hcu in Ha_in as [Hz|Hn]; [assumption|lia]. }
    split; [lia|]. split.
    + exists (nth i cu 0). split; [assumption|now apply where_zero_spec].
    + intros t Ht Hzero. apply where_zero_spec in Hzero.
      assert (In t cu) as Ht_in by (apply Hcu; now left).
      apply (In_nth _ _ 0) in Ht_in as [j [Hj Hjt]].
      destruct (Nat.lt_trichotomy j i) as [Hlt|[->|Hgt]].
      * pose proof (sorted_nth_lt cu j i Hs Hlt ltac:(lia)). lia.
      * lia.
      * destruct (Nat.eq_dec j (i + 1)) as [->|Hne]; [lia|].
        pose proof (sorted_nth_lt cu (i + 1) j Hs ltac:(lia) Hj). lia.
  - intros [Hr [[t0 [Ht0 Hzero]] Hnone]].
    destruct (consecutive_cover cu c) as [i [Hi [Ha Hb]]].
    + exists t0. split; [|assumption]. apply Hcu. left. now apply where_zero_spec.
    + unfold cu. rewrite last_last. lia.
    + exists i. split; [lia|]. unfold in_block.
      assert (r < nth (i + 1) cu 0).
      { destruct (Nat.lt_ge_cases r (nth (i + 1) cu 0)) as [|Hge]; [assumption|].
        exfalso.
        assert (In (nth (i + 1) cu 0) cu) as Hb_in by (apply nth_In; lia).
        apply Hcu in Hb_in as [Hz|Hn]; [|lia].
        apply where_zero_spec in Hz. apply (Hnone (nth (i + 1) cu 0)); [lia|assumption]. }
      repeat (apply andb_true_intro; split);
        try (apply Nat.leb_le; lia); apply Nat.ltb_lt; lia.
Qed.

(** Entry-wise characterisation of the mask, shared by the results below. *)
Lemma mask_at_iff position_ids i j :
  let n := length position_ids in
  mask_at (fst (get_attention_mask position_ids n)) i j = true <->
  (j <= i /\ i < n /\
   (exists t, t <= j /\ nth_error position_ids t = Some 0%Z) /\
   (forall t, j < t <= i -> nth_error position_ids t <> Some 0%Z)).
Proof.
  intros n. unfold get_attention_mask. cbn [fst].
  rewrite mask_at_to_bool.
  set (cu := where_zero position_ids ++ [n]).
  destruct (mask_loop_invariant n cu (length cu - 1)) as [Hsq He].
  cbv zeta in Hsq, He.
  set (m := fold_left (mask_step cu) (seq 0 (length cu - 1)) (zeros n n)) in *.
  destruct (Nat.lt_ge_cases i n) as [Hi|Hi].
  - destruct (Nat.lt_ge_cases j n) as [Hj|Hj].
    + rewrite He by assumption.
      destruct (Nat.leb_spec j i) as [c_le|c_gt].
      * rewrite andb_true_r.
        pose proof (in_some_block_iff position_ids i j c_le) as Hblk.
        cbv zeta in Hblk. fold n cu in Hblk.
        destruct (existsb (in_block cu i j) (seq 0 (length cu - 1))) eqn:E.
        -- split; [intros _|reflexivity].
           apply existsb_exists in E as [k [Hk Hin]]. apply in_seq in Hk.
           split; [assumption|]. apply Hblk. exists k. split; [lia|assumption].
        -- split; [discriminate|]. intros [_ H]. exfalso.
           apply Hblk in H as [k [Hk Hin]].
           assert (existsb (in_block cu i j) (seq 0 (length cu - 1)) = true);
             [|congruence].
           apply existsb_exists. exists k. split; [apply in_seq; lia|assumption].
      * rewrite andb_false_r. split; [discriminate|]. intros [H _]. lia.
    + unfold entry. rewrite (nth_overflow (nth i m [])).
      * split; [discriminate|]. intros [H _]. lia.
      * destruct Hsq as [_ Hrow]. rewrite Hrow by assumption. lia.
  - unfold entry. rewrite (nth_overflow m) by (destruct Hsq; lia).
    split; [destruct j; discriminate|]. intros [_ [H _]]. lia.
Qed.

(** The mask stated the way the specification words it: lower triangular
    within the stretch since the last position-zero boundary. *)
Definition block_diagonal_as_specified (position_ids : list Z) : Prop :=
  let n := length position_ids in
  forall i j, i < n -> j < n ->
    (mask_at (fst (get_attention_mask position_ids n)) i j = true <->
     (j <= i /\ forall t, j < t <= i -> nth_error position_ids t <> Some 0%Z)).

(** C2, counterexample.  For the position ids [[1; 2]] (no boundary at the
    start) the only block list is empty, the mask stays all-false, and token 0
    does not even attend to itself, whereas the specified condition holds for
    [i = j = 0]. *)
Lemma get_attention_mask_no_leading_boundary :
  ~ block_diagonal_as_specified [1%Z; 2%Z].
Proof.
  intros H. specialize (H 0 0 ltac:(simpl; lia) ltac:(simpl; lia)).
  destruct H as [_ H].
  assert (Hfalse : mask_at (fst (get_attention_mask [1%Z; 2%Z] 2)) 0 0 = false)
    by reflexivity.
  simpl length in H. rewrite Hfalse in H.
  assert (false = true); [|discriminate].
  apply H. split; [lia|]. intros t Ht. lia.
Qed.

(** C2 (amended).  [mask[i][j]] is true exactly when [j <= i], no
    position-zero boundary lies in [(j, i]], and some position-zero boundary
    lies at or before [j]; rows before the first boundary are entirely false.
    [cu_seqlens] is the strictly increasing list of the indices holding
    position 0, followed by the total length. *)
Theorem get_attention_mask_block_diagonal (position_ids : list Z) (i j : nat) :
  let n := length position_ids in
  let mask := fst (get_attention_mask position_ids n) in
  let cu_seqlens := snd (get_attention_mask position_ids n) in
  (mask_at mask i j = true <->
     (j <= i /\ i < n /\
      (exists t, t <= j /\ nth_error position_ids t = Some 0%Z) /\
      (forall t, j < t <= i -> nth_error position_ids t <> Some 0%Z))) /\
  cu_seqlens = where_zero position_ids ++ [n] /\
  (forall t, In t (where_zero position_ids) <->
             nth_error position_ids t = Some 0%Z) /\
  StronglySorted lt cu_seqlens /\
  last cu_seqlens 0 = n.
Proof.
  cbv zeta. split; [apply mask_at_iff|].
  split; [reflexivity|].
  split; [apply where_zero_spec|].
  unfold get_attention_mask. cbn [snd].
  split; [apply cu_seqlens_sorted|apply last_last].
Qed.

(** When the vector starts with a boundary (position 0 or remapped padding, as
    in every layout the source documents), the mask is the one specified. *)
Lemma get_attention_mask_leading_boundary (rest : list Z) :
  block_diagonal_as_specified (0%Z :: rest).
Proof.
  unfold block_diagonal_as_specified. cbv zeta. intros i j Hi Hj.
  pose proof (mask_at_iff (0%Z :: rest) i j) as M. cbv zeta in M.
  rewrite M. split.
  - intros [H1 [_ [_ H2]]]. now split.
  - intros [H1 H2]. repeat split; try assumption.
    exists 0. split; [lia|reflexivity].
Qed.

(** The loop of [get_attention_mask] raises [RuntimeError] when a start
    index lies beyond [seq_length]: the last block would have a negative
    size, [torch.ones(cu_seqlens[i + 1] - cu_seqlens[i], ...)].  Otherwise
    every block lies within the mask. *)
Definition get_attention_mask_checked (position_ids : list Z)
  (seq_length : nat) : option (list (list bool) * list nat) :=
  if forallb (fun start => start <=? seq_length) (where_zero position_ids)
  then Some (get_attention_mask position_ids seq_length)
  else None.

Section Layers.

(** Floating-point tensors and the layers acting on them are kept abstract:
    projections, rotary embedding, normalisation, feed-forward and the
    registered attention implementation are not in the files modelled.  A
    view that torch rejects with [RuntimeError] is [None]. *)
Variable Tensor : Type.
Variable rows : Tensor -> nat.
Variable qkv_proj : nat -> Tensor -> Tensor * Tensor * Tensor.
Variable apply_rotary_pos_emb : list Z -> Tensor -> Tensor.
Variable o_proj : nat -> Tensor -> Tensor.
Variable head_layout : string -> nat -> Tensor -> option Tensor.
Variable view_3_groups : Tensor -> option Tensor.
Variable merge_heads : Tensor -> Tensor.
Variable attention_func :
  CoreAttention -> Tensor -> Tensor -> Tensor -> AttentionKwargs -> Tensor.
Variable input_layernorm post_attention_layernorm mlp : nat -> Tensor -> Tensor.
Variable residual_add : Tensor -> Tensor -> Tensor.

(** [states.transpose(1, 2).view(3, -1, heads, head_dim).transpose(1, 2)] on
    the laid-out states of [n] tokens: the [n * heads * head_dim] elements
    have to fill 3 groups of rows of [heads * head_dim] elements, so the view
    raises unless [n] is a multiple of 3; what else torch requires of the
    layout is left to [view_3_groups]. *)
Definition regroup (n : nat) (states : Tensor) : option Tensor :=
  if n mod 3 =? 0 then view_3_groups states else None.

Definition CoreAttention_forward (self : CoreAttention)
  (query_states key_states value_states : Tensor)
  (attention_mask : list (list bool)) (cu_seqlens : option (list nat))
  (sliding_window_arg : option nat) : option Tensor :=
  let seq_length := length attention_mask in
  let impl := _attn_implementation (config self) in
  match head_layout impl seq_length query_states,
        head_layout impl seq_length key_states,
        head_layout impl seq_length value_states with
  | Some query_layout, Some key_layout, Some value_layout =>
      match regroup (rows query_states) query_layout,
            regroup (rows key_states) key_layout,
            regroup (rows value_states) value_layout with
      | Some query_groups, Some key_groups, Some value_groups =>
          let attn_output :=
            attention_func self query_groups key_groups value_groups
              (CoreAttention_kwargs self attention_mask cu_seqlens
                 sliding_window_arg) in
          Some (merge_heads attn_output)
      | _, _, _ => None
      end
  | _, _, _ => None
  end.

(** [q] as [Qwen2Attention.forward] hands it to the attention: one row per
    token. *)
Definition query_states_of (layer : nat) (hidden_states : Tensor)
  (position_ids : IntTensor) : Tensor :=
  apply_rotary_pos_emb (remap_position_ids position_ids)
    (fst (fst (qkv_proj layer hidden_states))).

Definition Qwen2Attention_forward (cfg : Qwen2Config) (layer : nat)
  (hidden_states : Tensor) (position_ids : IntTensor)
  : option (Tensor * list Z) :=
  let position_ids := masked_fill_eq position_ids (-1) 0 in
  let position_ids := view_flat position_ids in
  let '(q, k, v) := qkv_proj layer hidden_states in
  let q := apply_rotary_pos_emb position_ids q in
  let k := apply_rotary_pos_emb position_ids k in
  match get_attention_mask_checked position_ids (rows q) with
  | Some (attention_mask, cu_seqlens) =>
      match CoreAttention_forward {| config := cfg; layer_idx := layer |} q k v
              attention_mask (Some cu_seqlens) None with
      | Some attn_output =>
          let output := o_proj layer attn_output in
          Some (output, position_ids)
      | None => None
      end
  | None => None
  end.

Definition Qwen2DecoderLayer__core_forward (cfg : Qwen2Config) (layer : nat)
  (hidden_states : Tensor) (position_ids : IntTensor)
  : option (Tensor * IntTensor) :=
  let residual := hidden_states in
  let hidden_states := input_layernorm layer hidden_states in
  match Qwen2Attention_forward cfg layer hidden_states position_ids with
  | Some output =>
      let hidden_states := fst output in
      let hidden_states := residual_add hidden_states residual in
      let residual := hidden_states in
      let hidden_states := post_attention_layernorm layer hidden_states in
      let hidden_states := mlp layer hidden_states in
      let hidden_states := residual_add hidden_states residual in
      Some (hidden_states, Tensor1d (snd output))
  | None => None
  end.

(** Activation recomputation runs the same function. *)
Definition Qwen2DecoderLayer_forward (cfg : Qwen2Config) (recompute_layer : bool)
  (layer : nat) (hidden_states : Tensor) (position_ids : IntTensor)
  : option (Tensor * IntTensor) :=
  if recompute_layer
  then Qwen2DecoderLayer__core_forward cfg layer hidden_states position_ids
  else Qwen2DecoderLayer__core_forward cfg layer hidden_states position_ids.

(** The loop [for decoder_layer in self.decoder] of [Qwen2Model.forward],
    recording the position ids each layer is called with; the loop ends at
    the first layer that raises. *)
Fixpoint run_decoder (cfg : Qwen2Config) (recompute_layer : bool)
  (layers : list nat) (hidden_states : Tensor) (position_ids : IntTensor)
  : option (Tensor * IntTensor) * list IntTensor :=
  match layers with
  | [] => (Some (hidden_states, position_ids), [])
  | layer :: rest =>
      match Qwen2DecoderLayer_forward cfg recompute_layer layer hidden_states
              position_ids with
      | Some (h, p) =>
          let '(result, seen) := run_decoder cfg recompute_layer rest h p in
          (result, position_ids :: seen)
      | None => (None, [position_ids])
      end
  end.

Definition observed_position_ids (cfg : Qwen2Config) (recompute_layer : bool)
  (num_hidden_layers : nat) (input_embeds : Tensor) (position_ids : IntTensor)
  : list IntTensor :=
  snd (run_decoder cfg recompute_layer (seq 0 num_hidden_layers) input_embeds
         position_ids).

(** *** Position ids through the decoder stack *)

Definition remap_entry (p : Z) : Z := if Z.eqb p (-1) then 0%Z else p.

Lemma remap_position_ids_map position_ids :
  remap_position_ids position_ids = map remap_entry (view_flat position_ids).
Proof.
  destruct position_ids as [v|rows0]; unfold remap_position_ids; simpl.
  - reflexivity.
  - now rewrite concat_map.
Qed.

Lemma remap_position_ids_no_sentinel position_ids :
  ~ In (-1)%Z (remap_position_ids position_ids).
Proof.
  rewrite remap_position_ids_map, in_map_iff. intros [p [Hp _]].
  unfold remap_entry in Hp. destruct (Z.eqb_spec p (-1)); lia.
Qed.

Lemma remap_position_ids_nonneg position_ids :
  Forall (fun p => (-1 <= p)%Z) (view_flat position_ids) ->
  Forall (fun p => (0 <= p)%Z) (remap_position_ids position_ids).
Proof.
  rewrite remap_position_ids_map. intros H. apply Forall_map.
  eapply Forall_impl; [|exact H]. intros p Hp. cbv beta in Hp |- *.
  unfold remap_entry. destruct (Z.eqb_spec p (-1)); lia.
Qed.

Lemma remap_position_ids_idempotent position_ids :
  remap_position_ids (Tensor1d (remap_position_ids position_ids)) =
  remap_position_ids position_ids.
Proof.
  rewrite (remap_position_ids_map (Tensor1d _)). simpl.
  rewrite remap_position_ids_map, map_map. apply map_ext.
  intros p. unfold remap_entry.
  destruct (Z.eqb_spec p (-1)); [reflexivity|].
  destruct (Z.eqb_spec p (-1)); [contradiction|reflexivity].
Qed.

Lemma Qwen2Attention_forward_position_ids cfg layer hidden_states position_ids
  output ids :
  Qwen2Attention_forward cfg layer hidden_states position_ids =
    Some (output, ids) ->
  ids = remap_position_ids position_ids.
Proof.
  unfold Qwen2Attention_forward.
  destruct (qkv_proj layer hidden_states) as [[q k] v].
  destruct (get_attention_mask_checked _ _) as [[attention_mask cu_seqlens]|];
    [|discriminate].
  destruct (CoreAttention_forward _ _ _ _ _ _ _); [|discriminate].
  intros H. now injection H as _ <-.
Qed.

Lemma Qwen2DecoderLayer_forward_position_ids cfg recompute layer hidden_states
  position_ids h ids :
  Qwen2DecoderLayer_forward cfg recompute layer hidden_states position_ids =
    Some (h, ids) ->
  ids = Tensor1d (remap_position_ids position_ids).
Proof.
  assert (Hcore :
    Qwen2DecoderLayer__core_forward cfg layer hidden_states position_ids =
      Some (h, ids) ->
    ids = Tensor1d (remap_position_ids position_ids)).
  { unfold Qwen2DecoderLayer__core_forward.
    destruct (Qwen2Attention_forward cfg layer _ position_ids)
      as [[output ids']|] eqn:Hattn; [|discriminate].
    apply Qwen2Attention_forward_position_ids in Hattn. subst ids'.
    intros H. now injection H as _ <-. }
  unfold Qwen2DecoderLayer_forward. destruct recompute; exact Hcore.
Qed.

(** The layers called see the input first and its remapped, flattened form
    from then on. *)
Lemma run_decoder_seen cfg recompute layers hidden_states position_ids :
  let seen :=
    snd (run_decoder cfg recompute layers hidden_states position_ids) in
  seen = [] \/
  exists k,
    seen =
    position_ids :: repeat (Tensor1d (remap_position_ids position_ids)) k.
Proof.
  cbv zeta. revert hidden_states position_ids.
  induction layers as [|layer rest IH]; intros h p; cbn [run_decoder].
  - now left.
  - right.
    destruct (Qwen2DecoderLayer_forward cfg recompute layer h p)
      as [[h1 p1]|] eqn:Hlayer.
    + apply Qwen2DecoderLayer_forward_position_ids in Hlayer. subst p1.
      specialize (IH h1 (Tensor1d (remap_position_ids p))).
      destruct (run_decoder cfg recompute rest h1 _) as [result seen].
      cbn [snd] in *. destruct IH as [->|[k ->]].
      * now exists 0.
      * exists (S k). now rewrite remap_position_ids_idempotent.
    + now exists 0.
Qed.

Lemma run_decoder_seen_length cfg recompute layers hidden_states position_ids
  result :
  fst (run_decoder cfg recompute layers hidden_states position_ids) =
    Some result ->
  length (snd (run_decoder cfg recompute layers hidden_states position_ids)) =
  length layers.
Proof.
  revert hidden_states position_ids.
  induction layers as [|layer rest IH]; intros h p; cbn [run_decoder].
  - reflexivity.
  - destruct (Qwen2DecoderLayer_forward cfg recompute layer h p)
      as [[h1 p1]|]; [|discriminate].
    specialize (IH h1 p1).
    destruct (run_decoder cfg recompute rest h1 p1) as [r seen].
    cbn [fst snd length] in *. intros Hr. now rewrite IH.
Qed.

(** Whenever the attention module returns, the position ids it returns are
    the flattened input with every [-1] replaced by [0]; the decoder layer
    returns that vector, so every layer called after the first receives it and
    never sees [-1]; a stack that runs through calls every layer.  The
    entries are non-negative when the input holds only positions and the
    [-1] sentinel. *)
Theorem returned_position_ids_are_remapped (cfg : Qwen2Config)
  (recompute_layer : bool) (num_hidden_layers : nat) (input_embeds : Tensor)
  (position_ids : IntTensor) :
  let remapped := remap_position_ids position_ids in
  let observed :=
    observed_position_ids cfg recompute_layer num_hidden_layers input_embeds
      position_ids in
  (forall layer h output ids,
      Qwen2Attention_forward cfg layer h position_ids = Some (output, ids) ->
      ids = remapped) /\
  remapped = map (fun p => if Z.eqb p (-1) then 0%Z else p) (view_flat position_ids) /\
  ~ In (-1)%Z remapped /\
  (Forall (fun p => (-1 <= p)%Z) (view_flat position_ids) ->
   Forall (fun p => (0 <= p)%Z) remapped) /\
  (forall layer h h' ids,
      Qwen2DecoderLayer_forward cfg recompute_layer layer h position_ids =
        Some (h', ids) ->
      ids = Tensor1d remapped) /\
  (forall layer ids, 1 <= layer ->
      nth_error observed layer = Some ids -> ids = Tensor1d remapped) /\
  (forall result,
      fst (run_decoder cfg recompute_layer (seq 0 num_hidden_layers)
             input_embeds position_ids) = Some result ->
      length observed = num_hidden_layers).
Proof.
  cbv zeta. repeat split.
  - intros layer h output ids. apply Qwen2Attention_forward_position_ids.
  - apply remap_position_ids_map.
  - apply remap_position_ids_no_sentinel.
  - apply remap_position_ids_nonneg.
  - intros layer h h' ids. apply Qwen2DecoderLayer_forward_position_ids.
  - intros layer ids Hlayer. unfold observed_position_ids.
    destruct (run_decoder_seen cfg recompute_layer (seq 0 num_hidden_layers)
                input_embeds position_ids) as [->|[k ->]].
    + now destruct layer.
    + destruct layer as [|l]; [lia|]. cbn [nth_error]. intros Hnth.
      apply nth_error_In, repeat_spec in Hnth. exact Hnth.
  - intros result Hresult. unfold observed_position_ids.
    rewrite (run_decoder_seen_length _ _ _ _ _ _ Hresult). apply length_seq.
Qed.

(** *** The hard-coded three groups of [CoreAttention.forward] *)

Lemma regroup_not_multiple_of_3 n states :
  n mod 3 <> 0 -> regroup n states = None.
Proof.
  intros Hn. unfold regroup.
  destruct (Nat.eqb_spec (n mod 3) 0); [contradiction|reflexivity].
Qed.

Lemma CoreAttention_forward_not_multiple_of_3 self q k v attention_mask
  cu_seqlens sliding_window_arg :
  rows q mod 3 <> 0 ->
  CoreAttention_forward self q k v attention_mask cu_seqlens
    sliding_window_arg = None.
Proof.
  intros Hn. unfold CoreAttention_forward.
  destruct (head_layout _ _ q) as [query_layout|]; [|reflexivity].
  destruct (head_layout _ _ k) as [key_layout|]; [|reflexivity].
  destruct (head_layout _ _ v) as [value_layout|]; [|reflexivity].
  now rewrite (regroup_not_multiple_of_3 (rows q) query_layout Hn).
Qed.

(** C10, what the code does.  [CoreAttention.forward] views the query, key
    and value states as [(3, -1, heads, head_dim)]; when the number of tokens
    is not a multiple of 3 the view raises, so the attention module and the
    decoder layer return nothing, position ids included. *)
Theorem attention_raises_unless_tokens_multiple_of_3 (cfg : Qwen2Config)
  (recompute_layer : bool) (layer : nat) (hidden_states : Tensor)
  (position_ids : IntTensor) :
  rows (query_states_of layer hidden_states position_ids) mod 3 <> 0 ->
  Qwen2Attention_forward cfg layer hidden_states position_ids = None /\
  (rows (query_states_of layer (input_layernorm layer hidden_states)
           position_ids) mod 3 <> 0 ->
   Qwen2DecoderLayer_forward cfg recompute_layer layer hidden_states
     position_ids = None).
Proof.
  assert (Hattn : forall h,
    rows (query_states_of layer h position_ids) mod 3 <> 0 ->
    Qwen2Attention_forward cfg layer h position_ids = None).
  { intros h Hn. unfold Qwen2Attention_forward, query_states_of in *.
    unfold remap_position_ids in Hn.
    destruct (qkv_proj layer h) as [[q k] v]. cbn [fst] in Hn.
    destruct (get_attention_mask_checked _ _) as [[attention_mask cu_seqlens]|];
      [|reflexivity].
    now rewrite CoreAttention_forward_not_multiple_of_3. }
  intros Hn. split; [now apply Hattn|].
  intros Hn'. unfold Qwen2DecoderLayer_forward, Qwen2DecoderLayer__core_forward.
  rewrite (Hattn _ Hn'). now destruct recompute_layer.
Qed.

(** *** The sliding window in [CoreAttention.forward] *)

Lemma CoreAttention_kwargs_constant self attention_mask cu_seqlens sliding_window_arg :
  CoreAttention_kwargs self attention_mask cu_seqlens sliding_window_arg =
  {| kw_attention_mask := None; kw_sliding_window := None;
     kw_cu_seqlens := None; kw_max_seqlen := None |}.
Proof. reflexivity. Qed.

(** Two attention modules that differ only in their sliding-window settings
    call the implementation with the same keywords. *)
Lemma CoreAttention_kwargs_ignore_config self self' attention_mask cu_seqlens sw :
  CoreAttention_kwargs self attention_mask cu_seqlens sw =
  CoreAttention_kwargs self' attention_mask cu_seqlens sw.
Proof. reflexivity. Qed.

Definition windowed_config : Qwen2Config :=
  {| use_sliding_window := Some true;
     sliding_window := Some 2;
     max_window_layers := Some 0;
     _attn_implementation := "sdpa" |}.

(** C4, what the code does.  In a layer where the sliding-window guard
    holds, the attention implementation is still called without a window and
    without a mask, and the result of [CoreAttention.forward] depends on the
    mask it was given through its size only. *)
Theorem sliding_window_not_forwarded (self : CoreAttention)
  (query_states key_states value_states : Tensor)
  (attention_mask : list (list bool)) (cu_seqlens : option (list nat)) :
  sliding_window_condition self = true ->
  kw_sliding_window
    (CoreAttention_kwargs self attention_mask cu_seqlens None) = None /\
  kw_attention_mask
    (CoreAttention_kwargs self attention_mask cu_seqlens None) = None /\
  forall attention_mask' cu_seqlens' sliding_window_arg,
    length attention_mask' = length attention_mask ->
    CoreAttention_forward self query_states key_states value_states
      attention_mask' cu_seqlens' sliding_window_arg =
    CoreAttention_forward self query_states key_states value_states
      attention_mask cu_seqlens None.
Proof.
  intros _. split; [reflexivity|]. split; [reflexivity|].
  intros mask' cu' sw' Hlen. unfold CoreAttention_forward.
  rewrite Hlen. reflexivity.
Qed.

End Layers.

(** The failing input of C4: sliding-window attention enabled with a window
    of 2 from layer 0 on, layer 0, and the packed batch [[0; 1; 2]], whose
    mask lets token 2 attend to token 0; the implementation is called with
    neither window nor mask. *)
Lemma sliding_window_not_forwarded_witness :
  let self := {| config := windowed_config; layer_idx := 0 |} in
  let attention_mask := fst (get_attention_mask [0; 1; 2]%Z 3) in
  let cu_seqlens := snd (get_attention_mask [0; 1; 2]%Z 3) in
  sliding_window_condition self = true /\
  mask_at attention_mask 2 0 = true /\
  kw_sliding_window
    (CoreAttention_kwargs self attention_mask (Some cu_seqlens) None) = None /\
  kw_attention_mask
    (CoreAttention_kwargs self attention_mask (Some cu_seqlens) None) = None.
Proof.
  cbv zeta. split; [reflexivity|]. split; [reflexivity|].
  pose proof (sliding_window_not_forwarded unit (fun _ => 3)
                (fun _ _ t => Some t) (fun t => Some t) (fun t => t)
                (fun _ _ _ _ _ => tt)
                {| config := windowed_config; layer_idx := 0 |} tt tt tt
                (fst (get_attention_mask [0; 1; 2]%Z 3))
                (Some (snd (get_attention_mask [0; 1; 2]%Z 3)))
                eq_refl) as [H1 [H2 _]].
  split; [exact H1|exact H2].
Defined.

(** Tensors reduced to their number of rows, with layers that keep it and
    views that always apply. *)
Definition rows_only_attention (cfg : Qwen2Config) (layer : nat)
  (hidden_states : nat) (position_ids : IntTensor) : option (nat * list Z) :=
  Qwen2Attention_forward nat (fun n => n) (fun _ n => (n, n, n))
    (fun _ n => n) (fun _ n => n) (fun _ _ n => Some n) (fun n => Some n)
    (fun n => n) (fun _ q _ _ _ => q) cfg layer hidden_states position_ids.

(** The failing input of C10: the packed batch of 8 tokens
    [[0; 1; 2; 3; 4; 0; 1; 2]]. *)
Lemma attention_raises_unless_tokens_multiple_of_3_witness :
  rows_only_attention windowed_config 0 8
    (Tensor2d [[0; 1; 2; 3; 4; 0; 1; 2]%Z]) = None.
Proof.
  apply (attention_raises_unless_tokens_multiple_of_3 nat (fun n => n)
           (fun _ n => (n, n, n)) (fun _ n => n) (fun _ n => n)
           (fun _ _ n => Some n) (fun n => Some n) (fun n => n)
           (fun _ q _ _ _ => q) (fun _ n => n) (fun _ n => n) (fun _ n => n)
           (fun n _ => n) windowed_config false 0 8
           (Tensor2d [[0; 1; 2; 3; 4; 0; 1; 2]%Z])).
  cbv. discriminate.
Defined.

(** A stack of three layers over the 3-token batch [[0; 1; -1]] runs
    through, and its last layer is called with [[0; 1; 0]]. *)
Lemma returned_position_ids_are_remapped_witness :
  Forall (fun p => (-1 <= p)%Z) [0; 1; -1]%Z /\
  Forall (fun p => (0 <= p)%Z)
    (remap_position_ids (Tensor2d [[0; 1; -1]%Z])) /\
  rows_only_attention windowed_config 0 3 (Tensor2d [[0; 1; -1]%Z]) =
    Some (3, [0; 1; 0]%Z) /\
  nth_error
    (observed_position_ids nat (fun n => n) (fun _ n => (n, n, n))
       (fun _ n => n) (fun _ n => n) (fun _ _ n => Some n) (fun n => Some n)
       (fun n => n) (fun _ q _ _ _ => q) (fun _ n => n) (fun _ n => n)
       (fun _ n => n) (fun n _ => n)
       windowed_config false 3 3 (Tensor2d [[0; 1; -1]%Z])) 2 =
  Some (Tensor1d [0; 1; 0]%Z).
Proof.
  assert (Hin : Forall (fun p => (-1 <= p)%Z)
                  (view_flat (Tensor2d [[0; 1; -1]%Z]))).
  { cbn [view_flat concat app]. repeat (constructor; [lia|]). constructor. }
  pose proof (returned_position_ids_are_remapped nat (fun n => n)
       (fun _ n => (n, n, n)) (fun _ n => n) (fun _ n => n)
       (fun _ _ n => Some n) (fun n => Some n) (fun n => n)
       (fun _ q _ _ _ => q) (fun _ n => n) (fun _ n => n) (fun _ n => n)
       (fun n _ => n) windowed_config false 3 3
       (Tensor2d [[0; 1; -1]%Z])) as H.
  cbv zeta in H.
  destruct H as [_ [_ [_ [Hnonneg [_ [Hobs _]]]]]].
  split; [exact Hin|]. split; [exact (Hnonneg Hin)|].
  split; [reflexivity|].
  destruct (nth_error _ 2) as [ids|] eqn:Hnth.
  - f_equal. apply (Hobs 2 ids); [lia|exact Hnth].
  - vm_compute in Hnth. discriminate.
Defined.

End Attention.

(* ================================================================== *)
(** ** Sanity checks around the training step *)
(* ================================================================== *)

Module SanityChecks.

(** *** Tensors with the special floating-point values *)

(** An element of a gradient or parameter buffer: a finite value, an infinity
    or NaN. *)
Inductive fval :=
| Finite (q : Q)
| PosInf
| NegInf
| NaN.

Definition Tensor := list fval.

(** [torch.isnan], [torch.isinf] and [Tensor.any] *)
Definition isnan (x : fval) : bool :=
  match x with NaN => true | _ => false end.

Definition isinf (x : fval) : bool :=
  match x with PosInf | NegInf => true | _ => false end.

Definition any (t : list bool) : bool := existsb (fun b => b) t.

(** *** Exceptions and the log *)

Inductive exn :=
| ValueError (msg : string)
| TypeError (msg : string)
| AssertionError (msg : string)
| RuntimeError (msg : string).

Inductive level := DEBUG | INFO | WARNING | ERROR.

Record LogRecord := { record_level : level; record_message : string }.

(** A computation that may raise and that appends to the log. *)
Definition M (A : Type) : Type := list LogRecord -> (exn + A) * list LogRecord.

Definition ret {A} (a : A) : M A := fun log => (inr a, log).

Definition raise {A} (e : exn) : M A := fun log => (inl e, log).

Definition bind {A B} (c : M A) (k : A -> M B) : M B :=
  fun log =>
    match c log with
    | (inl e, log') => (inl e, log')
    | (inr a, log') => k a log'
    end.

Notation "x <- c ;; k" := (bind c (fun x => k))
  (at level 61, c at next level, right associativity).
Notation "c ;;; k" := (bind c (fun _ => k))
  (at level 61, right associativity).

Definition log_rank (msg : string) (lvl : level) : M unit :=
  fun log => (inr tt, log ++ [{| record_level := lvl; record_message := msg |}]).

(** [for x in xs: body(x)] *)
Fixpoint for_each {A} (xs : list A) (body : A -> M unit) : M unit :=
  match xs with
  | [] => ret tt
  | x :: rest => body x ;;; for_each rest body
  end.

Definition str_of_nat (n : nat) : string := NilZero.string_of_uint (Nat.to_uint n).

(** *** [assert_tensor_synced_across_pg] *)

(** Default tolerances of [torch.testing.assert_close] for a dtype. *)
Record dtype := { rtol : Q; atol : Q }.

Definition float32 : dtype := {| rtol := 13 # 10000000; atol := 1 # 100000 |}.
Definition bfloat16 : dtype := {| rtol := 16 # 1000; atol := 1 # 100000 |}.

(** [torch.isclose(actual, expected, rtol, atol, equal_nan=False)] on one
    element: equal infinities are close, NaN is close to nothing. *)
Definition isclose (dt : dtype) (actual expected : fval) : bool :=
  match actual, expected with
  | Finite x, Finite y => Qle_bool (Qabs (x - y)) (atol dt + rtol dt * Qabs y)
  | PosInf, PosInf => true
  | NegInf, NegInf => true
  | _, _ => false
  end.

Fixpoint all_close (dt : dtype) (actual expected : Tensor) : bool :=
  match actual, expected with
  | [], [] => true
  | a :: actual', e :: expected' => isclose dt a e && all_close dt actual' expected'
  | _, _ => false
  end.

(** [torch.testing.assert_close(actual, expected, msg=msg)]; the shapes must
    agree and every element must be close. *)
Definition assert_close (dt : dtype) (actual expected : Tensor)
  (msg : string -> string) : M unit :=
  if all_close dt actual expected then ret tt
  else raise (AssertionError (msg "Tensor-likes are not close!")).

(** A process group, seen from the collective: the tensor held by each group
    rank. *)
Definition ProcessGroup := list Tensor.

(** [torch.empty_like]: a fresh buffer of the same shape. *)
Definition empty_like (t : Tensor) : Tensor := map (fun _ => Finite 0) t.

(** [dist.broadcast(buffer, src, group)] on group rank [rank]: the source
    keeps its buffer, every other rank has its buffer overwritten by the
    source's. *)
Definition broadcast (pg : ProcessGroup) (rank src : nat) (buffer : Tensor)
  : Tensor :=
  if rank =? src then buffer else nth src pg buffer.

Definition assert_tensor_synced_across_pg (dt : dtype) (pg : ProcessGroup)
  (rank : nat) (msg : string -> string) (reference_rank : nat) : M unit :=
  let tensor := nth rank pg [] in
  let reference_tensor :=
    if rank =? reference_rank then tensor else empty_like tensor in
  if length pg <=? reference_rank
  then raise (RuntimeError "group rank is not part of the group")
  else
    let reference_tensor := broadcast pg rank reference_rank reference_tensor in
    assert_close dt tensor reference_tensor msg.

(** *** [after_tbi_sanity_checks] *)

Record NanotronParameter := {
  requires_grad : bool;
  is_tied : bool;
  (** [get_tied_info().get_full_name_from_module_id_to_prefix(...)] *)
  tied_full_name : string;
  grad : option Tensor
}.

(** [GradientAccumulator.get_grad_buffer] *)
Definition GradientAccumulator := string -> option Tensor.

Record NanotronModel := {
  named_parameters : list (string * NanotronParameter);
  (** the model's own [after_tbi_sanity_checks] method *)
  model_after_tbi_sanity_checks : M unit
}.

Record Config := { ignore_sanity_checks : bool }.

Record ParallelContext := { world_rank : nat; world_size : nat }.

(** [torch.isnan(grad)] and [torch.isinf(grad)]: a missing gradient is not a
    tensor. *)
Definition torch_isnan (grad : option Tensor) : M (list bool) :=
  match grad with
  | Some g => ret (map isnan g)
  | None =>
      raise (TypeError
               "isnan(): argument 'input' (position 1) must be Tensor, not NoneType")
  end.

Definition torch_isinf (grad : option Tensor) : M (list bool) :=
  match grad with
  | Some g => ret (map isinf g)
  | None =>
      raise (TypeError
               "isinf(): argument 'input' (position 1) must be Tensor, not NoneType")
  end.

Definition effective_name (name : string) (param : NanotronParameter) : string :=
  if is_tied param then tied_full_name param else name.

Definition effective_grad (grad_accumulator : option GradientAccumulator)
  (name : string) (param : NanotronParameter) : option Tensor :=
  match grad_accumulator with
  | Some get_grad_buffer => get_grad_buffer (effective_name name param)
  | None => grad param
  end.

(** The body of the loop over [named_parameters()]. *)
Definition check_gradient (parallel_context : ParallelContext)
  (grad_accumulator : option GradientAccumulator)
  (entry : string * NanotronParameter) : M unit :=
  let '(param_name, param) := entry in
  if negb (requires_grad param) then ret tt
  else
    let name := effective_name param_name param in
    let grad := effective_grad grad_accumulator param_name param in
    nan_mask <- torch_isnan grad ;;
    bad <- (if any nan_mask then ret true
            else inf_mask <- torch_isinf grad ;; ret (any inf_mask)) ;;
    (if bad : bool
     then raise (ValueError ("Gradient is nan or inf for " ++ name))
     else ret tt) ;;;
    match grad with
    | None =>
        log_rank ("Process rank " ++ str_of_nat (world_rank parallel_context)
                  ++ "/" ++ str_of_nat (world_size parallel_context)
                  ++ ": " ++ name ++ " is missing gradient") ERROR
    | Some _ => ret tt
    end.

Definition after_tbi_sanity_checks (config : Config)
  (parallel_context : ParallelContext) (unwrapped_model : NanotronModel)
  (grad_accumulator : option GradientAccumulator) : M unit :=
  if negb (ignore_sanity_checks config)
  then
    for_each (named_parameters unwrapped_model)
      (check_gradient parallel_context grad_accumulator) ;;;
    model_after_tbi_sanity_checks unwrapped_model
  else ret tt.

(** *** Facts about the after-backward check *)

Definition has_nan_or_inf (g : Tensor) : bool :=
  any (map isnan g) || any (map isinf g).

(** A parameter the loop passes over silently: it needs no gradient, or its
    gradient is present and finite. *)
Definition gradient_clean (grad_accumulator : option GradientAccumulator)
  (entry : string * NanotronParameter) : Prop :=
  requires_grad (snd entry) = false \/
  exists g, effective_grad grad_accumulator (fst entry) (snd entry) = Some g /\
            has_nan_or_inf g = false.

Lemma check_gradient_clean pc acc entry log :
  gradient_clean acc entry -> check_gradient pc acc entry log = (inr tt, log).
Proof.
  destruct entry as [name p]. unfold gradient_clean, check_gradient. simpl.
  intros [Hreq|[g [Hg Hfin]]].
  - now rewrite Hreq.
  - destruct (requires_grad p); [|reflexivity]. simpl. rewrite Hg.
    unfold has_nan_or_inf in Hfin. apply orb_false_elim in Hfin as [Hn Hi].
    unfold bind, torch_isnan, torch_isinf, ret. simpl.
    rewrite Hn. simpl. now rewrite Hi.
Qed.

Lemma check_gradient_bad pc acc name p g log :
  requires_grad p = true ->
  effective_grad acc name p = Some g ->
  has_nan_or_inf g = true ->
  check_gradient pc acc (name, p) log =
  (inl (ValueError ("Gradient is nan or inf for " ++ effective_name name p)), log).
Proof.
  intros Hreq Hg Hbad. unfold check_gradient. rewrite Hreq. simpl. rewrite Hg.
  unfold has_nan_or_inf in Hbad.
  unfold bind, torch_isnan, torch_isinf, ret, raise. simpl.
  destruct (any (map isnan g)); simpl; [reflexivity|].
  simpl in Hbad. now rewrite Hbad.
Qed.

Lemma check_gradient_missing pc acc name p log :
  requires_grad p = true ->
  effective_grad acc name p = None ->
  check_gradient pc acc (name, p) log =
  (inl (TypeError
          "isnan(): argument 'input' (position 1) must be Tensor, not NoneType"),
   log).
Proof.
  intros Hreq Hg. unfold check_gradient. rewrite Hreq. simpl. now rewrite Hg.
Qed.

Lemma for_each_clean pc acc pre log :
  Forall (gradient_clean acc) pre ->
  forall post,
    for_each (pre ++ post) (check_gradient pc acc) log =
    for_each post (check_gradient pc acc) log.
Proof.
  induction 1 as [|e pre He _ IH]; intros post; [reflexivity|].
  rewrite <- app_comm_cons. cbn [for_each].
  unfold bind. rewrite check_gradient_clean by assumption. apply IH.
Qed.

(** The loop never writes to the log: the branch that would report a missing
    gradient sits behind [torch.isnan(grad)], which has already raised. *)
Lemma for_each_check_gradient_log pc acc params log :
  snd (for_each params (check_gradient pc acc) log) = log.
Proof.
  induction params as [|[name p] rest IH]; cbn [for_each]; [reflexivity|].
  unfold bind.
  destruct (requires_grad p) eqn:Hreq.
  - destruct (effective_grad acc name p) as [g|] eqn:Hg.
    + destruct (has_nan_or_inf g) eqn:Hbad.
      * now rewrite (check_gradient_bad pc acc name p g log).
      * rewrite check_gradient_clean; [apply IH|].
        right. exists g. now split.
    + now rewrite check_gradient_missing.
  - rewrite check_gradient_clean; [apply IH|]. now left.
Qed.

Definition nan_model : NanotronModel :=
  {| named_parameters :=
       [("w", {| requires_grad := true; is_tied := false;
                 tied_full_name := ""; grad := Some [Finite 1; NaN] |})];
     model_after_tbi_sanity_checks := ret tt |}.

(** With the sanity checks enabled, the first parameter in iteration order
    that requires gradients and whose gradient contains a NaN or an infinity
    makes the check raise [ValueError] carrying that parameter's name (its
    tied name when tied), provided the parameters before it have their
    gradients present; nothing is logged, and neither the remaining
    parameters nor the model's own checks are reached. *)
Theorem after_tbi_raises_on_nan_or_inf (config : Config)
  (parallel_context : ParallelContext) (unwrapped_model : NanotronModel)
  (grad_accumulator : option GradientAccumulator)
  (pre post : list (string * NanotronParameter)) (name : string)
  (param : NanotronParameter) (g : Tensor) (log : list LogRecord) :
  ignore_sanity_checks config = false ->
  named_parameters unwrapped_model = pre ++ (name, param) :: post ->
  Forall (gradient_clean grad_accumulator) pre ->
  requires_grad param = true ->
  effective_grad grad_accumulator name param = Some g ->
  (exists x, In x g /\ (isnan x = true \/ isinf x = true)) ->
  after_tbi_sanity_checks config parallel_context unwrapped_model
    grad_accumulator log =
  (inl (ValueError ("Gradient is nan or inf for " ++ effective_name name param)),
   log).
Proof.
  intros Hon Hparams Hpre Hreq Hg [x [Hx Hbad]].
  unfold after_tbi_sanity_checks. rewrite Hon, Hparams. cbn [negb].
  unfold bind at 1.
  rewrite (for_each_clean parallel_context grad_accumulator pre log Hpre).
  cbn [for_each]. unfold bind at 1.
  rewrite (check_gradient_bad parallel_context grad_accumulator name param g log);
    try assumption; [reflexivity|].
  unfold has_nan_or_inf, any. apply orb_true_iff.
  destruct Hbad as [Hn|Hi]; [left|right]; apply existsb_exists;
    exists true; (split; [|reflexivity]); apply in_map_iff; exists x; now split.
Qed.

Lemma after_tbi_raises_on_nan_or_inf_witness :
  after_tbi_sanity_checks {| ignore_sanity_checks := false |}
    {| world_rank := 0; world_size := 1 |} nan_model None [] =
  (inl (ValueError "Gradient is nan or inf for w"), []).
Proof.
  apply (after_tbi_raises_on_nan_or_inf {| ignore_sanity_checks := false |}
           {| world_rank := 0; world_size := 1 |} nan_model None [] [] "w"
           {| requires_grad := true; is_tied := false;
              tied_full_name := ""; grad := Some [Finite 1; NaN] |}
           [Finite 1; NaN] []).
  - reflexivity.
  - reflexivity.
  - constructor.
  - reflexivity.
  - reflexivity.
  - exists NaN. split; [right; left; reflexivity|left; reflexivity].
Defined.

Definition missing_grad_model : NanotronModel :=
  {| named_parameters :=
       [("w", {| requires_grad := true; is_tied := false;
                 tied_full_name := ""; grad := None |})];
     model_after_tbi_sanity_checks := ret tt |}.

(** C7, what the code does.  With the sanity checks enabled, the first
    gradient-requiring parameter whose gradient is missing makes the check
    raise [TypeError] from [torch.isnan(None)]; nothing is logged. *)
Theorem after_tbi_missing_gradient_raises (config : Config)
  (parallel_context : ParallelContext) (unwrapped_model : NanotronModel)
  (grad_accumulator : option GradientAccumulator)
  (pre post : list (string * NanotronParameter)) (name : string)
  (param : NanotronParameter) (log : list LogRecord) :
  ignore_sanity_checks config = false ->
  named_parameters unwrapped_model = pre ++ (name, param) :: post ->
  Forall (gradient_clean grad_accumulator) pre ->
  requires_grad param = true ->
  effective_grad grad_accumulator name param = None ->
  after_tbi_sanity_checks config parallel_context unwrapped_model
    grad_accumulator log =
  (inl (TypeError
          "isnan(): argument 'input' (position 1) must be Tensor, not NoneType"),
   log).
Proof.
  intros Hon Hparams Hpre Hreq Hg.
  unfold after_tbi_sanity_checks. rewrite Hon, Hparams. cbn [negb].
  unfold bind at 1.
  rewrite (for_each_clean parallel_context grad_accumulator pre log Hpre).
  cbn [for_each]. unfold bind at 1.
  now rewrite (check_gradient_missing parallel_context grad_accumulator name
                 param log Hreq Hg).
Qed.

(** The failing input of C7: one parameter that requires gradients and has
    none, no gradient accumulator. *)
Lemma after_tbi_missing_gradient_raises_witness :
  after_tbi_sanity_checks {| ignore_sanity_checks := false |}
    {| world_rank := 0; world_size := 1 |} missing_grad_model None [] =
  (inl (TypeError
          "isnan(): argument 'input' (position 1) must be Tensor, not NoneType"),
   []).
Proof.
  apply (after_tbi_missing_gradient_raises {| ignore_sanity_checks := false |}
           {| world_rank := 0; world_size := 1 |} missing_grad_model None [] []
           "w" {| requires_grad := true; is_tied := false;
                  tied_full_name := ""; grad := None |} []).
  - reflexivity.
  - reflexivity.
  - constructor.
  - reflexivity.
  - reflexivity.
Defined.

Definition hidden_nan_model : NanotronModel :=
  {| named_parameters :=
       [("a", {| requires_grad := true; is_tied := false;
                 tied_full_name := ""; grad := None |});
        ("b", {| requires_grad := true; is_tied := false;
                 tied_full_name := ""; grad := Some [Finite 1; NaN] |})];
     model_after_tbi_sanity_checks := ret tt |}.

(** C6, what the code does.  With the sanity checks enabled, a
    gradient-requiring parameter whose gradient holds a NaN or an infinity is
    not reported when a gradient-requiring parameter before it has no
    gradient: [torch.isnan(None)] raises [TypeError] on the earlier one, the
    loop never reaches the offending parameter, and the error raised is not
    the [ValueError] that names it. *)
Theorem nan_gradient_not_reported_after_missing_gradient (config : Config)
  (parallel_context : ParallelContext) (unwrapped_model : NanotronModel)
  (grad_accumulator : option GradientAccumulator)
  (pre mid post : list (string * NanotronParameter))
  (missing_name name : string) (missing_param param : NanotronParameter)
  (g : Tensor) (log : list LogRecord) :
  ignore_sanity_checks config = false ->
  named_parameters unwrapped_model =
    pre ++ (missing_name, missing_param) :: mid ++ (name, param) :: post ->
  Forall (gradient_clean grad_accumulator) pre ->
  requires_grad missing_param = true ->
  effective_grad grad_accumulator missing_name missing_param = None ->
  requires_grad param = true ->
  effective_grad grad_accumulator name param = Some g ->
  (exists x, In x g /\ (isnan x = true \/ isinf x = true)) ->
  let result :=
    after_tbi_sanity_checks config parallel_context unwrapped_model
      grad_accumulator log in
  result =
  (inl (TypeError
          "isnan(): argument 'input' (position 1) must be Tensor, not NoneType"),
   log) /\
  fst result <>
  inl (ValueError ("Gradient is nan or inf for " ++ effective_name name param)).
Proof.
  intros Hon Hparams Hpre Hreq Hmissing _ _ _. cbv zeta.
  assert (Hrun :
    after_tbi_sanity_checks config parallel_context unwrapped_model
      grad_accumulator log =
    (inl (TypeError
            "isnan(): argument 'input' (position 1) must be Tensor, not NoneType"),
     log)).
  { unfold after_tbi_sanity_checks. rewrite Hon, Hparams. cbn [negb].
    unfold bind at 1.
    rewrite (for_each_clean parallel_context grad_accumulator pre log Hpre).
    cbn [for_each]. unfold bind at 1.
    now rewrite (check_gradient_missing parallel_context grad_accumulator
                   missing_name missing_param log Hreq Hmissing). }
  rewrite Hrun. split; [reflexivity|]. cbn [fst]. discriminate.
Qed.

(** The failing input of C6: parameter [a] has no gradient, parameter [b]
    after it has a NaN in its gradient; the error raised does not name
    [b]. *)
Lemma nan_gradient_not_reported_after_missing_gradient_witness :
  after_tbi_sanity_checks {| ignore_sanity_checks := false |}
    {| world_rank := 0; world_size := 1 |} hidden_nan_model None [] =
  (inl (TypeError
          "isnan(): argument 'input' (position 1) must be Tensor, not NoneType"),
   []).
Proof.
  apply (nan_gradient_not_reported_after_missing_gradient
           {| ignore_sanity_checks := false |}
           {| world_rank := 0; world_size := 1 |} hidden_nan_model None
           [] [] [] "a" "b"
           {| requires_grad := true; is_tied := false;
              tied_full_name := ""; grad := None |}
           {| requires_grad := true; is_tied := false;
              tied_full_name := ""; grad := Some [Finite 1; NaN] |}
           [Finite 1; NaN] []).
  - reflexivity.
  - reflexivity.
  - constructor.
  - reflexivity.
  - reflexivity.
  - reflexivity.
  - reflexivity.
  - exists NaN. split; [right; left; reflexivity|left; reflexivity].
Defined.

(** In general the after-backward check leaves the log as the model's own
    checks find it: the report of a missing gradient is unreachable. *)
Lemma after_tbi_never_logs_missing_gradient config pc model acc log :
  (forall log', snd (model_after_tbi_sanity_checks model log') = log') ->
  snd (after_tbi_sanity_checks config pc model acc log) = log.
Proof.
  intros Hmodel. unfold after_tbi_sanity_checks.
  destruct (ignore_sanity_checks config); simpl; [reflexivity|].
  unfold bind.
  pose proof (for_each_check_gradient_log pc acc (named_parameters model) log) as H.
  destruct (for_each (named_parameters model) (check_gradient pc acc) log)
    as [[e|[]] log']; simpl in H; subst log'; [reflexivity|apply Hmodel].
Qed.

(** *** Facts about the synchronisation check *)

Definition no_nan (t : Tensor) : Prop := Forall (fun x => isnan x = false) t.

Lemma isclose_refl dt x :
  (0 <= rtol dt)%Q -> (0 <= atol dt)%Q -> isnan x = false -> isclose dt x x = true.
Proof.
  intros Hr Ha Hx. destruct x as [q| | |]; simpl in *; try reflexivity;
    [|discriminate].
  apply Qle_bool_iff.
  assert (Hz : (Qabs (q - q) == 0)%Q).
  { assert (Hqq : (q - q == 0)%Q) by (unfold Qminus; apply Qplus_opp_r).
    rewrite Hqq. reflexivity. }
  rewrite Hz.
  apply (Qle_trans _ (0 + 0)%Q); [discriminate|].
  apply Qplus_le_compat; [assumption|].
  apply Qmult_le_0_compat; [assumption|apply Qabs_nonneg].
Qed.

Lemma all_close_refl dt t :
  (0 <= rtol dt)%Q -> (0 <= atol dt)%Q -> no_nan t -> all_close dt t t = true.
Proof.
  intros Hr Ha. induction 1 as [|x t Hx _ IH]; simpl; [reflexivity|].
  now rewrite isclose_refl, IH.
Qed.

Lemma all_close_nan dt t :
  In NaN t -> all_close dt t t = false.
Proof.
  induction t as [|x t IH]; simpl; [contradiction|].
  intros [->|Hin]; [reflexivity|].
  rewrite IH by assumption. apply andb_false_r.
Qed.

(** On the reference rank the tensor is compared with itself whatever the
    other ranks hold; the comparison succeeds exactly when it has no NaN. *)
Lemma reference_rank_self_comparison dt pg reference_rank msg log :
  reference_rank < length pg ->
  assert_tensor_synced_across_pg dt pg reference_rank msg reference_rank log =
  assert_close dt (nth reference_rank pg []) (nth reference_rank pg []) msg log.
Proof.
  intros Hlt. unfold assert_tensor_synced_across_pg, broadcast.
  rewrite Nat.eqb_refl.
  destruct (Nat.leb_spec (length pg) reference_rank); [lia|reflexivity].
Qed.

Lemma reference_rank_passes_without_nan dt pg reference_rank msg log :
  (0 <= rtol dt)%Q -> (0 <= atol dt)%Q ->
  reference_rank < length pg ->
  no_nan (nth reference_rank pg []) ->
  assert_tensor_synced_across_pg dt pg reference_rank msg reference_rank log =
  (inr tt, log).
Proof.
  intros Hr Ha Hlt Hnan. rewrite reference_rank_self_comparison by assumption.
  unfold assert_close. now rewrite all_close_refl.
Qed.

(** C9, what the code does.  On the reference rank the tensor is compared
    with itself; NaN is not close to NaN, so a tensor holding a NaN makes the
    check raise on the reference rank, whatever the other ranks hold. *)
Theorem reference_rank_fails_on_nan (dt : dtype) (pg : ProcessGroup)
  (reference_rank : nat) (msg : string -> string) (log : list LogRecord) :
  reference_rank < length pg ->
  In NaN (nth reference_rank pg []) ->
  assert_tensor_synced_across_pg dt pg reference_rank msg reference_rank log =
  (inl (AssertionError (msg "Tensor-likes are not close!")), log).
Proof.
  intros Hlt Hnan. rewrite reference_rank_self_comparison by assumption.
  unfold assert_close. now rewrite all_close_nan.
Qed.

(** The failing input of C9: a single-rank group whose tensor is
    [[1.0; nan]]. *)
Lemma reference_rank_fails_on_nan_witness :
  assert_tensor_synced_across_pg float32 [[Finite 1; NaN]] 0
    (fun err => ("w are not synchronized across DP_CP " ++ err)%string) 0 [] =
  (inl (AssertionError
          "w are not synchronized across DP_CP Tensor-likes are not close!"),
   []).
Proof.
  apply (reference_rank_fails_on_nan float32 [[Finite 1; NaN]] 0
           (fun err => ("w are not synchronized across DP_CP " ++ err)%string) []).
  - simpl. lia.
  - simpl. right. left. reflexivity.
Defined.

End SanityChecks.

(* ================================================================== *)
(** ** Mixture-of-experts layer *)
(* ================================================================== *)

Module MoE.

Local Open Scope R_scope.

(** A row of a float tensor and a two-dimensional tensor [[rows, width]]. *)
Definition Vec := list R.
Definition Mat := list Vec.

Fixpoint map2 {A B C : Type} (f : A -> B -> C) (l1 : list A) (l2 : list B)
  : list C :=
  match l1, l2 with
  | a :: l1', b :: l2' => f a b :: map2 f l1' l2'
  | _, _ => []
  end.

Definition vzeros (width : nat) : Vec := repeat 0 width.
Definition vadd (a b : Vec) : Vec := map2 Rplus a b.
Definition vscale (v : Vec) (w : R) : Vec := map (fun x => x * w) v.
Definition vsum (v : Vec) : R := fold_right Rplus 0 v.

(** *** [Qwen2MLP] *)

(** The partitioned linear layers act on the last axis only, so each is a map
    on rows; they and the activation come from outside the modelled file. *)
Record Qwen2MLP := {
  gate_up_proj : Vec -> Vec;
  down_proj : Vec -> Vec;
  act : R -> R
}.

(** [Qwen2MLP.forward] on one row: the merged projection is split into its
    two halves, [act(gate) * up] goes through the down projection. *)
Definition Qwen2MLP_forward_row (self : Qwen2MLP) (hidden_state : Vec) : Vec :=
  let merged_states := gate_up_proj self hidden_state in
  let half := Nat.div (length merged_states) 2 in
  let gate_states := firstn half merged_states in
  let up_states := firstn half (skipn half merged_states) in
  let hidden_state := map2 Rmult (map (act self) gate_states) up_states in
  down_proj self hidden_state.

Definition Qwen2MLP_forward (self : Qwen2MLP) (hidden_states : Mat) : Mat :=
  map (Qwen2MLP_forward_row self) hidden_states.

(** *** [torch.topk] and [F.softmax] on one row *)

Definition Rltb (x y : R) : bool := if Rlt_dec x y then true else false.

(** Insertion into a list ordered by decreasing value; an entry goes in front
    of the entries that do not exceed it. *)
Fixpoint insert_desc (p : R * nat) (l : list (R * nat)) : list (R * nat) :=
  match l with
  | [] => [p]
  | q :: l' => if Rltb (fst p) (fst q) then q :: insert_desc p l' else p :: l
  end.

Definition sort_desc (l : list (R * nat)) : list (R * nat) :=
  fold_right insert_desc [] l.

(** The [k] largest entries of [x] with their indices, largest first; among
    equal entries the lower index first. *)
Definition topk (x : Vec) (k : nat) : list (R * nat) :=
  firstn k (sort_desc (combine x (seq 0 (length x)))).

Definition softmax (x : Vec) : Vec :=
  let z := vsum (map exp x) in
  map (fun v => exp v / z) x.

Definition sigmoid (x : R) : R := 1 / (1 + exp (- x)).

(** *** [Qwen2MoELayer] *)

Record Qwen2MoELayer := {
  hidden_size : nat;
  num_experts : nat;
  num_experts_per_token : nat;
  expert_parallel_size : nat;
  router : Vec -> Vec;
  enable_shared_expert : bool;
  shared_expert : Qwen2MLP;
  (** a column-parallel linear layer with a single output feature *)
  shared_expert_gate : Vec -> R;
  (** [self.experts[expert_idx]], for [expert_idx < num_local_experts] *)
  experts : nat -> Qwen2MLP;
  recompute_layer : bool;
  training : bool
}.

Definition num_local_experts (self : Qwen2MoELayer) : nat :=
  Nat.div (num_experts self) (expert_parallel_size self).

(** The router is a linear layer with [num_experts] output features;
    [topk] fails when [k] exceeds the size of that axis. *)
Definition _compute_router_probabilities (self : Qwen2MoELayer)
  (hidden_states : Mat) : option (Mat * list (list nat)) :=
  let router_logits := map (router self) hidden_states in
  if (num_experts_per_token self <=? num_experts self)%nat
     && forallb (fun logits => (num_experts_per_token self <=? length logits)%nat)
                router_logits
  then
    let top := map (fun logits => topk logits (num_experts_per_token self))
                   router_logits in
    let routing_weights := map (fun t => map fst t) top in
    let routing_indices := map (fun t => map snd t) top in
    let routing_weights := map softmax routing_weights in
    Some (routing_weights, routing_indices)
  else None.

(** [(routing_indices == expert_idx).any(dim=-1)] *)
Definition expert_mask_of (routing_indices : list (list nat)) (expert_idx : nat)
  : list bool :=
  map (fun row => existsb (Nat.eqb expert_idx) row) routing_indices.

(** [t[mask]] for a boolean mask over the rows; the mask has one entry per
    row, being computed from routing indices that have one row per token. *)
Fixpoint select_rows {A : Type} (t : list A) (mask : list bool) : list A :=
  match t, mask with
  | x :: t', b :: mask' => if b then x :: select_rows t' mask' else select_rows t' mask'
  | _, _ => []
  end.

(** The columns of one row that hold [expert_idx]. *)
Fixpoint columns_equal (expert_idx : nat) (j : nat) (row : list nat) : list nat :=
  match row with
  | [] => []
  | e :: row' =>
      if Nat.eqb e expert_idx then j :: columns_equal expert_idx (S j) row'
      else columns_equal expert_idx (S j) row'
  end.

(** [(routing_indices == expert_idx).nonzero(as_tuple=True)], as the list of
    [(token, slot)] pairs in row-major order. *)
Definition nonzero_equal (routing_indices : list (list nat)) (expert_idx : nat)
  : list (nat * nat) :=
  concat (imap (fun t row => map (pair t) (columns_equal expert_idx 0 row))
               routing_indices).

(** [tokens * weights.unsqueeze(-1)]: the row counts must agree, or one of
    them must be 1 and is broadcast. *)
Definition scale_rows (tokens : Mat) (weights : Vec) : option Mat :=
  if (length tokens =? length weights)%nat then Some (map2 vscale tokens weights)
  else match tokens, weights with
       | [token], _ => Some (map (vscale token) weights)
       | _, [w] => Some (map (fun token => vscale token w) tokens)
       | _, _ => None
       end.

(** One iteration of the loop of [_dispatch_tokens]. *)
Definition dispatch_expert (hidden_states routing_weights : Mat)
  (routing_indices : list (list nat)) (expert_idx : nat) : option (Mat * nat) :=
  let expert_mask := expert_mask_of routing_indices expert_idx in
  let tokens_for_expert := select_rows hidden_states expert_mask in
  let expert_positions := nonzero_equal routing_indices expert_idx in
  let expert_weights :=
    map (fun p => nth (snd p) (nth (fst p) routing_weights []) 0) expert_positions in
  match scale_rows tokens_for_expert expert_weights with
  | Some scaled_inputs => Some (scaled_inputs, length tokens_for_expert)
  | None => None
  end.

(** [[f(x) for x in xs]] where [f] may raise. *)
Fixpoint traverse {A B : Type} (f : A -> option B) (xs : list A) : option (list B) :=
  match xs with
  | [] => Some []
  | x :: rest =>
      match f x, traverse f rest with
      | Some y, Some ys => Some (y :: ys)
      | _, _ => None
      end
  end.

Definition _dispatch_tokens (self : Qwen2MoELayer) (hidden_states routing_weights : Mat)
  (routing_indices : list (list nat)) : option (list Mat * list nat) :=
  match traverse (dispatch_expert hidden_states routing_weights routing_indices)
          (seq 0 (num_local_experts self)) with
  | Some dispatched => Some (map fst dispatched, map snd dispatched)
  | None => None
  end.

(** The loop over the experts in [_core_forward]: an expert with no token
    gets the empty tensor, the others run their feed-forward.  The second
    component lists the experts whose feed-forward was called. *)
Definition run_experts (self : Qwen2MoELayer) (dispatched_inputs : list Mat)
  (expert_counts : list nat) : list Mat * list nat :=
  let steps :=
    imap (fun expert_idx (p : Mat * nat) =>
            let '(inputs, count) := p in
            if (count =? 0)%nat then ([], [])
            else (Qwen2MLP_forward (experts self expert_idx) inputs, [expert_idx]))
         (combine dispatched_inputs expert_counts) in
  (map fst steps, concat (map snd steps)).

(** [combined_output[expert_mask] += expert_output]: the mask has one entry
    per row of [combined_output] and selects as many rows as [expert_output]
    has, each expert output row being as wide as the rows it is added to. *)
Fixpoint index_add (combined_output : Mat) (expert_mask : list bool)
  (expert_output : Mat) : option Mat :=
  match combined_output, expert_mask with
  | [], [] => match expert_output with [] => Some [] | _ :: _ => None end
  | row :: combined', b :: mask' =>
      if b then
        match expert_output with
        | out :: expert_output' =>
            option_map (cons (vadd row out)) (index_add combined' mask' expert_output')
        | [] => None
        end
      else option_map (cons row) (index_add combined' mask' expert_output)
  | _, _ => None
  end.

(** One iteration of the loop of [_combine_expert_outputs]. *)
Definition combine_step (routing_indices : list (list nat))
  (combined_output : option Mat) (p : nat * Mat) : option Mat :=
  let '(expert_idx, expert_output) := p in
  match combined_output with
  | None => None
  | Some combined =>
      match expert_output with
      | [] => Some combined
      | _ :: _ =>
          index_add combined (expert_mask_of routing_indices expert_idx)
            expert_output
      end
  end.

(** [expert_outputs[0]] is read for its device, so the list must not be
    empty. *)
Definition _combine_expert_outputs (expert_outputs : list Mat)
  (routing_indices : list (list nat)) (original_shape : nat * nat) : option Mat :=
  match expert_outputs with
  | [] => None
  | _ :: _ =>
      let combined_output :=
        repeat (vzeros (snd original_shape)) (fst original_shape) in
      fold_left (combine_step routing_indices)
        (combine (seq 0 (length expert_outputs)) expert_outputs)
        (Some combined_output)
  end.

(** Routing, dispatch, expert computation and combination: [_core_forward] up
    to the shared expert.  The second component lists the experts whose
    feed-forward was called. *)
Definition routed_forward (self : Qwen2MoELayer) (hidden_states : Mat)
  : option (Mat * list nat) :=
  match _compute_router_probabilities self hidden_states with
  | None => None
  | Some (routing_weights, routing_indices) =>
      match _dispatch_tokens self hidden_states routing_weights routing_indices with
      | None => None
      | Some (dispatched_inputs, expert_counts) =>
          let '(expert_outputs, called) :=
            run_experts self dispatched_inputs expert_counts in
          match _combine_expert_outputs expert_outputs routing_indices
                  (length hidden_states, hidden_size self) with
          | None => None
          | Some output => Some (output, called)
          end
      end
  end.

Definition _core_forward (self : Qwen2MoELayer) (hidden_states : Mat)
  : option (Mat * list nat) :=
  match routed_forward self hidden_states with
  | None => None
  | Some (output, called) =>
      if enable_shared_expert self then
        let shared_expert_output :=
          Qwen2MLP_forward (shared_expert self) hidden_states in
        let shared_gate :=
          map (fun h => sigmoid (shared_expert_gate self h)) hidden_states in
        let output :=
          map2 vadd output
            (map2 (fun g row => map (fun x => g * x) row) shared_gate
               shared_expert_output) in
        Some (output, called)
      else Some (output, called)
  end.

(** Activation recomputation runs [_core_forward] itself. *)
Definition forward (self : Qwen2MoELayer) (hidden_states : Mat)
  : option (Mat * list nat) :=
  if recompute_layer self && training self
  then _core_forward self hidden_states
  else _core_forward self hidden_states.

(** *** Per-token view of the routing *)

(** Expert [e] appears among the indices [idx] of a token. *)
Definition selects (idx : list nat) (e : nat) : bool := existsb (Nat.eqb e) idx.

(** The routing weight a token with weights [w] and indices [idx] gives to
    expert [e]: the weight in the slot that holds [e], and 0 when no slot
    does. *)
Definition slot_weight (w : Vec) (idx : list nat) (e : nat) : R :=
  match columns_equal e 0 idx with
  | j :: _ => nth j w 0
  | [] => 0
  end.

Definition routing_indices_of (self : Qwen2MoELayer) (h : Vec) : list nat :=
  map snd (topk (router self h) (num_experts_per_token self)).

Definition routing_weights_of (self : Qwen2MoELayer) (h : Vec) : Vec :=
  softmax (map fst (topk (router self h) (num_experts_per_token self))).

Definition expert_row (self : Qwen2MoELayer) (e : nat) (x : Vec) : Vec :=
  Qwen2MLP_forward_row (experts self e) x.

(** The local experts a token selected, in increasing order. *)
Definition selected_local (self : Qwen2MoELayer) (h : Vec) : list nat :=
  filter (selects (routing_indices_of self h)) (seq 0 (num_local_experts self)).

(** What the layer computes for one token: the sum, over the local experts
    the token selected, of the expert applied to the weighted token. *)
Definition routed_token (self : Qwen2MoELayer) (h : Vec) : Vec :=
  fold_left vadd
    (map (fun e =>
            expert_row self e
              (vscale h (slot_weight (routing_weights_of self h)
                                     (routing_indices_of self h) e)))
         (selected_local self h))
    (vzeros (hidden_size self)).

(** The local experts that receive at least one token. *)
Definition experts_with_tokens (self : Qwen2MoELayer) (hidden_states : Mat)
  : list nat :=
  filter (fun e =>
            existsb (fun h => selects (routing_indices_of self h) e) hidden_states)
         (seq 0 (num_local_experts self)).

(** The combination as the specification words it: the weighted sum, over
    all the experts the token selected, of the expert outputs on the token's
    hidden state. *)
Definition weighted_sum_as_specified (self : Qwen2MoELayer) (h : Vec) : Vec :=
  fold_left vadd
    (map (fun e =>
            vscale (expert_row self e h)
              (slot_weight (routing_weights_of self h)
                           (routing_indices_of self h) e))
         (filter (selects (routing_indices_of self h))
                 (seq 0 (num_experts self))))
    (vzeros (hidden_size self)).

(** The layer with the feed-forward of local expert [e] replaced. *)
Definition with_expert (self : Qwen2MoELayer) (e : nat) (mlp : Qwen2MLP)
  : Qwen2MoELayer :=
  {| hidden_size := hidden_size self;
     num_experts := num_experts self;
     num_experts_per_token := num_experts_per_token self;
     expert_parallel_size := expert_parallel_size self;
     router := router self;
     enable_shared_expert := enable_shared_expert self;
     shared_expert := shared_expert self;
     shared_expert_gate := shared_expert_gate self;
     experts := fun i => if Nat.eqb i e then mlp else experts self i;
     recompute_layer := recompute_layer self;
     training := training self |}.

(** The routed output of a token with expert [e] left out of the sum. *)
Definition routed_token_without (self : Qwen2MoELayer) (e : nat) (h : Vec) : Vec :=
  fold_left vadd
    (map (fun e' =>
            expert_row self e'
              (vscale h (slot_weight (routing_weights_of self h)
                                     (routing_indices_of self h) e')))
         (filter (fun e' => negb (Nat.eqb e' e)) (selected_local self h)))
    (vzeros (hidden_size self)).

(** The gated output of the shared expert for one token. *)
Definition shared_token (self : Qwen2MoELayer) (h : Vec) : Vec :=
  map (fun x => sigmoid (shared_expert_gate self h) * x)
      (Qwen2MLP_forward_row (shared_expert self) h).

(** *** Properties of [topk] *)

Lemma insert_desc_perm p l : Permutation (insert_desc p l) (p :: l).
Proof.
  induction l as [|q l IH]; simpl; [reflexivity|].
  destruct (Rltb (fst p) (fst q)); [|reflexivity].
  rewrite IH. apply perm_swap.
Qed.

Lemma sort_desc_perm l : Permutation (sort_desc l) l.
Proof.
  induction l as [|p l IH]; simpl; [reflexivity|].
  rewrite insert_desc_perm. now constructor.
Qed.

Definition desc (p q : R * nat) : Prop := fst q <= fst p.

Lemma insert_desc_sorted p l :
  StronglySorted desc l -> StronglySorted desc (insert_desc p l).
Proof.
  induction 1 as [|q l Hs IH Hall]; simpl.
  - repeat constructor.
  - unfold Rltb. destruct (Rlt_dec (fst p) (fst q)) as [Hlt|Hge].
    + constructor; [assumption|].
      apply (Permutation_Forall (Permutation_sym (insert_desc_perm p l))).
      constructor; [unfold desc; lra|assumption].
    + constructor; [now constructor|].
      constructor; [unfold desc; lra|].
      eapply Forall_impl; [|exact Hall]. unfold desc. intros r Hr. lra.
Qed.

Lemma sort_desc_sorted l : StronglySorted desc (sort_desc l).
Proof.
  induction l as [|p l IH]; simpl; [constructor|now apply insert_desc_sorted].
Qed.

Lemma in_combine_seq (x : Vec) s v i :
  In (v, i) (combine x (seq s (length x))) <->
  (s <= i < s + length x)%nat /\ nth (i - s) x 0 = v.
Proof.
  revert s. induction x as [|a x IH]; intros s; simpl.
  - split; [tauto|]. intros [H _]. lia.
  - rewrite IH. split.
    + intros [Heq|[H1 H2]].
      * inversion Heq; subst. rewrite Nat.sub_diag. split; [lia|reflexivity].
      * split; [lia|]. replace (i - s)%nat with (S (i - S s)) by lia. exact H2.
    + intros [H1 H2]. destruct (Nat.eq_dec s i) as [->|Hne].
      * left. rewrite Nat.sub_diag in H2. now subst.
      * right. split; [lia|].
        replace (i - s)%nat with (S (i - S s)) in H2 by lia. exact H2.
Qed.

Lemma map_snd_combine_seq (x : Vec) s :
  map snd (combine x (seq s (length x))) = seq s (length x).
Proof.
  revert s. induction x as [|a x IH]; intros s; simpl; [reflexivity|].
  now rewrite IH.
Qed.

Lemma NoDup_firstn {A} k (l : list A) : NoDup l -> NoDup (firstn k l).
Proof.
  intros H. rewrite <- (firstn_skipn k l) in H.
  now apply NoDup_app_remove_r in H.
Qed.

Lemma In_firstn {A} k (l : list A) a : In a (firstn k l) -> In a l.
Proof.
  intros H. rewrite <- (firstn_skipn k l). apply in_or_app. now left.
Qed.

Lemma topk_In x k v i :
  In (v, i) (topk x k) -> (i < length x)%nat /\ v = nth i x 0.
Proof.
  intros H. unfold topk in H. apply In_firstn in H.
  apply (Permutation_in _ (sort_desc_perm _)) in H.
  apply in_combine_seq in H as [H1 H2].
  rewrite Nat.sub_0_r in H2. split; [lia|now symmetry].
Qed.

Lemma topk_NoDup x k : NoDup (map snd (topk x k)).
Proof.
  unfold topk. rewrite <- firstn_map. apply NoDup_firstn.
  apply (Permutation_NoDup (l := map snd (combine x (seq 0 (length x))))).
  - apply Permutation_map. symmetry. apply sort_desc_perm.
  - rewrite map_snd_combine_seq. apply seq_NoDup.
Qed.

Lemma topk_length x k : (k <= length x)%nat -> length (topk x k) = k.
Proof.
  intros H. unfold topk. apply firstn_length_le.
  rewrite (Permutation_length (sort_desc_perm _)), length_combine, length_seq.
  lia.
Qed.

Lemma sorted_firstn_skipn (l : list (R * nat)) k p q :
  StronglySorted desc l -> In p (firstn k l) -> In q (skipn k l) -> desc p q.
Proof.
  intros Hs. revert k. induction Hs as [|a l Hs IH Hall]; intros k Hp Hq.
  - destruct k; contradiction.
  - destruct k as [|k]; [contradiction|]. simpl in Hp, Hq.
    destruct Hp as [->|Hp]; [|now apply (IH k)].
    rewrite Forall_forall in Hall. apply Hall.
    rewrite <- (firstn_skipn k l). apply in_or_app. now right.
Qed.

(** The entries kept by [topk] dominate the entries it drops. *)
Lemma topk_largest x k v i e :
  In (v, i) (topk x k) -> (e < length x)%nat ->
  ~ In e (map snd (topk x k)) -> nth e x 0 <= v.
Proof.
  intros Hsel He Hnot.
  set (s := sort_desc (combine x (seq 0 (length x)))).
  assert (Hin : In (nth e x 0, e) s).
  { apply (Permutation_in _ (Permutation_sym (sort_desc_perm _))).
    apply in_combine_seq. rewrite Nat.sub_0_r. split; [lia|reflexivity]. }
  rewrite <- (firstn_skipn k s) in Hin. apply in_app_or in Hin as [Hin|Hin].
  - exfalso. apply Hnot. apply in_map_iff. exists (nth e x 0, e). now split.
  - apply (sorted_firstn_skipn s k (v, i) (nth e x 0, e));
      [apply sort_desc_sorted|exact Hsel|exact Hin].
Qed.

(** *** Properties of [softmax] and [sigmoid] *)

Lemma vsum_exp_pos (x : Vec) : x <> [] -> 0 < vsum (map exp x).
Proof.
  destruct x as [|a x]; [congruence|]. intros _. simpl.
  assert (0 <= vsum (map exp x)).
  { induction x as [|b x IH]; simpl; [lra|]. pose proof (exp_pos b). lra. }
  pose proof (exp_pos a). lra.
Qed.

Lemma vsum_map_div (f : R -> R) (z : R) (x : Vec) :
  vsum (map (fun v => f v / z) x) = vsum (map f x) / z.
Proof.
  induction x as [|a x IH]; simpl; [unfold Rdiv; ring|].
  rewrite IH. unfold Rdiv. ring.
Qed.

Lemma softmax_sum (x : Vec) : x <> [] -> vsum (softmax x) = 1.
Proof.
  intros Hx. unfold softmax. rewrite vsum_map_div.
  pose proof (vsum_exp_pos x Hx). field. lra.
Qed.

Lemma softmax_length (x : Vec) : length (softmax x) = length x.
Proof. unfold softmax. apply length_map. Qed.

Lemma softmax_pos (x : Vec) w : In w (softmax x) -> 0 < w.
Proof.
  unfold softmax. intros H. apply in_map_iff in H as [v [<- Hv]].
  assert (x <> []) by (intros ->; contradiction).
  pose proof (vsum_exp_pos x H). pose proof (exp_pos v).
  now apply Rdiv_lt_0_compat.
Qed.

Lemma sigmoid_range x : 0 < sigmoid x < 1.
Proof.
  unfold sigmoid. pose proof (exp_pos (- x)) as He.
  split.
  - apply Rdiv_lt_0_compat; lra.
  - apply (Rmult_lt_reg_r (1 + exp (- x))); [lra|].
    unfold Rdiv. rewrite Rmult_assoc, Rinv_l by lra. lra.
Qed.

(** *** Dispatch and combination, token by token *)

Lemma columns_equal_absent e s idx :
  ~ In e idx -> columns_equal e s idx = [].
Proof.
  revert s. induction idx as [|x idx IH]; intros s Hnot; simpl; [reflexivity|].
  destruct (Nat.eqb_spec x e) as [->|Hne].
  - exfalso. apply Hnot. now left.
  - apply IH. intros Hin. apply Hnot. now right.
Qed.

Lemma columns_equal_selects e s idx :
  selects idx e = false -> columns_equal e s idx = [].
Proof.
  intros H. apply columns_equal_absent. intros Hin.
  assert (selects idx e = true); [|congruence].
  apply existsb_exists. exists e. split; [assumption|apply Nat.eqb_refl].
Qed.

Lemma columns_equal_NoDup e s idx :
  NoDup idx -> selects idx e = true -> exists j, columns_equal e s idx = [j].
Proof.
  intros Hnd. revert s. induction Hnd as [|x idx Hx Hnd IH]; intros s Hsel.
  - discriminate.
  - simpl in *. destruct (Nat.eqb_spec x e) as [->|Hne].
    + exists s. now rewrite columns_equal_absent.
    + destruct (Nat.eqb_spec e x) as [->|_]; [congruence|].
      simpl in Hsel. now apply IH.
Qed.

Section TokenWise.

(** Routing weights and indices as functions of the token, the indices of a
    token being pairwise distinct. *)
Variable wf : Vec -> Vec.
Variable idxf : Vec -> list nat.
Hypothesis idxf_NoDup : forall h, NoDup (idxf h).

Lemma expert_mask_of_map hs e :
  expert_mask_of (map idxf hs) e = map (fun h => selects (idxf h) e) hs.
Proof. unfold expert_mask_of. now rewrite map_map. Qed.

Lemma select_rows_map {A} (l : list A) (f : A -> bool) :
  select_rows l (map f l) = filter f l.
Proof.
  induction l as [|x l IH]; simpl; [reflexivity|].
  destruct (f x); now rewrite IH.
Qed.

Lemma expert_weights_from pre hs e :
  map (fun p => nth (snd p) (nth (fst p) (pre ++ map wf hs) []) 0)
      (concat (map (fun q => map (pair (fst q)) (columns_equal e 0 (snd q)))
                   (combine (seq (length pre) (length hs)) (map idxf hs)))) =
  map (fun h => slot_weight (wf h) (idxf h) e)
      (filter (fun h => selects (idxf h) e) hs).
Proof.
  revert pre. induction hs as [|h hs IH]; intros pre; simpl; [reflexivity|].
  rewrite map_app.
  specialize (IH (pre ++ [wf h])).
  rewrite <- app_assoc, length_app, Nat.add_1_r in IH. simpl in IH.
  rewrite IH. clear IH.
  destruct (selects (idxf h) e) eqn:Hsel.
  - destruct (columns_equal_NoDup e 0 (idxf h) (idxf_NoDup h) Hsel) as [j Hj].
    unfold slot_weight. rewrite Hj. simpl.
    now rewrite nth_middle, Hj.
  - now rewrite (columns_equal_selects e 0 (idxf h) Hsel).
Qed.

Lemma expert_weights_eq hs e :
  map (fun p => nth (snd p) (nth (fst p) (map wf hs) []) 0)
      (nonzero_equal (map idxf hs) e) =
  map (fun h => slot_weight (wf h) (idxf h) e)
      (filter (fun h => selects (idxf h) e) hs).
Proof.
  unfold nonzero_equal, imap. rewrite length_map.
  exact (expert_weights_from [] hs e).
Qed.

Lemma map2_map {A B C D} (f : B -> C -> D) (a : A -> B) (b : A -> C) l :
  map2 f (map a l) (map b l) = map (fun x => f (a x) (b x)) l.
Proof. induction l as [|x l IH]; simpl; [reflexivity|now rewrite IH]. Qed.

Lemma scale_rows_map {A} (a : A -> Vec) (b : A -> R) l :
  scale_rows (map a l) (map b l) = Some (map (fun x => vscale (a x) (b x)) l).
Proof.
  unfold scale_rows. rewrite !length_map, Nat.eqb_refl. now rewrite map2_map.
Qed.

Definition scaled_token (e : nat) (h : Vec) : Vec :=
  vscale h (slot_weight (wf h) (idxf h) e).

Lemma dispatch_expert_eq hs e :
  dispatch_expert hs (map wf hs) (map idxf hs) e =
  Some (map (scaled_token e) (filter (fun h => selects (idxf h) e) hs),
        length (filter (fun h => selects (idxf h) e) hs)).
Proof.
  unfold dispatch_expert.
  rewrite expert_weights_eq, expert_mask_of_map, select_rows_map.
  rewrite <- (map_id (filter _ hs)) at 1.
  now rewrite scale_rows_map.
Qed.

Lemma traverse_total {A B} (f : A -> option B) (g : A -> B) xs :
  (forall x, f x = Some (g x)) -> traverse f xs = Some (map g xs).
Proof.
  intros H. induction xs as [|x xs IH]; simpl; [reflexivity|].
  now rewrite H, IH.
Qed.

Lemma index_add_filter {A} (acc : A -> Vec) (f : A -> bool) (g : A -> Vec) l :
  index_add (map acc l) (map f l) (map g (filter f l)) =
  Some (map (fun x => if f x then vadd (acc x) (g x) else acc x) l).
Proof.
  induction l as [|x l IH]; simpl; [reflexivity|].
  destruct (f x); simpl; now rewrite IH.
Qed.

Lemma combine_map_fst_snd {A B} (l : list (A * B)) :
  combine (map fst l) (map snd l) = l.
Proof.
  induction l as [|[a b] l IH]; simpl; [reflexivity|now rewrite IH].
Qed.

Lemma combine_seq_map {B} (g : nat -> B) s n :
  combine (seq s n) (map g (seq s n)) = map (fun e => (e, g e)) (seq s n).
Proof.
  revert s. induction n as [|n IH]; intros s; simpl; [reflexivity|].
  now rewrite IH.
Qed.

Lemma imap_map_seq {B C} (f : nat -> B -> C) (g : nat -> B) n :
  imap f (map g (seq 0 n)) = map (fun e => f e (g e)) (seq 0 n).
Proof.
  unfold imap. rewrite length_map, length_seq, combine_seq_map, map_map.
  reflexivity.
Qed.

Lemma filter_nil_map {A B} (f : A -> bool) (a b : A -> B) l :
  filter f l = [] ->
  map (fun x => if f x then a x else b x) l = map b l.
Proof.
  induction l as [|x l IH]; simpl; [reflexivity|].
  destruct (f x); [discriminate|]. intros H. now rewrite IH.
Qed.

Variable self : Qwen2MoELayer.

Definition sel (e : nat) (h : Vec) : bool := selects (idxf h) e.

Definition expert_output_of (hs : Mat) (e : nat) : Mat :=
  map (fun h => expert_row self e (scaled_token e h)) (filter (sel e) hs).

Lemma _dispatch_tokens_eq hs :
  _dispatch_tokens self hs (map wf hs) (map idxf hs) =
  let g := fun e => (map (scaled_token e) (filter (sel e) hs),
                     length (filter (sel e) hs)) in
  Some (map fst (map g (seq 0 (num_local_experts self))),
        map snd (map g (seq 0 (num_local_experts self)))).
Proof.
  unfold _dispatch_tokens.
  rewrite (traverse_total _
             (fun e => (map (scaled_token e) (filter (sel e) hs),
                        length (filter (sel e) hs)))).
  - reflexivity.
  - intros e. apply dispatch_expert_eq.
Qed.

Lemma filter_nil_existsb {A} (f : A -> bool) l :
  (length (filter f l) =? 0)%nat = negb (existsb f l).
Proof.
  induction l as [|x l IH]; simpl; [reflexivity|].
  destruct (f x); simpl; [reflexivity|exact IH].
Qed.

Lemma concat_map_optional {A} (p : A -> bool) l :
  concat (map (fun e => if p e then [e] else []) l) = filter p l.
Proof.
  induction l as [|x l IH]; simpl; [reflexivity|].
  destruct (p x); simpl; now rewrite IH.
Qed.

Lemma run_experts_eq hs :
  let g := fun e => (map (scaled_token e) (filter (sel e) hs),
                     length (filter (sel e) hs)) in
  run_experts self (map fst (map g (seq 0 (num_local_experts self))))
    (map snd (map g (seq 0 (num_local_experts self)))) =
  (map (expert_output_of hs) (seq 0 (num_local_experts self)),
   filter (fun e => existsb (sel e) hs) (seq 0 (num_local_experts self))).
Proof.
  intros g. unfold run_experts.
  rewrite combine_map_fst_snd, imap_map_seq. rewrite !map_map. f_equal.
  - apply map_ext. intros e. unfold g, expert_output_of.
    rewrite filter_nil_existsb.
    destruct (existsb (sel e) hs) eqn:E; simpl.
    + unfold Qwen2MLP_forward. now rewrite map_map.
    + assert (Hnil : filter (sel e) hs = []).
      { pose proof (filter_nil_existsb (sel e) hs) as H. rewrite E in H.
        simpl in H. apply Nat.eqb_eq in H. now apply length_zero_iff_nil. }
      now rewrite Hnil.
  - rewrite <- concat_map_optional. f_equal. apply map_ext. intros e.
    unfold g. rewrite filter_nil_existsb.
    now destruct (existsb (sel e) hs).
Qed.

Definition accumulate (es : list nat) (start : Vec) (h : Vec) : Vec :=
  fold_left
    (fun a e => if sel e h then vadd a (expert_row self e (scaled_token e h)) else a)
    es start.

Lemma combine_loop_eq hs es (acc : Vec -> Vec) :
  fold_left (combine_step (map idxf hs))
    (map (fun e => (e, expert_output_of hs e)) es) (Some (map acc hs)) =
  Some (map (fun h => accumulate es (acc h) h) hs).
Proof.
  revert acc. induction es as [|e es IH]; intros acc; [reflexivity|].
  cbn [map fold_left].
  assert (Hstep :
    combine_step (map idxf hs) (Some (map acc hs)) (e, expert_output_of hs e) =
    Some (map (fun h => if sel e h
                        then vadd (acc h) (expert_row self e (scaled_token e h))
                        else acc h) hs)).
  { unfold combine_step.
    destruct (expert_output_of hs e) as [|row rows] eqn:E.
    - unfold expert_output_of in E. apply map_eq_nil in E.
      now rewrite filter_nil_map.
    - rewrite <- E. unfold expert_output_of.
      rewrite expert_mask_of_map. apply index_add_filter. }
  rewrite Hstep. rewrite IH. reflexivity.
Qed.

Lemma repeat_map {A B} (b : B) (l : list A) :
  repeat b (length l) = map (fun _ => b) l.
Proof. induction l as [|x l IH]; simpl; [reflexivity|now rewrite IH]. Qed.

Lemma _combine_expert_outputs_eq hs :
  (1 <= num_local_experts self)%nat ->
  _combine_expert_outputs
    (map (expert_output_of hs) (seq 0 (num_local_experts self)))
    (map idxf hs) (length hs, hidden_size self) =
  Some (map (accumulate (seq 0 (num_local_experts self))
               (vzeros (hidden_size self))) hs).
Proof.
  intros Hn. unfold _combine_expert_outputs.
  destruct (map (expert_output_of hs) (seq 0 (num_local_experts self)))
    as [|o os] eqn:E.
  - apply map_eq_nil in E. destruct (num_local_experts self); [lia|discriminate].
  - rewrite <- E. cbn [fst snd].
    rewrite length_map, length_seq, combine_seq_map, repeat_map.
    apply (combine_loop_eq hs (seq 0 (num_local_experts self))
             (fun _ => vzeros (hidden_size self))).
Qed.

Lemma accumulate_filter es start h :
  accumulate es start h =
  fold_left vadd
    (map (fun e => expert_row self e (scaled_token e h))
         (filter (fun e => sel e h) es))
    start.
Proof.
  unfold accumulate. revert start.
  induction es as [|e es IH]; intros start; simpl; [reflexivity|].
  destruct (sel e h); simpl; apply IH.
Qed.

End TokenWise.

(** *** The routed part of the forward pass *)

(** The router produces one logit per expert. *)
Definition router_width (self : Qwen2MoELayer) : Prop :=
  forall h, length (router self h) = num_experts self.

Lemma _compute_router_probabilities_eq self hs :
  router_width self ->
  (num_experts_per_token self <= num_experts self)%nat ->
  _compute_router_probabilities self hs =
  Some (map (routing_weights_of self) hs, map (routing_indices_of self) hs).
Proof.
  intros Hr Hk. unfold _compute_router_probabilities.
  assert (Hall : forallb (fun logits =>
                            (num_experts_per_token self <=? length logits)%nat)
                         (map (router self) hs) = true).
  { apply forallb_forall. intros logits Hin.
    apply in_map_iff in Hin as [h [<- _]]. rewrite Hr. now apply Nat.leb_le. }
  apply Nat.leb_le in Hk. rewrite Hk, Hall. cbn [andb]. now rewrite !map_map.
Qed.

Lemma routing_indices_NoDup self h : NoDup (routing_indices_of self h).
Proof. apply topk_NoDup. Qed.

Lemma routed_forward_eq self hs :
  router_width self ->
  (num_experts_per_token self <= num_experts self)%nat ->
  (1 <= num_local_experts self)%nat ->
  routed_forward self hs =
  Some (map (routed_token self) hs, experts_with_tokens self hs).
Proof.
  intros Hr Hk Hn. unfold routed_forward.
  rewrite _compute_router_probabilities_eq by assumption.
  rewrite (_dispatch_tokens_eq _ _ (routing_indices_NoDup self)).
  cbv beta iota zeta.
  rewrite (run_experts_eq (routing_weights_of self) (routing_indices_of self)).
  cbv beta iota zeta.
  rewrite (_combine_expert_outputs_eq (routing_weights_of self)
             (routing_indices_of self)) by assumption.
  f_equal. f_equal. apply map_ext. intros h. apply accumulate_filter.
Qed.

Lemma routed_forward_topk_fails self hs :
  (num_experts self < num_experts_per_token self)%nat ->
  routed_forward self hs = None.
Proof.
  intros Hk. unfold routed_forward, _compute_router_probabilities.
  apply Nat.leb_gt in Hk. now rewrite Hk.
Qed.

(** With a single expert-parallel rank every selected expert is local. *)
Lemma selected_local_all self h :
  expert_parallel_size self = 1%nat ->
  selected_local self h =
  filter (selects (routing_indices_of self h)) (seq 0 (num_experts self)).
Proof.
  intros Hep. unfold selected_local, num_local_experts.
  now rewrite Hep, Nat.div_1_r.
Qed.

Lemma vadd_length a b n : length a = n -> length b = n -> length (vadd a b) = n.
Proof.
  revert a b. induction n as [|n IH]; intros [|x a] [|y b] Ha Hb;
    simpl in *; try discriminate; try reflexivity.
  f_equal. apply IH; lia.
Qed.

Lemma fold_vadd_length rows start n :
  length start = n -> Forall (fun row => length row = n) rows ->
  length (fold_left vadd rows start) = n.
Proof.
  intros Hs Hrows. revert start Hs.
  induction Hrows as [|row rows Hrow _ IH]; intros start Hs; simpl; [assumption|].
  apply IH. now apply vadd_length.
Qed.

Lemma routed_token_length self h :
  (forall e x, (e < num_local_experts self)%nat ->
               length (expert_row self e x) = hidden_size self) ->
  length (routed_token self h) = hidden_size self.
Proof.
  intros Hw. unfold routed_token. apply fold_vadd_length.
  - apply repeat_length.
  - apply Forall_map. apply Forall_forall. intros e He.
    apply Hw. unfold selected_local in He. apply filter_In in He as [He _].
    apply in_seq in He. lia.
Qed.

Lemma nth_vadd a b c :
  (c < length a)%nat -> (c < length b)%nat ->
  nth c (vadd a b) 0 = nth c a 0 + nth c b 0.
Proof.
  revert a b. induction c as [|c IH]; intros [|x a] [|y b] Ha Hb;
    simpl in *; try lia; [reflexivity|]. apply IH; lia.
Qed.

(** Coordinate by coordinate the fold of [vadd] is the sum of reals. *)
Lemma nth_fold_vadd rows start n c :
  length start = n -> Forall (fun row => length row = n) rows -> (c < n)%nat ->
  nth c (fold_left vadd rows start) 0 =
  nth c start 0 + vsum (map (fun row => nth c row 0) rows).
Proof.
  intros Hs Hrows Hc. revert start Hs.
  induction Hrows as [|row rows Hrow _ IH]; intros start Hs; simpl; [lra|].
  rewrite IH by now apply vadd_length.
  rewrite nth_vadd by lia. lra.
Qed.

Lemma forward_eq self hs : forward self hs = _core_forward self hs.
Proof. unfold forward. now destruct (recompute_layer self && training self). Qed.

Lemma _core_forward_no_shared self hs :
  enable_shared_expert self = false ->
  _core_forward self hs = routed_forward self hs.
Proof.
  intros Hoff. unfold _core_forward. rewrite Hoff.
  now destruct (routed_forward self hs) as [[out called]|].
Qed.

Lemma _core_forward_shared self hs :
  enable_shared_expert self = true ->
  _core_forward self hs =
  match routed_forward self hs with
  | Some (output, called) =>
      Some (map2 vadd output (map (shared_token self) hs), called)
  | None => None
  end.
Proof.
  intros Hon. unfold _core_forward. rewrite Hon.
  destruct (routed_forward self hs) as [[out called]|]; [|reflexivity].
  unfold Qwen2MLP_forward. now rewrite map2_map.
Qed.

(** *** The combined output (C1) *)

(** C1 (amended).  With the shared expert disabled, a valid top-k
    ([top_k <= num_experts]) and at least one local expert, the layer returns,
    for every token, the sum over the experts the token selected that are
    held locally (all of them when [expert_parallel_size = 1]) of the expert
    applied to the token's hidden state scaled by the routing weight: the
    weight multiplies the expert's input.  Experts the token did not select
    add nothing, and only experts with at least one token are run. *)
Theorem combined_output_sums_selected_experts (self : Qwen2MoELayer)
  (hidden_states : Mat) :
  enable_shared_expert self = false ->
  router_width self ->
  (num_experts_per_token self <= num_experts self)%nat ->
  (1 <= num_local_experts self)%nat ->
  (forall e x, (e < num_local_experts self)%nat ->
               length (expert_row self e x) = hidden_size self) ->
  forward self hidden_states =
    Some (map (routed_token self) hidden_states,
          experts_with_tokens self hidden_states) /\
  forall h c, (c < hidden_size self)%nat ->
    nth c (routed_token self h) 0 =
    vsum (map (fun e =>
                 nth c (expert_row self e
                          (vscale h (slot_weight (routing_weights_of self h)
                                                 (routing_indices_of self h) e)))
                     0)
              (selected_local self h)).
Proof.
  intros Hoff Hr Hk Hn Hw. split.
  - rewrite forward_eq, _core_forward_no_shared by assumption.
    now apply routed_forward_eq.
  - intros h c Hc. unfold routed_token.
    rewrite (nth_fold_vadd _ _ (hidden_size self)); try assumption.
    + unfold vzeros. rewrite nth_repeat, map_map. lra.
    + apply repeat_length.
    + apply Forall_map. apply Forall_forall. intros e He. apply Hw.
      unfold selected_local in He. apply filter_In in He as [He _].
      apply in_seq in He. lia.
Qed.

(** A layer small enough to follow by hand: one hidden feature, two experts,
    both selected by every token with weight 1/2 (the router is constant), and
    every expert computing [relu(x) * x]. *)
Definition relu (x : R) : R := Rmax 0 x.

Definition unit_mlp : Qwen2MLP :=
  {| gate_up_proj := fun x => [nth 0 x 0; nth 0 x 0];
     down_proj := fun y => [nth 0 y 0];
     act := relu |}.

Definition two_expert_layer : Qwen2MoELayer :=
  {| hidden_size := 1;
     num_experts := 2;
     num_experts_per_token := 2;
     expert_parallel_size := 1;
     router := fun _ => [0; 0];
     enable_shared_expert := false;
     shared_expert := unit_mlp;
     shared_expert_gate := fun _ => 0;
     experts := fun _ => unit_mlp;
     recompute_layer := false;
     training := true |}.

Lemma topk_two_zeros : topk [0; 0] 2 = [(0, 0%nat); (0, 1%nat)].
Proof.
  unfold topk, sort_desc. cbn [length seq combine fold_right insert_desc fst].
  unfold Rltb. destruct (Rlt_dec 0 0) as [H|H]; [lra|reflexivity].
Qed.

Lemma softmax_two_zeros : softmax [0; 0] = [1 / 2; 1 / 2].
Proof.
  unfold softmax, vsum. cbn [map fold_right]. rewrite exp_0.
  repeat f_equal; field.
Qed.

Lemma relu_nonneg x : 0 <= x -> relu x = x.
Proof. intros H. unfold relu. now apply Rmax_right. Qed.

Ltac route_two_experts :=
  unfold routing_weights_of, routing_indices_of;
  cbn [router num_experts_per_token two_expert_layer hidden_size];
  rewrite topk_two_zeros; cbn [map fst snd]; try rewrite softmax_two_zeros;
  unfold num_local_experts;
  cbn [num_experts expert_parallel_size two_expert_layer];
  change (2 / 1)%nat with 2%nat;
  cbn [seq filter selects existsb Nat.eqb orb map fold_left].

Ltac run_unit_mlp :=
  unfold slot_weight; cbn [columns_equal Nat.eqb nth];
  unfold expert_row, Qwen2MLP_forward_row;
  cbn [experts two_expert_layer unit_mlp gate_up_proj down_proj act vscale map
       nth length];
  change (Nat.div 2 2) with 1%nat;
  cbn [firstn skipn map map2 nth vzeros repeat vadd].

Lemma two_expert_layer_token : routed_token two_expert_layer [1] = [1 / 2].
Proof.
  unfold routed_token, selected_local. route_two_experts. run_unit_mlp.
  rewrite relu_nonneg by lra. f_equal. field.
Qed.

Lemma two_expert_layer_called :
  experts_with_tokens two_expert_layer [[1]] = [0%nat; 1%nat].
Proof. unfold experts_with_tokens. route_two_experts. reflexivity. Qed.

Lemma two_expert_layer_specified :
  weighted_sum_as_specified two_expert_layer [1] = [1].
Proof.
  unfold weighted_sum_as_specified. route_two_experts. run_unit_mlp.
  rewrite relu_nonneg by lra. f_equal. field.
Qed.

Lemma two_expert_layer_forward :
  forward two_expert_layer [[1]] = Some ([[1 / 2]], [0%nat; 1%nat]).
Proof.
  rewrite forward_eq, _core_forward_no_shared by reflexivity.
  rewrite routed_forward_eq;
    [|intros h; reflexivity|cbn; lia|unfold num_local_experts; cbn; lia].
  cbn [map]. now rewrite two_expert_layer_token, two_expert_layer_called.
Qed.

(** C1, counterexample.  One token with hidden state [[1]] selects both
    experts with weight 1/2 each.  The layer feeds each expert the scaled
    input 1/2 and adds the outputs, 1/4 + 1/4 = 1/2; the weighted sum of the
    expert outputs on the hidden state itself is 1/2 * 1 + 1/2 * 1 = 1. *)
Lemma weights_scale_expert_inputs_not_outputs :
  forward two_expert_layer [[1]] = Some ([[1 / 2]], [0%nat; 1%nat]) /\
  map (weighted_sum_as_specified two_expert_layer) [[1]] = [[1]] /\
  forall called,
    forward two_expert_layer [[1]] <>
    Some (map (weighted_sum_as_specified two_expert_layer) [[1]], called).
Proof.
  split; [apply two_expert_layer_forward|].
  split; [cbn [map]; now rewrite two_expert_layer_specified|].
  intros called. rewrite two_expert_layer_forward. cbn [map].
  rewrite two_expert_layer_specified. intros H.
  injection H as H _. lra.
Qed.

Lemma combined_output_sums_selected_experts_witness :
  forward two_expert_layer [[1]] =
  Some (map (routed_token two_expert_layer) [[1]],
        experts_with_tokens two_expert_layer [[1]]).
Proof.
  apply (combined_output_sums_selected_experts two_expert_layer [[1]]).
  - reflexivity.
  - intros h. reflexivity.
  - cbn. lia.
  - unfold num_local_experts. cbn. lia.
  - intros e x _. reflexivity.
Defined.

(** *** The router (C3) *)

Lemma topk_fst x k :
  map fst (topk x k) = map (fun i => nth i x 0) (map snd (topk x k)).
Proof.
  rewrite map_map. apply map_ext_in. intros [v i] Hin. simpl.
  now apply topk_In in Hin.
Qed.

(** C3.  For every token the router takes the top-k logits and applies
    softmax to those k values only: the k selected experts are distinct and
    carry the largest logits, their weights are the softmax of their own
    logits, non-negative and summing to 1, and an expert that was not selected
    has no slot, hence weight 0. *)
Theorem router_weights_softmax_over_topk (self : Qwen2MoELayer)
  (hidden_states : Mat) :
  (1 <= num_experts_per_token self <= num_experts self)%nat ->
  router_width self ->
  _compute_router_probabilities self hidden_states =
    Some (map (routing_weights_of self) hidden_states,
          map (routing_indices_of self) hidden_states) /\
  forall h,
    let logits := router self h in
    let w := routing_weights_of self h in
    let idx := routing_indices_of self h in
    length idx = num_experts_per_token self /\
    length w = num_experts_per_token self /\
    NoDup idx /\
    (forall e, In e idx -> (e < num_experts self)%nat) /\
    (forall e i, In i idx -> (e < num_experts self)%nat -> ~ In e idx ->
                 nth e logits 0 <= nth i logits 0) /\
    w = softmax (map (fun e => nth e logits 0) idx) /\
    (forall x, In x w -> 0 <= x) /\
    vsum w = 1 /\
    (forall e, ~ In e idx -> slot_weight w idx e = 0 /\ selects idx e = false).
Proof.
  intros [Hk1 Hk2] Hrouter. split.
  - now apply _compute_router_probabilities_eq.
  - intros h. cbv zeta.
    assert (Hlen : length (routing_indices_of self h) = num_experts_per_token self).
    { unfold routing_indices_of. rewrite length_map. apply topk_length.
      rewrite Hrouter. exact Hk2. }
    assert (Hw : routing_weights_of self h =
                 softmax (map (fun e => nth e (router self h) 0)
                              (routing_indices_of self h))).
    { unfold routing_weights_of, routing_indices_of. now rewrite topk_fst. }
    repeat split.
    + exact Hlen.
    + rewrite Hw, softmax_length, length_map. exact Hlen.
    + apply routing_indices_NoDup.
    + intros e He. unfold routing_indices_of in He.
      apply in_map_iff in He as [[v i] [Hi Hin]]. simpl in Hi. subst i.
      apply topk_In in Hin. rewrite <- (Hrouter h). tauto.
    + intros e i Hi He Hnot. unfold routing_indices_of in Hi.
      apply in_map_iff in Hi as [[v i'] [Hi Hin]]. simpl in Hi. subst i'.
      pose proof (topk_In _ _ _ _ Hin) as [_ Hv]. rewrite <- Hv.
      apply (topk_largest _ _ _ _ _ Hin); [now rewrite Hrouter|exact Hnot].
    + exact Hw.
    + intros x Hx. left. exact (softmax_pos _ _ Hx).
    + rewrite Hw. apply softmax_sum. intros Hnil.
      apply map_eq_nil in Hnil. rewrite Hnil in Hlen. simpl in Hlen. lia.
    + unfold slot_weight. now rewrite columns_equal_absent.
    + destruct (selects (routing_indices_of self h) e) eqn:E; [|reflexivity].
      exfalso. apply H. apply existsb_exists in E as [x [Hx Heq]].
      apply Nat.eqb_eq in Heq. now subst x.
Qed.

Lemma router_weights_softmax_over_topk_witness :
  _compute_router_probabilities two_expert_layer [[1]] =
  Some ([routing_weights_of two_expert_layer [1]],
        [routing_indices_of two_expert_layer [1]]) /\
  vsum (routing_weights_of two_expert_layer [1]) = 1.
Proof.
  destruct (router_weights_softmax_over_topk two_expert_layer [[1]]) as [H1 H2].
  - cbn. lia.
  - intros h. reflexivity.
  - split; [exact H1|]. apply (H2 [1]).
Defined.

(** *** Experts without tokens (C5) *)

Lemma filter_all {A} (f : A -> bool) l :
  (forall x, In x l -> f x = true) -> filter f l = l.
Proof.
  induction l as [|x l IH]; intros H; simpl; [reflexivity|].
  rewrite (H x) by now left. f_equal. apply IH. intros y Hy. apply H. now right.
Qed.

Lemma routed_token_with_expert self e mlp h :
  selects (routing_indices_of self h) e = false ->
  routed_token (with_expert self e mlp) h = routed_token self h.
Proof.
  intros Hsel. unfold routed_token. f_equal.
  apply map_ext_in. intros e' He'.
  unfold selected_local in He'. apply filter_In in He' as [_ He'].
  change (routing_indices_of (with_expert self e mlp) h)
    with (routing_indices_of self h) in He'.
  unfold expert_row. cbn [experts with_expert].
  destruct (Nat.eqb_spec e' e) as [->|_]; [congruence|reflexivity].
Qed.

Lemma routed_token_without_eq self e h :
  selects (routing_indices_of self h) e = false ->
  routed_token_without self e h = routed_token self h.
Proof.
  intros Hsel. unfold routed_token_without, routed_token.
  rewrite filter_all; [reflexivity|].
  intros e' He'. unfold selected_local in He'. apply filter_In in He' as [_ He'].
  destruct (Nat.eqb_spec e' e) as [->|_]; [congruence|reflexivity].
Qed.

Lemma routed_forward_with_expert self hs e mlp :
  router_width self ->
  (num_experts_per_token self <= num_experts self)%nat ->
  (1 <= num_local_experts self)%nat ->
  (forall h, In h hs -> selects (routing_indices_of self h) e = false) ->
  routed_forward (with_expert self e mlp) hs = routed_forward self hs.
Proof.
  intros Hr Hk Hn Hnone.
  rewrite (routed_forward_eq self) by assumption.
  rewrite (routed_forward_eq (with_expert self e mlp)) by assumption.
  f_equal. f_equal.
  apply map_ext_in. intros h Hh. apply routed_token_with_expert. now apply Hnone.
Qed.

Lemma _core_forward_some self hs :
  router_width self ->
  (num_experts_per_token self <= num_experts self)%nat ->
  (1 <= num_local_experts self)%nat ->
  exists output,
    _core_forward self hs = Some (output, experts_with_tokens self hs).
Proof.
  intros Hr Hk Hn. unfold _core_forward. rewrite routed_forward_eq by assumption.
  destruct (enable_shared_expert self); eexists; reflexivity.
Qed.

(** C5.  A local expert that no token selected is not run (it is absent from
    the experts called), the forward pass returns normally, its result does
    not depend on that expert's feed-forward, and the combined output is the
    sum with that expert left out. *)
Theorem expert_without_tokens_is_skipped (self : Qwen2MoELayer)
  (hidden_states : Mat) (e : nat) :
  router_width self ->
  (num_experts_per_token self <= num_experts self)%nat ->
  (e < num_local_experts self)%nat ->
  (forall h, In h hidden_states ->
             selects (routing_indices_of self h) e = false) ->
  (exists output called,
      forward self hidden_states = Some (output, called) /\ ~ In e called) /\
  (forall mlp,
      forward (with_expert self e mlp) hidden_states =
      forward self hidden_states) /\
  routed_forward self hidden_states =
    Some (map (routed_token_without self e) hidden_states,
          experts_with_tokens self hidden_states).
Proof.
  intros Hr Hk He Hnone.
  assert (Hn : (1 <= num_local_experts self)%nat) by lia.
  repeat split.
  - destruct (_core_forward_some self hidden_states Hr Hk Hn) as [output Hout].
    exists output, (experts_with_tokens self hidden_states).
    rewrite forward_eq. split; [exact Hout|].
    unfold experts_with_tokens. intros Hin. apply filter_In in Hin as [_ Hin].
    apply existsb_exists in Hin as [h [Hh Hsel]].
    rewrite (Hnone h Hh) in Hsel. discriminate.
  - intros mlp. rewrite !forward_eq. unfold _core_forward.
    rewrite routed_forward_with_expert by assumption. reflexivity.
  - rewrite routed_forward_eq by assumption. f_equal. f_equal.
    apply map_ext_in. intros h Hh. symmetry.
    apply routed_token_without_eq. now apply Hnone.
Qed.

(** A layer with three experts and top-2 routing towards experts 1 and 2:
    expert 0 receives no token. *)
Definition idle_expert_layer : Qwen2MoELayer :=
  {| hidden_size := 1;
     num_experts := 3;
     num_experts_per_token := 2;
     expert_parallel_size := 1;
     router := fun _ => [0; 1; 1];
     enable_shared_expert := false;
     shared_expert := unit_mlp;
     shared_expert_gate := fun _ => 0;
     experts := fun _ => unit_mlp;
     recompute_layer := false;
     training := true |}.

Lemma topk_idle : topk [0; 1; 1] 2 = [(1, 1%nat); (1, 2%nat)].
Proof.
  unfold topk, sort_desc. cbn [length seq combine fold_right insert_desc fst].
  unfold Rltb.
  destruct (Rlt_dec 1 1) as [H|_]; [lra|].
  cbn [insert_desc fst]. unfold Rltb.
  destruct (Rlt_dec 0 1) as [_|H]; [|lra].
  cbn [insert_desc fst]. unfold Rltb.
  destruct (Rlt_dec 0 1) as [_|H]; [|lra].
  reflexivity.
Qed.

Lemma expert_without_tokens_is_skipped_witness :
  exists output called,
    forward idle_expert_layer [[1]; [2]] = Some (output, called) /\
    ~ In 0%nat called.
Proof.
  apply (expert_without_tokens_is_skipped idle_expert_layer [[1]; [2]] 0).
  - intros h. reflexivity.
  - cbn. lia.
  - unfold num_local_experts. cbn. lia.
  - intros h _. unfold routing_indices_of.
    cbn [router num_experts_per_token idle_expert_layer].
    rewrite topk_idle. reflexivity.
Defined.

(** *** The shared expert (C8) *)

Lemma nth_shared_token self h c :
  nth c (shared_token self h) 0 =
  sigmoid (shared_expert_gate self h) *
  nth c (Qwen2MLP_forward_row (shared_expert self) h) 0.
Proof.
  unfold shared_token.
  set (g := sigmoid (shared_expert_gate self h)).
  replace 0 with (g * 0) at 1 by ring.
  now rewrite (map_nth (fun x => g * x)).
Qed.

(** C8.  With the shared expert enabled the layer returns the routed output
    plus, token by token, the shared expert's output times the sigmoid of the
    gate, a factor between 0 and 1; with the flag off it returns the routed
    output itself. *)
Theorem shared_expert_is_additive_and_gated (self : Qwen2MoELayer)
  (hidden_states : Mat) :
  (enable_shared_expert self = false ->
   forward self hidden_states = routed_forward self hidden_states) /\
  (enable_shared_expert self = true ->
   forward self hidden_states =
   match routed_forward self hidden_states with
   | Some (output, called) =>
       Some (map2 vadd output (map (shared_token self) hidden_states), called)
   | None => None
   end) /\
  (forall h, 0 <= sigmoid (shared_expert_gate self h) <= 1) /\
  (enable_shared_expert self = true ->
   router_width self ->
   (num_experts_per_token self <= num_experts self)%nat ->
   (1 <= num_local_experts self)%nat ->
   (forall e x, (e < num_local_experts self)%nat ->
                length (expert_row self e x) = hidden_size self) ->
   (forall x, length (Qwen2MLP_forward_row (shared_expert self) x) =
              hidden_size self) ->
   forward self hidden_states =
     Some (map (fun h => vadd (routed_token self h) (shared_token self h))
               hidden_states,
           experts_with_tokens self hidden_states) /\
   forall h c, (c < hidden_size self)%nat ->
     nth c (vadd (routed_token self h) (shared_token self h)) 0 =
     nth c (routed_token self h) 0 +
     sigmoid (shared_expert_gate self h) *
     nth c (Qwen2MLP_forward_row (shared_expert self) h) 0).
Proof.
  split; [|split; [|split]].
  - intros Hoff. rewrite forward_eq. now apply _core_forward_no_shared.
  - intros Hon. rewrite forward_eq. now apply _core_forward_shared.
  - intros h. pose proof (sigmoid_range (shared_expert_gate self h)). lra.
  - intros Hon Hr Hk Hn Hw Hs. split.
    + rewrite forward_eq, _core_forward_shared by assumption.
      rewrite routed_forward_eq by assumption. now rewrite map2_map.
    + intros h c Hc. rewrite nth_vadd.
      * now rewrite nth_shared_token.
      * rewrite routed_token_length by assumption. exact Hc.
      * unfold shared_token. rewrite length_map, Hs. exact Hc.
Qed.

Definition shared_layer : Qwen2MoELayer :=
  {| hidden_size := 1;
     num_experts := 2;
     num_experts_per_token := 2;
     expert_parallel_size := 1;
     router := fun _ => [0; 0];
     enable_shared_expert := true;
     shared_expert := unit_mlp;
     shared_expert_gate := fun _ => 0;
     experts := fun _ => unit_mlp;
     recompute_layer := false;
     training := true |}.

Lemma shared_expert_is_additive_and_gated_witness :
  forward two_expert_layer [[1]] = routed_forward two_expert_layer [[1]] /\
  forward shared_layer [[1]] =
    Some ([vadd (routed_token shared_layer [1]) (shared_token shared_layer [1])],
          experts_with_tokens shared_layer [[1]]).
Proof.
  split.
  - apply (shared_expert_is_additive_and_gated two_expert_layer [[1]]).
    reflexivity.
  - apply (shared_expert_is_additive_and_gated shared_layer [[1]]).
    + reflexivity.
    + intros h. reflexivity.
    + cbn. lia.
    + unfold num_local_experts. cbn. lia.
    + intros e x _. reflexivity.
    + intros x. reflexivity.
Defined.

End MoE.

(* ================================================================== *)
(** ** Further facts about the packed causal mask *)
(* ================================================================== *)

Module MaskFacts.

Import Attention.

(** The mask and the boundary list computed for a flattened batch. *)
Definition mask_of (position_ids : list Z) : list (list bool) :=
  fst (get_attention_mask position_ids (length position_ids)).

Definition cu_seqlens_of (position_ids : list Z) : list nat :=
  snd (get_attention_mask position_ids (length position_ids)).


Lemma mask_of_iff position_ids i j :
  mask_at (mask_of position_ids) i j = true <->
  (j <= i /\ i < length position_ids /\
   (exists t, t <= j /\ nth_error position_ids t = Some 0%Z) /\
   (forall t, j < t <= i -> nth_error position_ids t <> Some 0%Z)).
Proof. exact (mask_at_iff position_ids i j). Qed.

Lemma mask_rows_and_columns position_ids seq_length :
  let mask := fst (get_attention_mask position_ids seq_length) in
  length mask = seq_length /\
  Forall (fun row => length row = seq_length) mask.
Proof.
  cbv zeta. unfold get_attention_mask. cbn [fst].
  set (cu := where_zero position_ids ++ [seq_length]).
  destruct (mask_loop_invariant seq_length cu (length cu - 1)) as [[Hl Hr] _].
  split.
  - now rewrite length_map.
  - apply Forall_forall. intros row Hin.
    apply in_map_iff in Hin as [r [<- Hin]]. rewrite length_map.
    apply (In_nth _ _ []) in Hin as [k [Hk <-]]. apply Hr. lia.
Qed.

(** [get_attention_mask] raises exactly when a token at position 0 has an
    index beyond the requested size, which cannot happen for a size of at
    least the number of position ids; whenever it returns, the mask is square
    and of the requested size. *)
Theorem get_attention_mask_raises_or_square (position_ids : list Z)
  (seq_length : nat) :
  (get_attention_mask_checked position_ids seq_length = None <->
   exists start,
     nth_error position_ids start = Some 0%Z /\ seq_length < start) /\
  (length position_ids <= seq_length ->
   get_attention_mask_checked position_ids seq_length <> None) /\
  (forall mask cu_seqlens,
     get_attention_mask_checked position_ids seq_length =
       Some (mask, cu_seqlens) ->
     length mask = seq_length /\
     Forall (fun row => length row = seq_length) mask).
Proof.
  assert (Hnone :
    get_attention_mask_checked position_ids seq_length = None <->
    exists start,
      nth_error position_ids start = Some 0%Z /\ seq_length < start).
  { unfold get_attention_mask_checked.
    destruct (forallb (fun start => start <=? seq_length)
                (where_zero position_ids)) eqn:Hall.
    - split; [discriminate|]. intros [start [Hzero Hfar]].
      rewrite forallb_forall in Hall.
      apply where_zero_spec in Hzero. apply Hall, Nat.leb_le in Hzero. lia.
    - split; [|reflexivity]. intros _.
      assert (Hex : existsb (fun start => negb (start <=? seq_length))
                      (where_zero position_ids) = true).
      { clear - Hall. induction (where_zero position_ids) as [|x l IH];
          simpl in *; [discriminate|].
        destruct (x <=? seq_length); simpl in *; [now apply IH|reflexivity]. }
      apply existsb_exists in Hex as [start [Hin Hfar]].
      exists start. split; [now apply where_zero_spec|].
      destruct (Nat.leb_spec start seq_length); [discriminate|assumption]. }
  split; [exact Hnone|]. split.
  - intros Hlen Hraise. apply Hnone in Hraise as [start [Hzero Hfar]].
    assert (start < length position_ids)
      by (apply nth_error_Some; congruence).
    lia.
  - intros mask cu_seqlens. unfold get_attention_mask_checked.
    destruct (forallb _ _); [|discriminate].
    intros H.
    assert (Hmask : get_attention_mask position_ids seq_length =
                    (mask, cu_seqlens)) by congruence.
    pose proof (mask_rows_and_columns position_ids seq_length) as Hshape.
    cbv zeta in Hshape. rewrite Hmask in Hshape. exact Hshape.
Qed.



Lemma where_zero_from_all_zero s position_ids :
  Forall (fun p => p = 0%Z) position_ids ->
  where_zero_from s position_ids = seq s (length position_ids).
Proof.
  intros H. revert s. induction H as [|p rest Hp _ IH]; intros s; simpl.
  - reflexivity.
  - subst p. simpl. now rewrite IH.
Qed.

(** A batch made of padding only: every token is a segment of its own, the
    mask is the identity and [cu_seqlens] counts 0, 1, ..., n. *)
Theorem all_padding_mask_is_identity (position_ids : IntTensor) :
  Forall (fun p => p = (-1)%Z) (view_flat position_ids) ->
  let remapped := remap_position_ids position_ids in
  (forall i j, mask_at (mask_of remapped) i j = true <->
               i = j /\ i < length remapped) /\
  cu_seqlens_of remapped = seq 0 (S (length remapped)).
Proof.
  intros Hpad. cbv zeta.
  assert (Hzero : Forall (fun p => p = 0%Z) (remap_position_ids position_ids)).
  { rewrite remap_position_ids_map. apply Forall_map.
    eapply Forall_impl; [|exact Hpad]. intros p ->. reflexivity. }
  split.
  - intros i j. rewrite mask_of_iff. split.
    + intros [Hji [Hi [_ Hnone]]]. split; [|assumption].
      destruct (Nat.eq_dec i j) as [|Hne]; [assumption|]. exfalso.
      apply (Hnone i); [lia|].
      destruct (nth_error (remap_position_ids position_ids) i) as [p|] eqn:E.
      * rewrite Forall_forall in Hzero. f_equal. apply Hzero.
        eapply nth_error_In. exact E.
      * apply nth_error_None in E. lia.
    + intros [-> Hj]. split; [lia|]. split; [assumption|]. split.
      * exists j. split; [lia|].
        destruct (nth_error (remap_position_ids position_ids) j) as [p|] eqn:E.
        -- rewrite Forall_forall in Hzero. f_equal. apply Hzero.
           eapply nth_error_In. exact E.
        -- apply nth_error_None in E. lia.
      * intros t Ht. lia.
  - unfold cu_seqlens_of, get_attention_mask. cbn [snd]. unfold where_zero.
    rewrite where_zero_from_all_zero by assumption.
    now rewrite seq_S.
Qed.

Lemma all_padding_mask_is_identity_witness :
  cu_seqlens_of (remap_position_ids (Tensor2d [[-1; -1]; [-1; -1]]%Z)) =
  [0; 1; 2; 3; 4].
Proof.
  apply (all_padding_mask_is_identity (Tensor2d [[-1; -1]; [-1; -1]]%Z)).
  simpl. repeat constructor.
Defined.

(** Attention is causal and its spans are contiguous: a token that attends
    to token [j] attends to every token between [j] and itself, and all of
    those attend to [j]. *)
Theorem attention_spans_are_contiguous (position_ids : list Z) (i j t : nat) :
  mask_at (mask_of position_ids) i j = true ->
  j <= t <= i ->
  j <= i /\
  mask_at (mask_of position_ids) i t = true /\
  mask_at (mask_of position_ids) t j = true.
Proof.
  rewrite !mask_of_iff. intros [Hji [Hi [[z [Hz Hzero]] Hnone]]] Ht.
  split; [assumption|]. split.
  - split; [lia|]. split; [assumption|]. split.
    + exists z. split; [lia|assumption].
    + intros u Hu. apply Hnone. lia.
  - split; [lia|]. split; [lia|]. split.
    + exists z. split; [assumption|assumption].
    + intros u Hu. apply Hnone. lia.
Qed.

Lemma attention_spans_are_contiguous_witness :
  mask_at (mask_of [0; 1; 2; 0; 1]%Z) 2 1 = true /\
  mask_at (mask_of [0; 1; 2; 0; 1]%Z) 1 0 = true.
Proof.
  apply (attention_spans_are_contiguous [0; 1; 2; 0; 1]%Z 2 0 1).
  - reflexivity.
  - lia.
Defined.

(** [cu_seqlens] encodes the mask: token [i] attends to token [j] exactly
    when [j <= i] and both lie between two consecutive entries of
    [cu_seqlens]. *)
Theorem cu_seqlens_encode_the_mask (position_ids : list Z) (i j : nat) :
  let cu := cu_seqlens_of position_ids in
  mask_at (mask_of position_ids) i j = true <->
  (j <= i /\
   exists k, k + 1 < length cu /\ nth k cu 0 <= j /\ i < nth (k + 1) cu 0).
Proof.
  cbv zeta. rewrite mask_of_iff.
  unfold cu_seqlens_of, get_attention_mask. cbn [snd].
  set (cu := where_zero position_ids ++ [length position_ids]).
  split.
  - intros [Hji H]. split; [assumption|].
    apply (in_some_block_iff position_ids i j Hji) in H.
    destruct H as [k [Hk Hin]]. fold cu in Hk, Hin.
    exists k. unfold in_block in Hin.
    apply andb_prop in Hin as [H1 H2].
    apply andb_prop in H1 as [_ Hb]. apply andb_prop in H2 as [Hc _].
    apply Nat.leb_le in Hc. apply Nat.ltb_lt in Hb. repeat split; lia.
  - intros [Hji [k [Hk [Ha Hb]]]]. split; [assumption|].
    apply (in_some_block_iff position_ids i j Hji). fold cu.
    exists k. split; [lia|]. unfold in_block.
    repeat (apply andb_true_intro; split);
      try (apply Nat.leb_le; lia); apply Nat.ltb_lt; lia.
Qed.

End MaskFacts.

(* ================================================================== *)
(** ** Compute-cost and flop estimates *)
(* ================================================================== *)

Module Costs.

Local Open Scope Z_scope.

(** Integer floor division; dividing by zero raises. *)
Definition floordiv (a b : Z) : option Z :=
  if Z.eqb b 0 then None else Some (Z.div a b).

(** The attributes of the model configuration read by the estimates;
    [num_key_value_heads] may be absent. *)
Record ModelConfig := {
  num_hidden_layers : Z;
  hidden_size : Z;
  num_attention_heads : Z;
  num_key_value_heads : option Z;
  vocab_size : Z;
  intermediate_size : Z
}.

(** The dictionary returned by [get_block_compute_costs], one field per
    key. *)
Record BlockCosts := {
  cost_Qwen2DecoderLayer : Z;
  cost_TensorParallelColumnLinear : Z
}.

Definition get_block_compute_costs (model_config : ModelConfig)
  : option BlockCosts :=
  let d_ff := intermediate_size model_config in
  match floordiv (hidden_size model_config) (num_attention_heads model_config) with
  | None => None
  | Some d_qkv =>
      Some {| cost_Qwen2DecoderLayer :=
                4 * num_attention_heads model_config * d_qkv
                  * hidden_size model_config
                + 3 * d_ff * hidden_size model_config;
              cost_TensorParallelColumnLinear :=
                vocab_size model_config * hidden_size model_config |}
  end.

(** [get_flops]; the result is the pair [(model_flops, hardware_flops)]. *)
Definition get_flops (num_layers hidden_size num_heads : Z)
  (num_key_value_heads : option Z) (vocab_size seq_len ffn_hidden_size
   batch_size : Z) : option (Z * Z) :=
  let num_key_value_heads :=
    match num_key_value_heads with Some n => n | None => num_heads end in
  match floordiv hidden_size num_heads with
  | None => None
  | Some hidden_size_per_head =>
      let decoder_qkv_proj_flops_fwd :=
        2 * num_layers * batch_size * seq_len * hidden_size * num_heads
          * hidden_size_per_head
        + 2 * num_layers * batch_size * seq_len * hidden_size * 2
            * num_key_value_heads * hidden_size_per_head in
      let decoder_qk_logits_flops_fwd :=
        2 * num_layers * batch_size * num_heads * seq_len
          * hidden_size_per_head * seq_len in
      let decoder_v_logits_flops_fwd :=
        2 * num_layers * batch_size * num_heads * seq_len * seq_len
          * hidden_size_per_head in
      let decoder_attn_out_flops_fwd :=
        2 * num_layers * batch_size * num_heads * seq_len
          * hidden_size_per_head * hidden_size in
      let decoder_ffn_1_flops_fwd :=
        4 * num_layers * batch_size * seq_len * hidden_size * ffn_hidden_size in
      let decoder_ffn_2_flops_fwd :=
        2 * num_layers * batch_size * seq_len * ffn_hidden_size * hidden_size in
      let decoder_flops_fwd :=
        decoder_qkv_proj_flops_fwd + decoder_qk_logits_flops_fwd
        + decoder_v_logits_flops_fwd + decoder_attn_out_flops_fwd
        + decoder_ffn_1_flops_fwd + decoder_ffn_2_flops_fwd in
      let lm_head_flops_fwd :=
        2 * batch_size * seq_len * hidden_size * vocab_size in
      let model_flops := 3 * (decoder_flops_fwd + lm_head_flops_fwd) in
      let hardware_flops := model_flops in
      Some (model_flops, hardware_flops)
  end.

(** The call made by [Qwen2Model.get_flops_per_sec], before the division by
    time and world size: a configuration without [num_key_value_heads] falls
    back on the number of attention heads. *)
Definition model_get_flops (config : ModelConfig)
  (sequence_length global_batch_size : Z) : option (Z * Z) :=
  let num_key_value_heads :=
    match num_key_value_heads config with
    | Some n => n
    | None => num_attention_heads config
    end in
  get_flops (num_hidden_layers config) (hidden_size config)
    (num_attention_heads config) (Some num_key_value_heads)
    (vocab_size config) sequence_length (intermediate_size config)
    global_batch_size.

Lemma head_dim_bound h nh : 0 < nh -> 0 <= h -> 0 <= nh * (h / nh) <= h.
Proof.
  intros Hnh Hh. split.
  - apply Z.mul_nonneg_nonneg; [lia|]. apply Z.div_pos; lia.
  - apply Z.mul_div_le. lia.
Qed.

(** The cost of a decoder layer never exceeds [4 h^2 + 3 d_ff h] and reaches
    it when the heads divide the hidden size; with no attention head the
    estimate raises. *)
Theorem decoder_layer_cost_bound (model_config : ModelConfig) :
  let h := hidden_size model_config in
  let nh := num_attention_heads model_config in
  let d_ff := intermediate_size model_config in
  (nh = 0 -> get_block_compute_costs model_config = None) /\
  (0 < nh -> 0 <= h ->
   exists costs,
     get_block_compute_costs model_config = Some costs /\
     cost_TensorParallelColumnLinear costs = vocab_size model_config * h /\
     cost_Qwen2DecoderLayer costs <= 4 * h * h + 3 * d_ff * h /\
     (h mod nh = 0 -> cost_Qwen2DecoderLayer costs = 4 * h * h + 3 * d_ff * h)).
Proof.
  cbv zeta. unfold get_block_compute_costs, floordiv. split.
  - intros ->. reflexivity.
  - intros Hnh Hh.
    destruct (Z.eqb_spec (num_attention_heads model_config) 0) as [E|_]; [lia|].
    eexists. split; [reflexivity|]. cbn [cost_Qwen2DecoderLayer
      cost_TensorParallelColumnLinear]. split; [reflexivity|].
    pose proof (head_dim_bound _ _ Hnh Hh) as [Hlo Hhi].
    set (d := hidden_size model_config / num_attention_heads model_config) in *.
    split.
    + nia.
    + intros Hmod.
      assert (Hexact : num_attention_heads model_config * d =
                       hidden_size model_config).
      { unfold d. symmetry. apply Z.div_exact; lia. }
      replace (4 * num_attention_heads model_config * d * hidden_size model_config)
        with (4 * (num_attention_heads model_config * d)
              * hidden_size model_config) by ring.
      rewrite Hexact. ring.
Qed.

Lemma decoder_layer_cost_bound_witness :
  exists costs,
    get_block_compute_costs
      {| num_hidden_layers := 2; hidden_size := 64; num_attention_heads := 4;
         num_key_value_heads := Some 4; vocab_size := 100;
         intermediate_size := 128 |} = Some costs /\
    cost_Qwen2DecoderLayer costs = 4 * 64 * 64 + 3 * 128 * 64.
Proof.
  destruct (decoder_layer_cost_bound
              {| num_hidden_layers := 2; hidden_size := 64;
                 num_attention_heads := 4; num_key_value_heads := Some 4;
                 vocab_size := 100; intermediate_size := 128 |})
    as [_ H].
  destruct H as [costs [H1 [_ [_ H4]]]]; [cbn; lia|cbn; lia|].
  exists costs. split; [exact H1|]. apply H4. reflexivity.
Defined.

(** The flop count is proportional to the batch size, and the hardware count
    equals the model count. *)
Theorem get_flops_linear_in_batch (num_layers hidden_size num_heads : Z)
  (num_key_value_heads : option Z)
  (vocab_size seq_len ffn_hidden_size batch_size : Z) :
  num_heads <> 0 ->
  exists unit_flops,
    get_flops num_layers hidden_size num_heads num_key_value_heads vocab_size
      seq_len ffn_hidden_size 1 = Some (unit_flops, unit_flops) /\
    get_flops num_layers hidden_size num_heads num_key_value_heads vocab_size
      seq_len ffn_hidden_size batch_size =
    Some (batch_size * unit_flops, batch_size * unit_flops).
Proof.
  intros Hnh. unfold get_flops, floordiv.
  destruct (Z.eqb_spec num_heads 0) as [E|_]; [contradiction|].
  cbv zeta. eexists. split; [reflexivity|].
  f_equal. f_equal; ring.
Qed.

Lemma get_flops_linear_in_batch_witness :
  exists unit_flops,
    get_flops 2 64 4 None 100 8 128 1 = Some (unit_flops, unit_flops) /\
    get_flops 2 64 4 None 100 8 128 16 =
    Some (16 * unit_flops, 16 * unit_flops).
Proof.
  apply (get_flops_linear_in_batch 2 64 4 None 100 8 128 16). lia.
Defined.

(** With heads that divide the hidden size and as many key/value heads as
    attention heads (also the fallback when the configuration has none), the
    count is [6 B S h (L (4 h + 2 S + 3 f) + V)]. *)
Theorem model_get_flops_closed_form (config : ModelConfig)
  (sequence_length global_batch_size : Z) :
  let h := hidden_size config in
  let nh := num_attention_heads config in
  nh <> 0 -> h mod nh = 0 ->
  (num_key_value_heads config = None \/ num_key_value_heads config = Some nh) ->
  model_get_flops config sequence_length global_batch_size =
  let flops :=
    6 * global_batch_size * sequence_length * h
    * (num_hidden_layers config
       * (4 * h + 2 * sequence_length + 3 * intermediate_size config)
       + vocab_size config) in
  Some (flops, flops).
Proof.
  cbv zeta. intros Hnh Hmod Hkv.
  unfold model_get_flops, get_flops, floordiv.
  destruct (Z.eqb_spec (num_attention_heads config) 0) as [E|_]; [contradiction|].
  assert (Hexact : hidden_size config =
                   num_attention_heads config
                   * (hidden_size config / num_attention_heads config))
    by (apply Z.div_exact; assumption).
  set (d := hidden_size config / num_attention_heads config) in *.
  assert (Hkv' : match num_key_value_heads config with
                 | Some n => n
                 | None => num_attention_heads config
                 end = num_attention_heads config)
    by (destruct Hkv as [-> | ->]; reflexivity).
  rewrite Hkv'. cbv zeta.
  f_equal.
  set (nh := num_attention_heads config) in *.
  set (h := hidden_size config) in *.
  assert (Hnd : nh * d = h) by lia.
  f_equal.
  - replace (2 * num_hidden_layers config * global_batch_size * sequence_length
             * h * nh * d)
      with (2 * num_hidden_layers config * global_batch_size * sequence_length
            * h * (nh * d)) by ring.
    replace (2 * num_hidden_layers config * global_batch_size * sequence_length
             * h * 2 * nh * d)
      with (2 * num_hidden_layers config * global_batch_size * sequence_length
            * h * 2 * (nh * d)) by ring.
    replace (2 * num_hidden_layers config * global_batch_size * nh
             * sequence_length * d * sequence_length)
      with (2 * num_hidden_layers config * global_batch_size
            * sequence_length * (nh * d) * sequence_length) by ring.
    replace (2 * num_hidden_layers config * global_batch_size * nh
             * sequence_length * sequence_length * d)
      with (2 * num_hidden_layers config * global_batch_size
            * sequence_length * sequence_length * (nh * d)) by ring.
    replace (2 * num_hidden_layers config * global_batch_size * nh
             * sequence_length * d * h)
      with (2 * num_hidden_layers config * global_batch_size
            * sequence_length * (nh * d) * h) by ring.
    rewrite Hnd. ring.
  - replace (2 * num_hidden_layers config * global_batch_size * sequence_length
             * h * nh * d)
      with (2 * num_hidden_layers config * global_batch_size * sequence_length
            * h * (nh * d)) by ring.
    replace (2 * num_hidden_layers config * global_batch_size * sequence_length
             * h * 2 * nh * d)
      with (2 * num_hidden_layers config * global_batch_size * sequence_length
            * h * 2 * (nh * d)) by ring.
    replace (2 * num_hidden_layers config * global_batch_size * nh
             * sequence_length * d * sequence_length)
      with (2 * num_hidden_layers config * global_batch_size
            * sequence_length * (nh * d) * sequence_length) by ring.
    replace (2 * num_hidden_layers config * global_batch_size * nh
             * sequence_length * sequence_length * d)
      with (2 * num_hidden_layers config * global_batch_size
            * sequence_length * sequence_length * (nh * d)) by ring.
    replace (2 * num_hidden_layers config * global_batch_size * nh
             * sequence_length * d * h)
      with (2 * num_hidden_layers config * global_batch_size
            * sequence_length * (nh * d) * h) by ring.
    rewrite Hnd. ring.
Qed.

Lemma model_get_flops_closed_form_witness :
  model_get_flops
    {| num_hidden_layers := 2; hidden_size := 64; num_attention_heads := 4;
       num_key_value_heads := None; vocab_size := 100;
       intermediate_size := 128 |} 8 16 =
  Some (6 * 16 * 8 * 64 * (2 * (4 * 64 + 2 * 8 + 3 * 128) + 100),
        6 * 16 * 8 * 64 * (2 * (4 * 64 + 2 * 8 + 3 * 128) + 100)).
Proof.
  apply (model_get_flops_closed_form
           {| num_hidden_layers := 2; hidden_size := 64;
              num_attention_heads := 4; num_key_value_heads := None;
              vocab_size := 100; intermediate_size := 128 |} 8 16).
  - cbn. lia.
  - reflexivity.
  - left. reflexivity.
Defined.

End Costs.

(* ================================================================== *)
(** ** Further facts about the mixture-of-experts layer *)
(* ================================================================== *)

Module MoEFacts.

Import MoE.
Local Open Scope R_scope.

(** The output row of one token, with or without the shared expert. *)
Definition token_output (self : Qwen2MoELayer) (h : Vec) : Vec :=
  if enable_shared_expert self
  then vadd (routed_token self h) (shared_token self h)
  else routed_token self h.

Lemma forward_tokenwise self hs :
  router_width self ->
  (num_experts_per_token self <= num_experts self)%nat ->
  (1 <= num_local_experts self)%nat ->
  forward self hs =
  Some (map (token_output self) hs, experts_with_tokens self hs).
Proof.
  intros Hr Hk Hn. rewrite forward_eq. unfold token_output.
  destruct (enable_shared_expert self) eqn:E.
  - rewrite _core_forward_shared by assumption.
    rewrite routed_forward_eq by assumption. now rewrite map2_map.
  - rewrite _core_forward_no_shared by assumption.
    now apply routed_forward_eq.
Qed.

Lemma routed_forward_no_local_expert self hs :
  num_local_experts self = 0%nat -> routed_forward self hs = None.
Proof.
  intros Hn. unfold routed_forward.
  destruct (_compute_router_probabilities self hs) as [[rw ri]|]; [|reflexivity].
  unfold _dispatch_tokens. rewrite Hn. reflexivity.
Qed.

Lemma forward_none_iff_routed self hs :
  forward self hs = None <-> routed_forward self hs = None.
Proof.
  rewrite forward_eq. unfold _core_forward.
  destruct (routed_forward self hs) as [[out called]|].
  - destruct (enable_shared_expert self); split; discriminate.
  - tauto.
Qed.

Lemma forward_some_config self hs :
  forward self hs <> None ->
  (num_experts_per_token self <= num_experts self)%nat /\
  (1 <= num_local_experts self)%nat.
Proof.
  intros Hsome.
  destruct (Nat.le_gt_cases (num_experts_per_token self) (num_experts self))
    as [Hk|Hk].
  - split; [assumption|].
    destruct (num_local_experts self) eqn:Hn; [|lia].
    exfalso. apply Hsome. apply forward_none_iff_routed.
    now apply routed_forward_no_local_expert.
  - exfalso. apply Hsome. apply forward_none_iff_routed.
    now apply routed_forward_topk_fails.
Qed.



(** The output has one row per token, each [hidden_size] wide. *)
Theorem forward_preserves_shape (self : Qwen2MoELayer) (hidden_states : Mat)
  (output : Mat) (called : list nat) :
  router_width self ->
  (forall e x, (e < num_local_experts self)%nat ->
               length (expert_row self e x) = hidden_size self) ->
  (forall x, length (Qwen2MLP_forward_row (shared_expert self) x) =
             hidden_size self) ->
  forward self hidden_states = Some (output, called) ->
  length output = length hidden_states /\
  Forall (fun row => length row = hidden_size self) output.
Proof.
  intros Hr Hw Hs Hfwd.
  assert (Hok : forward self hidden_states <> None) by congruence.
  apply forward_some_config in Hok as [Hk Hn].
  rewrite forward_tokenwise in Hfwd by assumption.
  injection Hfwd as <- _. split; [apply length_map|].
  apply Forall_map. apply Forall_forall. intros h _. unfold token_output.
  destruct (enable_shared_expert self).
  - apply vadd_length; [now apply routed_token_length|].
    unfold shared_token. now rewrite length_map.
  - now apply routed_token_length.
Qed.

Lemma forward_preserves_shape_witness :
  length [[1 / 2]] = length [[1]] /\
  Forall (fun row : Vec => length row = 1%nat) [[1 / 2]].
Proof.
  apply (forward_preserves_shape two_expert_layer [[1]] [[1 / 2]]
           [0%nat; 1%nat]).
  - intros h. reflexivity.
  - intros e x _. reflexivity.
  - intros x. reflexivity.
  - apply two_expert_layer_forward.
Defined.

Lemma experts_with_tokens_app self hs1 hs2 e :
  In e (experts_with_tokens self (hs1 ++ hs2)) <->
  In e (experts_with_tokens self hs1) \/ In e (experts_with_tokens self hs2).
Proof.
  unfold experts_with_tokens. rewrite !filter_In, existsb_app, orb_true_iff.
  tauto.
Qed.

(** Tokens do not interact: the output rows of a concatenated batch are the
    output rows of its parts, and the experts run are those run for either
    part. *)
Theorem forward_of_concatenation (self : Qwen2MoELayer) (hs1 hs2 : Mat)
  (out1 out2 : Mat) (called1 called2 : list nat) :
  router_width self ->
  forward self hs1 = Some (out1, called1) ->
  forward self hs2 = Some (out2, called2) ->
  exists called,
    forward self (hs1 ++ hs2) = Some (out1 ++ out2, called) /\
    forall e, In e called <-> In e called1 \/ In e called2.
Proof.
  intros Hr H1 H2.
  assert (Hok : forward self hs1 <> None) by congruence.
  apply forward_some_config in Hok as [Hk Hn].
  rewrite forward_tokenwise in H1, H2 |- * by assumption.
  injection H1 as <- <-. injection H2 as <- <-.
  exists (experts_with_tokens self (hs1 ++ hs2)). split.
  - now rewrite map_app.
  - intros e. apply experts_with_tokens_app.
Qed.

Lemma forward_of_concatenation_witness :
  exists called,
    forward two_expert_layer ([[1]] ++ [[1]]) =
    Some ([[1 / 2]] ++ [[1 / 2]], called) /\
    forall e, In e called <-> In e [0%nat; 1%nat] \/ In e [0%nat; 1%nat].
Proof.
  apply (forward_of_concatenation two_expert_layer [[1]] [[1]] [[1 / 2]]
           [[1 / 2]] [0%nat; 1%nat] [0%nat; 1%nat]).
  - intros h. reflexivity.
  - apply two_expert_layer_forward.
  - apply two_expert_layer_forward.
Defined.

(** *** How many tokens the experts receive *)

Lemma selects_In idx e : selects idx e = true <-> In e idx.
Proof.
  unfold selects. rewrite existsb_exists. split.
  - intros [x [Hx Heq]]. apply Nat.eqb_eq in Heq. now subst x.
  - intros H. exists e. split; [assumption|apply Nat.eqb_refl].
Qed.

Lemma routing_indices_bound self h e :
  router_width self -> In e (routing_indices_of self h) ->
  (e < num_experts self)%nat.
Proof.
  intros Hr He. unfold routing_indices_of in He.
  apply in_map_iff in He as [[v i] [Hi Hin]]. simpl in Hi. subst i.
  apply topk_In in Hin. rewrite <- (Hr h). tauto.
Qed.

Lemma routing_indices_length self h :
  router_width self ->
  (num_experts_per_token self <= num_experts self)%nat ->
  length (routing_indices_of self h) = num_experts_per_token self.
Proof.
  intros Hr Hk. unfold routing_indices_of. rewrite length_map.
  apply topk_length. now rewrite Hr.
Qed.

Lemma selected_among_all self h :
  router_width self ->
  Permutation
    (filter (selects (routing_indices_of self h)) (seq 0 (num_experts self)))
    (routing_indices_of self h).
Proof.
  intros Hr. apply NoDup_Permutation.
  - apply NoDup_filter, seq_NoDup.
  - apply routing_indices_NoDup.
  - intros e. rewrite filter_In, selects_In, in_seq. split; [tauto|].
    intros He. split; [|assumption].
    pose proof (routing_indices_bound self h e Hr He). lia.
Qed.

Lemma count_by_token {A} (f : nat -> A -> bool) (es : list nat) (l : list A) :
  list_sum (map (fun e => length (filter (f e) l)) es) =
  list_sum (map (fun x => length (filter (fun e => f e x) es)) l).
Proof.
  induction l as [|x l IH]; simpl.
  - induction es as [|e es IHe]; simpl; [reflexivity|assumption].
  - rewrite <- IH. clear IH.
    induction es as [|e es IHe]; simpl; [reflexivity|].
    destruct (f e x); simpl; rewrite IHe; lia.
Qed.

Lemma selected_per_token self hs :
  router_width self ->
  (num_experts_per_token self <= num_experts self)%nat ->
  list_sum
    (map (fun h => length (filter (fun e => sel (routing_indices_of self) e h)
                                  (seq 0 (num_experts self)))) hs) =
  (length hs * num_experts_per_token self)%nat.
Proof.
  intros Hr Hk. induction hs as [|h hs IH]; [reflexivity|].
  cbn [map length].
  match goal with
  | |- list_sum (?x :: ?l) = _ =>
      change (list_sum (x :: l)) with (x + list_sum l)%nat
  end.
  rewrite IH.
  change (filter (fun e => sel (routing_indices_of self) e h)
                 (seq 0 (num_experts self)))
    with (filter (selects (routing_indices_of self h)) (seq 0 (num_experts self))).
  rewrite (Permutation_length (selected_among_all self h Hr)).
  rewrite routing_indices_length by assumption. lia.
Qed.

(** With every expert held locally, the dispatcher hands out one row per
    token and selected expert: the counts of the experts add up to
    [tokens * top_k], and each count is the number of rows dispatched. *)
Theorem dispatch_counts_add_up (self : Qwen2MoELayer) (hidden_states : Mat)
  (routing_weights : Mat) (routing_indices : list (list nat))
  (dispatched_inputs : list Mat) (expert_counts : list nat) :
  router_width self ->
  num_local_experts self = num_experts self ->
  _compute_router_probabilities self hidden_states =
    Some (routing_weights, routing_indices) ->
  _dispatch_tokens self hidden_states routing_weights routing_indices =
    Some (dispatched_inputs, expert_counts) ->
  length expert_counts = num_experts self /\
  map (@length Vec) dispatched_inputs = expert_counts /\
  list_sum expert_counts =
    (length hidden_states * num_experts_per_token self)%nat.
Proof.
  intros Hr Hlocal Hroute Hdisp.
  assert (Hk : (num_experts_per_token self <= num_experts self)%nat).
  { unfold _compute_router_probabilities in Hroute.
    destruct (Nat.leb_spec (num_experts_per_token self) (num_experts self));
      [assumption|discriminate]. }
  rewrite _compute_router_probabilities_eq in Hroute by assumption.
  injection Hroute as <- <-.
  rewrite (_dispatch_tokens_eq _ _ (routing_indices_NoDup self)) in Hdisp.
  cbv zeta in Hdisp. injection Hdisp as <- <-.
  rewrite Hlocal. rewrite !map_map. cbn [fst snd]. repeat split.
  - now rewrite length_map, length_seq.
  - apply map_ext. intros e. apply length_map.
  - rewrite (count_by_token (sel (routing_indices_of self))).
    now apply selected_per_token.
Qed.

(** What the dispatcher returns, expert by expert: the scaled rows and their
    number. *)
Definition dispatched_of (self : Qwen2MoELayer) (hs : Mat) : list (Mat * nat) :=
  map (fun e =>
         (map (scaled_token (routing_weights_of self) (routing_indices_of self) e)
              (filter (sel (routing_indices_of self) e) hs),
          length (filter (sel (routing_indices_of self) e) hs)))
      (seq 0 (num_local_experts self)).

Lemma _dispatch_tokens_dispatched_of self hs :
  _dispatch_tokens self hs (map (routing_weights_of self) hs)
    (map (routing_indices_of self) hs) =
  Some (map fst (dispatched_of self hs), map snd (dispatched_of self hs)).
Proof.
  exact (_dispatch_tokens_eq _ _ (routing_indices_NoDup self) self hs).
Qed.

Lemma dispatch_counts_add_up_witness :
  list_sum (map snd (dispatched_of two_expert_layer [[1]; [2]; [3]])) = 6%nat.
Proof.
  apply (dispatch_counts_add_up two_expert_layer [[1]; [2]; [3]]
           (map (routing_weights_of two_expert_layer) [[1]; [2]; [3]])
           (map (routing_indices_of two_expert_layer) [[1]; [2]; [3]])
           (map fst (dispatched_of two_expert_layer [[1]; [2]; [3]]))
           (map snd (dispatched_of two_expert_layer [[1]; [2]; [3]]))).
  - intros h. reflexivity.
  - reflexivity.
  - apply _compute_router_probabilities_eq; [intros h; reflexivity|cbn; lia].
  - apply _dispatch_tokens_dispatched_of.
Defined.

(** *** Experts held by other ranks *)

Lemma filter_none {A} (f : A -> bool) l :
  (forall x, In x l -> f x = false) -> filter f l = [].
Proof.
  induction l as [|x l IH]; intros H; simpl; [reflexivity|].
  rewrite (H x) by now left. apply IH. intros y Hy. apply H. now right.
Qed.

(** The dispatcher only serves the local experts: a token whose selected
    experts all live on other ranks gets the zero row (shared expert
    disabled). *)
Theorem token_routed_to_remote_experts_gets_zero (self : Qwen2MoELayer)
  (hidden_states : Mat) :
  router_width self ->
  (num_experts_per_token self <= num_experts self)%nat ->
  (1 <= num_local_experts self)%nat ->
  enable_shared_expert self = false ->
  exists output called,
    forward self hidden_states = Some (output, called) /\
    forall t h,
      nth_error hidden_states t = Some h ->
      (forall e, In e (routing_indices_of self h) ->
                 (num_local_experts self <= e)%nat) ->
      nth_error output t = Some (vzeros (hidden_size self)).
Proof.
  intros Hr Hk Hn Hoff.
  exists (map (token_output self) hidden_states),
         (experts_with_tokens self hidden_states).
  split; [now apply forward_tokenwise|].
  intros t h Ht Hremote. rewrite nth_error_map, Ht. cbn [option_map].
  f_equal. unfold token_output. rewrite Hoff. unfold routed_token, selected_local.
  rewrite filter_none; [reflexivity|].
  intros e He. apply in_seq in He.
  destruct (selects (routing_indices_of self h) e) eqn:E; [|reflexivity].
  apply selects_In in E. apply Hremote in E. lia.
Qed.

(** Two experts split over two ranks, top-1 routing towards expert 1, which
    the rank does not hold. *)
Definition remote_expert_layer : Qwen2MoELayer :=
  {| hidden_size := 1;
     num_experts := 2;
     num_experts_per_token := 1;
     expert_parallel_size := 2;
     router := fun _ => [0; 1];
     enable_shared_expert := false;
     shared_expert := unit_mlp;
     shared_expert_gate := fun _ => 0;
     experts := fun _ => unit_mlp;
     recompute_layer := false;
     training := true |}.

Lemma topk_remote : topk [0; 1] 1 = [(1, 1%nat)].
Proof.
  unfold topk, sort_desc. cbn [length seq combine fold_right insert_desc fst].
  unfold Rltb. destruct (Rlt_dec 0 1) as [_|H]; [|lra]. reflexivity.
Qed.

Lemma token_routed_to_remote_experts_gets_zero_witness :
  exists output called,
    forward remote_expert_layer [[5]] = Some (output, called) /\
    nth_error output 0 = Some [0].
Proof.
  destruct (token_routed_to_remote_experts_gets_zero remote_expert_layer [[5]])
    as [output [called [Hfwd Hzero]]].
  - intros h. reflexivity.
  - cbn. lia.
  - unfold num_local_experts. cbn. lia.
  - reflexivity.
  - exists output, called. split; [exact Hfwd|].
    apply (Hzero 0%nat [5]); [reflexivity|].
    intros e He. unfold routing_indices_of in He.
    cbn [router num_experts_per_token remote_expert_layer] in He.
    rewrite topk_remote in He. cbn in He. destruct He as [<-|[]].
    unfold num_local_experts. cbn. lia.
Defined.

End MoEFacts.

(* ================================================================== *)
(** ** The other checkpoints of the sanity checks *)
(* ================================================================== *)

Module StepChecks.

Import SanityChecks.

(** *** [assert_fail_except_rank_with] *)

(** The exception classes a [with] block may be asked to raise; every
    exception modelled derives from [Exception]. *)
Inductive exn_class :=
| ValueErrorClass
| TypeErrorClass
| AssertionErrorClass
| RuntimeErrorClass
| ExceptionClass.

Definition type_of (e : exn) : exn_class :=
  match e with
  | ValueError _ => ValueErrorClass
  | TypeError _ => TypeErrorClass
  | AssertionError _ => AssertionErrorClass
  | RuntimeError _ => RuntimeErrorClass
  end.

Definition exn_message (e : exn) : string :=
  match e with
  | ValueError msg | TypeError msg | AssertionError msg | RuntimeError msg => msg
  end.

Definition isinstance (e : exn) (c : exn_class) : bool :=
  match c, e with
  | ExceptionClass, _ => true
  | ValueErrorClass, ValueError _ => true
  | TypeErrorClass, TypeError _ => true
  | AssertionErrorClass, AssertionError _ => true
  | RuntimeErrorClass, RuntimeError _ => true
  | _, _ => false
  end.

Definition class_repr (c : exn_class) : string :=
  "<class '" ++
  match c with
  | ValueErrorClass => "ValueError"
  | TypeErrorClass => "TypeError"
  | AssertionErrorClass => "AssertionError"
  | RuntimeErrorClass => "RuntimeError"
  | ExceptionClass => "Exception"
  end ++ "'>".

Definition newline : string := String (Ascii.ascii_of_nat 10) EmptyString.

(** The context manager around a block [body], on the process whose rank in
    [pg] is [rank]. *)
Definition assert_fail_except_rank_with (exception_class : exn_class)
  (rank_exception : nat) (rank : nat) (body : M unit) : M unit :=
  fun log =>
    match body log with
    | (inl e, log') =>
        if isinstance e exception_class then
          if rank_exception =? rank
          then (inl (AssertionError
                       ("Expected rank " ++ str_of_nat rank_exception
                        ++ " to not raise " ++ class_repr exception_class ++ ".")),
                log')
          else (inr tt, log')
        else (inl (AssertionError
                     ("Expected " ++ class_repr exception_class
                      ++ " to be raised, but got " ++ class_repr (type_of e)
                      ++ " instead:" ++ newline ++ exn_message e)),
              log')
    | (inr _, log') =>
        if negb (rank =? rank_exception)
        then (inl (AssertionError
                     ("Expected " ++ class_repr exception_class
                      ++ " to be raised, but no exception was raised.")),
              log')
        else (inr tt, log')
    end.

(** *** [after_optim_step_sanity_checks] *)

Definition leftover_message (parallel_context : ParallelContext)
  (name : string) : string :=
  "Process rank " ++ str_of_nat (world_rank parallel_context) ++ "/"
  ++ str_of_nat (world_size parallel_context) ++ ": " ++ name
  ++ " still has gradient despite having ran the optimizer".

Definition check_gradient_cleared (parallel_context : ParallelContext)
  (entry : string * NanotronParameter) : M unit :=
  let '(name, param) := entry in
  if negb (requires_grad param) then ret tt
  else
    match grad param with
    | Some _ => log_rank (leftover_message parallel_context name) ERROR
    | None => ret tt
    end.

(** [model_checks] is the model's own [after_optim_step_sanity_checks]. *)
Definition after_optim_step_sanity_checks (config : Config)
  (parallel_context : ParallelContext)
  (named_parameters : list (string * NanotronParameter))
  (model_checks : M unit) : M unit :=
  if negb (ignore_sanity_checks config)
  then
    for_each named_parameters (check_gradient_cleared parallel_context) ;;;
    model_checks
  else ret tt.

(** *** Facts *)

(** The block passes the context manager exactly on the ranks that raised
    the expected exception, the designated rank excepted, which has to run
    through; every other outcome is turned into an [AssertionError], and the
    log is the one left by the block. *)
Theorem assert_fail_except_rank_with_passes_iff (exception_class : exn_class)
  (rank_exception rank : nat) (body : M unit) (log : list LogRecord) :
  let result := assert_fail_except_rank_with exception_class rank_exception
                  rank body log in
  (fst result = inr tt <->
   (rank <> rank_exception /\
    exists e, fst (body log) = inl e /\ isinstance e exception_class = true) \/
   (rank = rank_exception /\ fst (body log) = inr tt)) /\
  (forall e, fst result = inl e -> exists msg, e = AssertionError msg) /\
  snd result = snd (body log).
Proof.
  cbv zeta. unfold assert_fail_except_rank_with.
  destruct (body log) as [[e|[]] log'] eqn:Hbody; cbn [fst snd].
  - destruct (isinstance e exception_class) eqn:Hinst.
    + destruct (Nat.eqb_spec rank_exception rank) as [Heq|Hne]; cbn [fst snd].
      * repeat split.
        -- discriminate.
        -- intros [[Hne _]|[_ H]]; [congruence|discriminate].
        -- intros e' H. injection H as <-. eexists. reflexivity.
      * repeat split.
        -- intros _. left. split; [congruence|]. exists e. now split.
        -- discriminate.
    + cbn [fst snd]. repeat split.
      * discriminate.
      * intros [[_ [e' [H1 H2]]]|[_ H]]; [|discriminate].
        injection H1 as ->. congruence.
      * intros e' H. injection H as <-. eexists. reflexivity.
  - destruct (Nat.eqb_spec rank rank_exception) as [Heq|Hne]; cbn [negb fst snd].
    + repeat split.
      * intros _. right. now split.
      * discriminate.
    + repeat split.
      * discriminate.
      * intros [[_ [e [H _]]]|[H _]]; [discriminate|contradiction].
      * intros e H. injection H as <-. eexists. reflexivity.
Qed.

(** Two ranks expected to fail with [ValueError] except rank 0: rank 1 raised
    it and passes. *)
Lemma assert_fail_except_rank_with_passes_iff_witness :
  fst (assert_fail_except_rank_with ValueErrorClass 0 1
         (raise (ValueError "boom")) []) = inr tt.
Proof.
  apply (assert_fail_except_rank_with_passes_iff ValueErrorClass 0 1
           (raise (ValueError "boom")) []).
  left. split; [lia|]. exists (ValueError "boom"). split; reflexivity.
Defined.

Definition still_has_grad (entry : string * NanotronParameter) : bool :=
  requires_grad (snd entry) &&
  match grad (snd entry) with Some _ => true | None => false end.

Lemma for_each_check_gradient_cleared pc params log :
  for_each params (check_gradient_cleared pc) log =
  (inr tt,
   log ++ map (fun entry =>
                 {| record_level := ERROR;
                    record_message := leftover_message pc (fst entry) |})
              (filter still_has_grad params)).
Proof.
  revert log. induction params as [|[name p] params IH]; intros log.
  - simpl. now rewrite app_nil_r.
  - cbn [for_each]. unfold bind.
    unfold check_gradient_cleared at 1, still_has_grad at 1. cbn [filter fst snd].
    destruct (requires_grad p); cbn [negb andb].
    + destruct (grad p) as [g|].
      * unfold log_rank. rewrite IH. cbn [map fst]. now rewrite <- app_assoc.
      * unfold ret. apply IH.
    + unfold ret. apply IH.
Qed.

(** After the optimizer step a leftover gradient never aborts: the loop logs
    one error per gradient-requiring parameter whose gradient is still set, in
    iteration order, and then runs the model's own checks. *)
Theorem after_optim_step_logs_leftover_gradients (config : Config)
  (parallel_context : ParallelContext)
  (named_parameters : list (string * NanotronParameter))
  (model_checks : M unit) (log : list LogRecord) :
  ignore_sanity_checks config = false ->
  after_optim_step_sanity_checks config parallel_context named_parameters
    model_checks log =
  model_checks
    (log ++ map (fun entry =>
                   {| record_level := ERROR;
                      record_message :=
                        leftover_message parallel_context (fst entry) |})
                (filter still_has_grad named_parameters)).
Proof.
  intros Hon. unfold after_optim_step_sanity_checks. rewrite Hon. cbn [negb].
  unfold bind. now rewrite for_each_check_gradient_cleared.
Qed.

Lemma after_optim_step_logs_leftover_gradients_witness :
  after_optim_step_sanity_checks {| ignore_sanity_checks := false |}
    {| world_rank := 0; world_size := 2 |}
    [("a", {| requires_grad := true; is_tied := false; tied_full_name := "";
              grad := Some [Finite 1] |});
     ("b", {| requires_grad := true; is_tied := false; tied_full_name := "";
              grad := None |});
     ("c", {| requires_grad := false; is_tied := false; tied_full_name := "";
              grad := Some [Finite 1] |})]
    (ret tt) [] =
  (inr tt,
   [{| record_level := ERROR;
       record_message :=
         "Process rank 0/2: a still has gradient despite having ran the optimizer"
    |}]).
Proof.
  apply (after_optim_step_logs_leftover_gradients
           {| ignore_sanity_checks := false |}
           {| world_rank := 0; world_size := 2 |}
           [("a", {| requires_grad := true; is_tied := false;
                     tied_full_name := ""; grad := Some [Finite 1] |});
            ("b", {| requires_grad := true; is_tied := false;
                     tied_full_name := ""; grad := None |});
            ("c", {| requires_grad := false; is_tied := false;
                     tied_full_name := ""; grad := Some [Finite 1] |})]
           (ret tt) []).
  reflexivity.
Defined.

(** *** Tensors seen through process groups *)

(** The groups the checks synchronise over: the data x context parallel group
    and the group of the ranks sharing a tied parameter. *)
Inductive GroupId :=
| DP_CP
| TiedGroup (group_ranks : list nat).

(** A tensor of this process together with what the ranks of a group hold
    for it: [on_group g] lists, in group-rank order, the tensors the ranks of
    [g] pass to a collective on this tensor, the tensor itself standing at
    this process's rank. *)
Record DistTensor := {
  tensor_dtype : dtype;
  on_group : GroupId -> ProcessGroup
}.

(** [dist.get_rank(group)] for this process. *)
Definition Ranks := GroupId -> nat.

Definition local_tensor (rank_in : Ranks) (t : DistTensor) : Tensor :=
  nth (rank_in DP_CP) (on_group t DP_CP) [].

(** [assert_tensor_synced_across_pg(tensor=t, pg=g, msg=msg)], with the
    default reference rank 0. *)
Definition assert_synced (rank_in : Ranks) (t : DistTensor) (g : GroupId)
  (msg : string -> string) : M unit :=
  assert_tensor_synced_across_pg (tensor_dtype t) (on_group t g) (rank_in g)
    msg 0.

(** Tolerances [atol=0, rtol=0]. *)
Definition exact : dtype := {| rtol := 0; atol := 0 |}.

Definition zeros_like (t : Tensor) : Tensor := map (fun _ => Finite 0) t.

(** [torch.testing.assert_close(t, torch.zeros_like(t), atol=0, rtol=0,
    msg=msg)] with a string for [msg]. *)
Definition assert_zero (t : Tensor) (msg : string) : M unit :=
  assert_close exact t (zeros_like t) (fun _ => msg).

(** *** Parameters, accumulator, scheduler and optimizer as the checks read
    them *)

Record ModelParameter := {
  p_requires_grad : bool;
  p_is_tied : bool;
  p_tied_full_name : string;
  p_data : DistTensor;
  p_grad : option DistTensor
}.

(** [get_grad_buffer] and the values of [fp32_grad_buffers] (their
    ["fp32_grad"] entries). *)
Record GradientAccumulatorState := {
  get_grad_buffer : string -> option DistTensor;
  fp32_grad_buffers : list (string * DistTensor)
}.

(** For each parameter group of the optimizer its ["lr"] and the entry of
    [get_last_lr()] with the same index. *)
Definition LRScheduler := list (fval * fval).

(** [optimizer.state_dict()["state"]]: for each parameter index the named
    state tensors. *)
Definition OptimState := list (nat * list (string * DistTensor)).

(** Equality of two floats: NaN equals nothing. *)
Definition float_eqb (a b : fval) : bool :=
  match a, b with
  | Finite x, Finite y => Qeq_bool x y
  | PosInf, PosInf => true
  | NegInf, NegInf => true
  | _, _ => false
  end.

(** *** [sorted(..., key=lambda x: x[0])] *)

Fixpoint insert_sorted {K V : Type} (ltb : K -> K -> bool) (x : K * V)
  (l : list (K * V)) : list (K * V) :=
  match l with
  | [] => [x]
  | y :: l' =>
      if ltb (fst y) (fst x) then y :: insert_sorted ltb x l' else x :: l
  end.

(** Stable: among equal keys the earlier element stays in front. *)
Definition sorted {K V : Type} (ltb : K -> K -> bool) (l : list (K * V))
  : list (K * V) :=
  fold_right (insert_sorted ltb) [] l.

(** The order on tuples of ranks and on the keys [(name, group_ranks)]. *)
Fixpoint ranks_ltb (a b : list nat) : bool :=
  match a, b with
  | [], _ :: _ => true
  | x :: a', y :: b' => (x <? y) || ((x =? y) && ranks_ltb a' b')
  | _, [] => false
  end.

Definition tied_id_ltb (a b : string * list nat) : bool :=
  String.ltb (fst a) (fst b)
  || (String.eqb (fst a) (fst b) && ranks_ltb (snd a) (snd b)).

(** *** [check_optim_state_in_sync] *)

Definition check_optim_state_in_sync (rank_in : Ranks)
  (optim_state_dict : OptimState) (pg : GroupId) : M unit :=
  for_each (sorted Nat.ltb optim_state_dict)
    (fun entry =>
       for_each (snd entry)
         (fun item =>
            let '(name, tensor) := item in
            if String.eqb name "step" then ret tt
            else assert_synced rank_in tensor pg
                   (fun err => (name ++ " are not synced across DP " ++ err)%string))).

(** *** [before_tbi_sanity_checks] *)

Section Checkpoints.

(** How a float is printed in a message. *)
Variable float_repr : fval -> string.

Definition check_lr (lr_scheduler : LRScheduler) : M unit :=
  match lr_scheduler with
  | [] => ret tt
  | (lr, last_lr) :: _ =>
      if float_eqb lr last_lr then ret tt
      else raise (AssertionError
                    ("Optimizer and LR scheduler are not in sync. Got "
                     ++ float_repr lr ++ " and " ++ float_repr last_lr))
  end.

Definition before_tbi_sanity_checks (config : Config) (rank_in : Ranks)
  (named_parameters : list (string * ModelParameter))
  (tied_id_to_param : list ((string * list nat) * ModelParameter))
  (grad_accumulator : option GradientAccumulatorState)
  (lr_scheduler : LRScheduler) (model_checks : M unit) : M unit :=
  if negb (ignore_sanity_checks config)
  then
    for_each (sorted String.ltb named_parameters)
      (fun entry =>
         assert_synced rank_in (p_data (snd entry)) DP_CP
           (fun err => (fst entry ++ " are not synchronized across DP_CP " ++ err)%string)) ;;;
    for_each (sorted tied_id_ltb tied_id_to_param)
      (fun entry =>
         assert_synced rank_in (p_data (snd entry))
           (TiedGroup (snd (fst entry)))
           (fun err => ("[Before train] Tied weights " ++ fst (fst entry)
                       ++ " are not synchronized. " ++ err)%string)) ;;;
    for_each named_parameters
      (fun entry =>
         match p_grad (snd entry) with
         | Some g =>
             assert_zero (local_tensor rank_in g)
               "Model half precision grads must be zeroed or None in first accumulation step."
         | None => ret tt
         end) ;;;
    (match grad_accumulator with
     | Some acc =>
         for_each (fp32_grad_buffers acc)
           (fun elt =>
              assert_zero (local_tensor rank_in (snd elt))
                "Grad accumulator buffers must be zeroed in first accumulation step.")
     | None => ret tt
     end) ;;;
    check_lr lr_scheduler ;;;
    model_checks
  else ret tt.

(** *** [before_optim_step_sanity_checks] *)

Definition grad_of (grad_accumulator : option GradientAccumulatorState)
  (name : string) (param : ModelParameter) : option DistTensor :=
  match grad_accumulator with
  | Some acc => get_grad_buffer acc name
  | None => p_grad param
  end.

(** [assert grad is not None], then the synchronisation of the gradient. *)
Definition check_grad_synced (rank_in : Ranks) (grad : option DistTensor)
  (name : string) (g : GroupId) (msg : string -> string) : M unit :=
  match grad with
  | None => raise (AssertionError ("Grad is None for " ++ name))
  | Some t => assert_synced rank_in t g msg
  end.

Definition before_optim_step_sanity_checks (config : Config) (rank_in : Ranks)
  (named_parameters : list (string * ModelParameter))
  (tied_id_to_param : list ((string * list nat) * ModelParameter))
  (grad_accumulator : option GradientAccumulatorState)
  (optim_state_dict : OptimState) (model_checks : M unit) : M unit :=
  if negb (ignore_sanity_checks config)
  then
    for_each (sorted tied_id_ltb tied_id_to_param)
      (fun entry =>
         let name := fst (fst entry) in
         let param := snd entry in
         if negb (p_requires_grad param) then ret tt
         else
           check_grad_synced rank_in (grad_of grad_accumulator name param) name
             (TiedGroup (snd (fst entry)))
             (fun err => ("[Before optimizer step] Tied weights grads for "
                         ++ name ++ " are not synchronized. " ++ err)%string)) ;;;
    for_each (sorted String.ltb named_parameters)
      (fun entry =>
         let param := snd entry in
         if negb (p_requires_grad param) then ret tt
         else
           let name :=
             if p_is_tied param then p_tied_full_name param else fst entry in
           check_grad_synced rank_in (grad_of grad_accumulator name param) name
             DP_CP
             (fun err => ("[Before optimizer step] weights grads for " ++ name
                         ++ " are not synchronized across DP_CP. " ++ err)%string)) ;;;
    for_each (sorted String.ltb named_parameters)
      (fun entry =>
         assert_synced rank_in (p_data (snd entry)) DP_CP
           (fun err => (fst entry ++ " are not synchronized across DP_CP " ++ err)%string)) ;;;
    for_each (sorted tied_id_ltb tied_id_to_param)
      (fun entry =>
         assert_synced rank_in (p_data (snd entry))
           (TiedGroup (snd (fst entry)))
           (fun err => ("[Before optimizer step] Tied weights " ++ fst (fst entry)
                       ++ " are not synchronized. " ++ err)%string)) ;;;
    check_optim_state_in_sync rank_in optim_state_dict DP_CP ;;;
    model_checks
  else ret tt.

End Checkpoints.

(** *** Checks that leave the log alone *)

Definition succeeds (c : M unit) : Prop := forall log, c log = (inr tt, log).

Definition fails (c : M unit) : Prop :=
  exists e, forall log, c log = (inl e, log).

(** A check that either passes or raises, without logging. *)
Definition silent (c : M unit) : Prop := succeeds c \/ fails c.

Lemma succeeds_fails c : succeeds c -> fails c -> False.
Proof.
  intros Hs [e Hf]. specialize (Hs []). rewrite Hf in Hs. discriminate.
Qed.

Lemma silent_ret : silent (ret tt).
Proof. left. intros log. reflexivity. Qed.

Lemma silent_raise e : silent (@raise unit e).
Proof. right. exists e. intros log. reflexivity. Qed.

Lemma silent_assert_close dt a e msg : silent (assert_close dt a e msg).
Proof.
  unfold assert_close. destruct (all_close dt a e);
    [apply silent_ret|apply silent_raise].
Qed.

Lemma silent_assert_tensor_synced dt pg rank msg reference_rank :
  silent (assert_tensor_synced_across_pg dt pg rank msg reference_rank).
Proof.
  unfold assert_tensor_synced_across_pg.
  destruct (length pg <=? reference_rank);
    [apply silent_raise|apply silent_assert_close].
Qed.

Lemma silent_bind (c k : M unit) : silent c -> silent k -> silent (c ;;; k).
Proof.
  intros [Hc|[e Hc]] Hk.
  - destruct Hk as [Hk|[e Hk]].
    + left. intros log. unfold bind. now rewrite Hc, Hk.
    + right. exists e. intros log. unfold bind. now rewrite Hc, Hk.
  - right. exists e. intros log. unfold bind. now rewrite Hc.
Qed.

Lemma succeeds_bind (c k : M unit) :
  silent c -> silent k -> (succeeds (c ;;; k) <-> succeeds c /\ succeeds k).
Proof.
  intros Hc Hk. split.
  - intros H. destruct Hc as [Hc|[e Hc]].
    + split; [assumption|]. destruct Hk as [Hk|[e Hk]]; [assumption|].
      exfalso. specialize (H []). unfold bind in H. rewrite Hc, Hk in H.
      discriminate.
    + exfalso. specialize (H []). unfold bind in H. rewrite Hc in H.
      discriminate.
  - intros [H1 H2] log. unfold bind. now rewrite H1, H2.
Qed.

Lemma silent_for_each {A} (f : A -> M unit) l :
  (forall x, In x l -> silent (f x)) -> silent (for_each l f).
Proof.
  induction l as [|x l IH]; intros H; cbn [for_each].
  - apply silent_ret.
  - apply silent_bind; [apply H; now left|].
    apply IH. intros y Hy. apply H. now right.
Qed.

Lemma succeeds_for_each {A} (f : A -> M unit) l :
  (forall x, In x l -> silent (f x)) ->
  (succeeds (for_each l f) <-> forall x, In x l -> succeeds (f x)).
Proof.
  induction l as [|x l IH]; intros H; cbn [for_each].
  - split; [intros _ y []|intros _ log; reflexivity].
  - rewrite succeeds_bind.
    + rewrite IH by (intros y Hy; apply H; now right). split.
      * intros [Hx Hl] y [<-|Hy]; [assumption|now apply Hl].
      * intros Hall. split; [apply Hall; now left|].
        intros y Hy. apply Hall. now right.
    + apply H. now left.
    + apply silent_for_each. intros y Hy. apply H. now right.
Qed.

(** A silent check in front of a continuation: the continuation runs on the
    same log when the check passes and is skipped when it raises. *)
Lemma run_after_silent (c k : M unit) log :
  silent c ->
  (succeeds c -> (c ;;; k) log = k log) /\
  (~ succeeds c -> exists e, (c ;;; k) log = (inl e, log)).
Proof.
  intros [Hc|[e Hc]]; split.
  - intros _. unfold bind. now rewrite Hc.
  - intros Hn. contradiction.
  - intros Hs. exfalso. apply (succeeds_fails c Hs). now exists e.
  - intros _. exists e. unfold bind. now rewrite Hc.
Qed.

(** *** Sorting keeps the entries *)

Lemma insert_sorted_perm {K V} (ltb : K -> K -> bool) (x : K * V) l :
  Permutation (insert_sorted ltb x l) (x :: l).
Proof.
  induction l as [|y l IH]; simpl; [reflexivity|].
  destruct (ltb (fst y) (fst x)); [|reflexivity].
  rewrite IH. apply perm_swap.
Qed.

Lemma sorted_perm {K V} (ltb : K -> K -> bool) (l : list (K * V)) :
  Permutation (sorted ltb l) l.
Proof.
  induction l as [|x l IH]; simpl; [reflexivity|].
  rewrite insert_sorted_perm. now constructor.
Qed.

Lemma In_sorted {K V} (ltb : K -> K -> bool) (l : list (K * V)) x :
  In x (sorted ltb l) <-> In x l.
Proof.
  split; apply Permutation_in;
    [apply sorted_perm|apply Permutation_sym, sorted_perm].
Qed.

(** *** What one check accepts *)

(** The tensor agrees, within the tolerance of its dtype, with the one held
    by rank 0 of the group. *)
Definition in_sync (rank_in : Ranks) (t : DistTensor) (g : GroupId) : Prop :=
  0 < length (on_group t g) /\
  all_close (tensor_dtype t) (nth (rank_in g) (on_group t g) [])
    (nth 0 (on_group t g) []) = true.

Lemma assert_synced_in_sync rank_in t g msg :
  succeeds (assert_synced rank_in t g msg) <-> in_sync rank_in t g.
Proof.
  unfold assert_synced, assert_tensor_synced_across_pg, in_sync, broadcast.
  destruct (Nat.leb_spec (length (on_group t g)) 0) as [Hlen|Hlen].
  - split.
    + intros H. specialize (H []). discriminate.
    + intros [H _]. lia.
  - assert (Href :
      (if rank_in g =? 0
       then if rank_in g =? 0
            then nth (rank_in g) (on_group t g) []
            else empty_like (nth (rank_in g) (on_group t g) [])
       else nth 0 (on_group t g)
              (if rank_in g =? 0
               then nth (rank_in g) (on_group t g) []
               else empty_like (nth (rank_in g) (on_group t g) []))) =
      nth 0 (on_group t g) []).
    { destruct (Nat.eqb_spec (rank_in g) 0) as [->|_]; [reflexivity|].
      now apply nth_indep. }
    rewrite Href. unfold assert_close.
    destruct (all_close (tensor_dtype t) _ _).
    + split; [intros _; now split|intros _ log; reflexivity].
    + split.
      * intros H. specialize (H []). discriminate.
      * intros [_ H]. discriminate.
Qed.

Definition all_zero (t : Tensor) : Prop :=
  Forall (fun x => exists q, x = Finite q /\ (q == 0)%Q) t.

Lemma isclose_exact_zero x :
  isclose exact x (Finite 0) = true <-> exists q, x = Finite q /\ (q == 0)%Q.
Proof.
  destruct x as [q| | |]; unfold isclose.
  - set (tolerance := (atol exact + rtol exact * Qabs 0)%Q).
    assert (Htol : (tolerance == 0)%Q) by reflexivity.
    rewrite Qle_bool_iff, Qabs_diff_Qle_condition. split.
    + intros [H1 H2]. exists q. split; [reflexivity|]. Lqa.lra.
    + intros [q' [Hq Hz]]. injection Hq as <-. Lqa.lra.
  - split; [discriminate|]. intros [q [H _]]. discriminate.
  - split; [discriminate|]. intros [q [H _]]. discriminate.
  - split; [discriminate|]. intros [q [H _]]. discriminate.
Qed.

Lemma all_close_exact_zero t :
  all_close exact t (zeros_like t) = true <-> all_zero t.
Proof.
  unfold all_zero. induction t as [|x t IH]; simpl.
  - split; [constructor|reflexivity].
  - rewrite andb_true_iff, IH, isclose_exact_zero. split.
    + intros [H1 H2]. now constructor.
    + intros H. inversion H; subst. now split.
Qed.

Lemma assert_zero_all_zero t msg :
  succeeds (assert_zero t msg) <-> all_zero t.
Proof.
  rewrite <- all_close_exact_zero. unfold assert_zero, assert_close.
  destruct (all_close exact t (zeros_like t)).
  - split; [reflexivity|intros _ log; reflexivity].
  - split; [|discriminate]. intros H. specialize (H []). discriminate.
Qed.

(** *** The synchronisation check on the other ranks *)

Lemma nth_of_constant {A} (t d : A) pg rank :
  Forall (eq t) pg -> rank < length pg -> nth rank pg d = t.
Proof.
  intros Hall Hlt. rewrite Forall_forall in Hall. symmetry. apply Hall.
  now apply nth_In.
Qed.

(** When every rank of the group holds the same tensor and it has no NaN,
    the check passes on every rank, whichever rank is the reference. *)
Theorem identical_tensors_pass_on_every_rank (dt : dtype) (pg : ProcessGroup)
  (t : Tensor) (rank reference_rank : nat) (msg : string -> string)
  (log : list LogRecord) :
  (0 <= rtol dt)%Q -> (0 <= atol dt)%Q ->
  no_nan t ->
  Forall (eq t) pg ->
  rank < length pg -> reference_rank < length pg ->
  assert_tensor_synced_across_pg dt pg rank msg reference_rank log =
  (inr tt, log).
Proof.
  intros Hr Ha Hnan Hall Hrank Href.
  unfold assert_tensor_synced_across_pg, broadcast.
  destruct (Nat.leb_spec (length pg) reference_rank); [lia|].
  rewrite (nth_of_constant t [] pg rank Hall Hrank).
  assert (Hreference :
    (if rank =? reference_rank
     then if rank =? reference_rank then t else empty_like t
     else nth reference_rank pg
            (if rank =? reference_rank then t else empty_like t)) = t).
  { destruct (rank =? reference_rank); [reflexivity|].
    now apply nth_of_constant. }
  rewrite Hreference. unfold assert_close.
  now rewrite all_close_refl.
Qed.

Lemma identical_tensors_pass_on_every_rank_witness :
  assert_tensor_synced_across_pg float32
    [[Finite 1; PosInf]; [Finite 1; PosInf]; [Finite 1; PosInf]] 2
    (fun err => err) 0 [] = (inr tt, []).
Proof.
  apply (identical_tensors_pass_on_every_rank float32
           [[Finite 1; PosInf]; [Finite 1; PosInf]; [Finite 1; PosInf]]
           [Finite 1; PosInf] 2 0 (fun err => err) []).
  - discriminate.
  - discriminate.
  - repeat constructor.
  - repeat constructor.
  - simpl. lia.
  - simpl. lia.
Defined.




(** *** Running a list of silent checks *)

Definition then_run (checks : list (M unit)) (k : M unit) : M unit :=
  fold_right (fun c rest => c ;;; rest) k checks.

Lemma then_run_all_succeed checks k log :
  (forall c, In c checks -> succeeds c) -> then_run checks k log = k log.
Proof.
  induction checks as [|c checks IH]; intros H; simpl; [reflexivity|].
  unfold bind. rewrite (H c) by now left.
  apply IH. intros c' Hc'. apply H. now right.
Qed.

Lemma then_run_some_fails checks k log :
  Forall silent checks ->
  ~ (forall c, In c checks -> succeeds c) ->
  exists e, then_run checks k log = (inl e, log).
Proof.
  induction 1 as [|c checks Hc _ IH]; intros Hn.
  - exfalso. apply Hn. intros c [].
  - simpl. destruct Hc as [Hs|[e Hf]].
    + unfold bind. rewrite Hs. apply IH. intros Hall. apply Hn.
      intros c' [<-|Hc']; [assumption|now apply Hall].
    + exists e. unfold bind. now rewrite Hf.
Qed.

Lemma silent_run (c : M unit) log :
  silent c -> (c log = (inr tt, log) <-> succeeds c) /\ snd (c log) = log.
Proof.
  intros [Hs|[e Hf]].
  - split; [split; [intros _; assumption|intros _; apply Hs]|now rewrite Hs].
  - split; [|now rewrite Hf]. split.
    + rewrite Hf. discriminate.
    + intros Hs. exfalso. apply (succeeds_fails c Hs). now exists e.
Qed.

(** *** [check_optim_state_in_sync] *)

Definition check_state_item (rank_in : Ranks) (pg : GroupId)
  (item : string * DistTensor) : M unit :=
  let '(name, tensor) := item in
  if String.eqb name "step" then ret tt
  else assert_synced rank_in tensor pg
         (fun err => (name ++ " are not synced across DP " ++ err)%string).

Lemma silent_check_state_item rank_in pg item :
  silent (check_state_item rank_in pg item).
Proof.
  destruct item as [name t]. unfold check_state_item.
  destruct (String.eqb name "step");
    [apply silent_ret|apply silent_assert_tensor_synced].
Qed.

Lemma succeeds_check_state_item rank_in pg name t :
  succeeds (check_state_item rank_in pg (name, t)) <->
  (name <> "step" -> in_sync rank_in t pg).
Proof.
  unfold check_state_item.
  destruct (String.eqb_spec name "step") as [->|Hne].
  - split; [intros _ H; congruence|intros _ log; reflexivity].
  - rewrite assert_synced_in_sync. tauto.
Qed.

Definition optim_state_in_sync (rank_in : Ranks) (state : OptimState)
  (pg : GroupId) : Prop :=
  forall param_id param_state name t,
    In (param_id, param_state) state -> In (name, t) param_state ->
    name <> "step" -> in_sync rank_in t pg.

Lemma check_optim_state_in_sync_unfold rank_in state pg :
  check_optim_state_in_sync rank_in state pg =
  for_each (sorted Nat.ltb state)
    (fun entry => for_each (snd entry) (check_state_item rank_in pg)).
Proof. reflexivity. Qed.

Lemma silent_check_optim_state rank_in state pg :
  silent (check_optim_state_in_sync rank_in state pg).
Proof.
  rewrite check_optim_state_in_sync_unfold.
  apply silent_for_each. intros entry _.
  apply silent_for_each. intros item _. apply silent_check_state_item.
Qed.

Lemma succeeds_check_optim_state rank_in state pg :
  succeeds (check_optim_state_in_sync rank_in state pg) <->
  optim_state_in_sync rank_in state pg.
Proof.
  rewrite check_optim_state_in_sync_unfold.
  rewrite succeeds_for_each
    by (intros entry _; apply silent_for_each; intros item _;
        apply silent_check_state_item).
  unfold optim_state_in_sync. split.
  - intros H k st name t Hk Hit.
    apply succeeds_check_state_item.
    assert (Hst : succeeds (for_each (snd (k, st)) (check_state_item rank_in pg)))
      by (apply H; now apply In_sorted).
    rewrite succeeds_for_each in Hst
      by (intros item _; apply silent_check_state_item).
    now apply Hst.
  - intros H [k st] Hin. apply In_sorted in Hin. cbn [snd].
    apply succeeds_for_each; [intros item _; apply silent_check_state_item|].
    intros [name t] Hit. apply succeeds_check_state_item. now apply (H k st).
Qed.

(** The optimizer-state check passes exactly when every state tensor other
    than the ["step"] counters agrees with rank 0 of the group; the counters
    are never compared, and the log is left alone. *)
Theorem check_optim_state_in_sync_passes_iff (rank_in : Ranks)
  (optim_state_dict : OptimState) (pg : GroupId) (log : list LogRecord) :
  (check_optim_state_in_sync rank_in optim_state_dict pg log = (inr tt, log) <->
   forall param_id param_state name t,
     In (param_id, param_state) optim_state_dict ->
     In (name, t) param_state ->
     name <> "step" -> in_sync rank_in t pg) /\
  snd (check_optim_state_in_sync rank_in optim_state_dict pg log) = log.
Proof.
  destruct (silent_run (check_optim_state_in_sync rank_in optim_state_dict pg)
              log (silent_check_optim_state rank_in optim_state_dict pg))
    as [Hiff Hlog].
  split; [|exact Hlog].
  rewrite Hiff. apply succeeds_check_optim_state.
Qed.

(** *** [before_tbi_sanity_checks] as a list of checks *)

Section CheckpointFacts.

Variable float_repr : fval -> string.
Variable rank_in : Ranks.
Variable named_parameters : list (string * ModelParameter).
Variable tied_id_to_param : list ((string * list nat) * ModelParameter).
Variable grad_accumulator : option GradientAccumulatorState.

Definition params_synced_check (label : string -> string -> string) : M unit :=
  for_each (sorted String.ltb named_parameters)
    (fun entry =>
       assert_synced rank_in (p_data (snd entry)) DP_CP (label (fst entry))).

Definition tied_synced_check (label : string -> string -> string) : M unit :=
  for_each (sorted tied_id_ltb tied_id_to_param)
    (fun entry =>
       assert_synced rank_in (p_data (snd entry)) (TiedGroup (snd (fst entry)))
         (label (fst (fst entry)))).

Definition grads_zero_check : M unit :=
  for_each named_parameters
    (fun entry =>
       match p_grad (snd entry) with
       | Some g =>
           assert_zero (local_tensor rank_in g)
             "Model half precision grads must be zeroed or None in first accumulation step."
       | None => ret tt
       end).

Definition buffers_zero_check : M unit :=
  match grad_accumulator with
  | Some acc =>
      for_each (fp32_grad_buffers acc)
        (fun elt =>
           assert_zero (local_tensor rank_in (snd elt))
             "Grad accumulator buffers must be zeroed in first accumulation step.")
  | None => ret tt
  end.

Definition params_synced : Prop :=
  forall name p, In (name, p) named_parameters ->
    in_sync rank_in (p_data p) DP_CP.

Definition tied_synced : Prop :=
  forall name group_ranks p,
    In ((name, group_ranks), p) tied_id_to_param ->
    in_sync rank_in (p_data p) (TiedGroup group_ranks).

Definition grads_zeroed : Prop :=
  forall name p g, In (name, p) named_parameters -> p_grad p = Some g ->
    all_zero (local_tensor rank_in g).

Definition buffers_zeroed : Prop :=
  forall acc name b, grad_accumulator = Some acc ->
    In (name, b) (fp32_grad_buffers acc) ->
    all_zero (local_tensor rank_in b).

(** Only the first parameter group is compared with the scheduler. *)
Definition lr_in_sync (lr_scheduler : LRScheduler) : Prop :=
  match lr_scheduler with
  | [] => True
  | (lr, last_lr) :: _ => float_eqb lr last_lr = true
  end.

Lemma silent_params_synced_check label : silent (params_synced_check label).
Proof.
  apply silent_for_each. intros entry _. apply silent_assert_tensor_synced.
Qed.

Lemma succeeds_params_synced_check label :
  succeeds (params_synced_check label) <-> params_synced.
Proof.
  unfold params_synced_check, params_synced.
  rewrite succeeds_for_each
    by (intros entry _; apply silent_assert_tensor_synced).
  split.
  - intros H name p Hin. apply (assert_synced_in_sync _ _ _ (label name)).
    apply (H (name, p)). now apply In_sorted.
  - intros H [name p] Hin. apply assert_synced_in_sync. apply (H name).
    now apply In_sorted in Hin.
Qed.

Lemma silent_tied_synced_check label : silent (tied_synced_check label).
Proof.
  apply silent_for_each. intros entry _. apply silent_assert_tensor_synced.
Qed.

Lemma succeeds_tied_synced_check label :
  succeeds (tied_synced_check label) <-> tied_synced.
Proof.
  unfold tied_synced_check, tied_synced.
  rewrite succeeds_for_each
    by (intros entry _; apply silent_assert_tensor_synced).
  split.
  - intros H name gr p Hin. apply (assert_synced_in_sync _ _ _ (label name)).
    apply (H ((name, gr), p)). now apply In_sorted.
  - intros H [[name gr] p] Hin. apply assert_synced_in_sync. apply (H name).
    now apply In_sorted in Hin.
Qed.

Lemma silent_grads_zero_check : silent grads_zero_check.
Proof.
  apply silent_for_each. intros entry _.
  destruct (p_grad (snd entry)); [apply silent_assert_close|apply silent_ret].
Qed.

Lemma succeeds_grads_zero_check : succeeds grads_zero_check <-> grads_zeroed.
Proof.
  unfold grads_zero_check, grads_zeroed.
  rewrite succeeds_for_each
    by (intros entry _; destruct (p_grad (snd entry));
        [apply silent_assert_close|apply silent_ret]).
  split.
  - intros H name p g Hin Hg. specialize (H (name, p) Hin). cbn [snd] in H.
    rewrite Hg in H. now apply assert_zero_all_zero in H.
  - intros H [name p] Hin. cbn [snd].
    destruct (p_grad p) as [g|] eqn:Hg; [|intros log; reflexivity].
    apply assert_zero_all_zero. now apply (H name p).
Qed.

Lemma silent_buffers_zero_check : silent buffers_zero_check.
Proof.
  unfold buffers_zero_check. destruct grad_accumulator as [acc|].
  - apply silent_for_each. intros elt _. apply silent_assert_close.
  - apply silent_ret.
Qed.

Lemma succeeds_buffers_zero_check :
  succeeds buffers_zero_check <-> buffers_zeroed.
Proof.
  unfold buffers_zero_check, buffers_zeroed.
  destruct grad_accumulator as [acc|].
  - rewrite succeeds_for_each by (intros elt _; apply silent_assert_close).
    split.
    + intros H acc' name b Hacc Hin. injection Hacc as <-.
      specialize (H (name, b) Hin). now apply assert_zero_all_zero in H.
    + intros H [name b] Hin. apply assert_zero_all_zero.
      now apply (H acc name b).
  - split; [intros _ acc name b Hacc; discriminate|intros _ log; reflexivity].
Qed.

Lemma silent_check_lr lr_scheduler : silent (check_lr float_repr lr_scheduler).
Proof.
  destruct lr_scheduler as [|[lr last_lr] rest]; simpl; [apply silent_ret|].
  destruct (float_eqb lr last_lr); [apply silent_ret|apply silent_raise].
Qed.

Lemma succeeds_check_lr lr_scheduler :
  succeeds (check_lr float_repr lr_scheduler) <-> lr_in_sync lr_scheduler.
Proof.
  destruct lr_scheduler as [|[lr last_lr] rest]; simpl.
  - split; [intros _; exact I|intros _ log; reflexivity].
  - destruct (float_eqb lr last_lr).
    + split; [reflexivity|intros _ log; reflexivity].
    + split; [|discriminate]. intros H. specialize (H []). discriminate.
Qed.

Definition before_tbi_label (name err : string) : string :=
  name ++ " are not synchronized across DP_CP " ++ err.

Definition before_tbi_tied_label (name err : string) : string :=
  "[Before train] Tied weights " ++ name ++ " are not synchronized. " ++ err.

Definition before_tbi_checks (lr_scheduler : LRScheduler) : list (M unit) :=
  [params_synced_check before_tbi_label;
   tied_synced_check before_tbi_tied_label;
   grads_zero_check;
   buffers_zero_check;
   check_lr float_repr lr_scheduler].

Lemma before_tbi_as_checks config lr_scheduler model_checks :
  before_tbi_sanity_checks float_repr config rank_in named_parameters
    tied_id_to_param grad_accumulator lr_scheduler model_checks =
  if negb (ignore_sanity_checks config)
  then then_run (before_tbi_checks lr_scheduler) model_checks
  else ret tt.
Proof. reflexivity. Qed.

(** What the first accumulation step requires of the training state. *)
Definition ready_for_first_step (lr_scheduler : LRScheduler) : Prop :=
  params_synced /\ tied_synced /\ grads_zeroed /\ buffers_zeroed /\
  lr_in_sync lr_scheduler.

Lemma silent_before_tbi_checks lr_scheduler :
  Forall silent (before_tbi_checks lr_scheduler).
Proof.
  unfold before_tbi_checks. repeat apply Forall_cons; try apply Forall_nil.
  - apply silent_params_synced_check.
  - apply silent_tied_synced_check.
  - apply silent_grads_zero_check.
  - apply silent_buffers_zero_check.
  - apply silent_check_lr.
Qed.

Lemma succeed_before_tbi_checks lr_scheduler :
  (forall c, In c (before_tbi_checks lr_scheduler) -> succeeds c) <->
  ready_for_first_step lr_scheduler.
Proof.
  unfold ready_for_first_step, before_tbi_checks.
  rewrite <- (succeeds_params_synced_check before_tbi_label).
  rewrite <- (succeeds_tied_synced_check before_tbi_tied_label).
  rewrite <- succeeds_grads_zero_check, <- succeeds_buffers_zero_check.
  rewrite <- succeeds_check_lr.
  split.
  - intros H. repeat split; apply H; simpl; auto 10.
  - intros (H1 & H2 & H3 & H4 & H5) c Hc. simpl in Hc.
    destruct Hc as [<-|[<-|[<-|[<-|[<-|[]]]]]]; assumption.
Qed.

(** *** [before_optim_step_sanity_checks] as a list of checks *)

(** The name under which the gradient of a named parameter is looked up. *)
Definition grad_name (name : string) (param : ModelParameter) : string :=
  if p_is_tied param then p_tied_full_name param else name.

Definition tied_grads_check : M unit :=
  for_each (sorted tied_id_ltb tied_id_to_param)
    (fun entry =>
       let name := fst (fst entry) in
       let param := snd entry in
       if negb (p_requires_grad param) then ret tt
       else
         check_grad_synced rank_in (grad_of grad_accumulator name param) name
           (TiedGroup (snd (fst entry)))
           (fun err => ("[Before optimizer step] Tied weights grads for "
                       ++ name ++ " are not synchronized. " ++ err)%string)).

Definition grads_check : M unit :=
  for_each (sorted String.ltb named_parameters)
    (fun entry =>
       let param := snd entry in
       if negb (p_requires_grad param) then ret tt
       else
         let name := grad_name (fst entry) param in
         check_grad_synced rank_in (grad_of grad_accumulator name param) name
           DP_CP
           (fun err => ("[Before optimizer step] weights grads for " ++ name
                       ++ " are not synchronized across DP_CP. " ++ err)%string)).

Definition tied_grads_synced : Prop :=
  forall name group_ranks p,
    In ((name, group_ranks), p) tied_id_to_param ->
    p_requires_grad p = true ->
    exists g, grad_of grad_accumulator name p = Some g /\
              in_sync rank_in g (TiedGroup group_ranks).

Definition grads_synced : Prop :=
  forall name p,
    In (name, p) named_parameters ->
    p_requires_grad p = true ->
    exists g, grad_of grad_accumulator (grad_name name p) p = Some g /\
              in_sync rank_in g DP_CP.

Lemma silent_check_grad_synced grad name g msg :
  silent (check_grad_synced rank_in grad name g msg).
Proof.
  destruct grad; [apply silent_assert_tensor_synced|apply silent_raise].
Qed.

Lemma succeeds_check_grad_synced grad name g msg :
  succeeds (check_grad_synced rank_in grad name g msg) <->
  exists t, grad = Some t /\ in_sync rank_in t g.
Proof.
  destruct grad as [t|]; simpl.
  - rewrite assert_synced_in_sync. split.
    + intros H. now exists t.
    + intros [t' [Ht H]]. now injection Ht as <-.
  - split.
    + intros H. specialize (H []). discriminate.
    + intros [t [Ht _]]. discriminate.
Qed.

Lemma silent_tied_grads_check : silent tied_grads_check.
Proof.
  apply silent_for_each. intros entry _. cbv zeta.
  destruct (negb (p_requires_grad (snd entry)));
    [apply silent_ret|apply silent_check_grad_synced].
Qed.

Lemma succeeds_tied_grads_check : succeeds tied_grads_check <-> tied_grads_synced.
Proof.
  unfold tied_grads_check, tied_grads_synced.
  rewrite succeeds_for_each
    by (intros entry _; cbv zeta;
        destruct (negb (p_requires_grad (snd entry)));
        [apply silent_ret|apply silent_check_grad_synced]).
  split.
  - intros H name gr p Hin Hreq.
    assert (Hin' : In ((name, gr), p) (sorted tied_id_ltb tied_id_to_param))
      by now apply In_sorted.
    specialize (H _ Hin'). cbn [fst snd] in H. rewrite Hreq in H. cbn [negb] in H.
    now apply succeeds_check_grad_synced in H.
  - intros H [[name gr] p] Hin. apply In_sorted in Hin. cbn [fst snd].
    destruct (p_requires_grad p) eqn:Hreq; cbn [negb];
      [|intros log; reflexivity].
    apply succeeds_check_grad_synced. now apply H.
Qed.

Lemma silent_grads_check : silent grads_check.
Proof.
  apply silent_for_each. intros entry _. cbv zeta.
  destruct (negb (p_requires_grad (snd entry)));
    [apply silent_ret|apply silent_check_grad_synced].
Qed.

Lemma succeeds_grads_check : succeeds grads_check <-> grads_synced.
Proof.
  unfold grads_check, grads_synced.
  rewrite succeeds_for_each
    by (intros entry _; cbv zeta;
        destruct (negb (p_requires_grad (snd entry)));
        [apply silent_ret|apply silent_check_grad_synced]).
  split.
  - intros H name p Hin Hreq.
    assert (Hin' : In (name, p) (sorted String.ltb named_parameters))
      by now apply In_sorted.
    specialize (H _ Hin'). cbn [fst snd] in H. rewrite Hreq in H. cbn [negb] in H.
    now apply succeeds_check_grad_synced in H.
  - intros H [name p] Hin. apply In_sorted in Hin. cbn [fst snd].
    destruct (p_requires_grad p) eqn:Hreq; cbn [negb];
      [|intros log; reflexivity].
    apply succeeds_check_grad_synced. now apply H.
Qed.

Definition before_optim_tied_label (name err : string) : string :=
  "[Before optimizer step] Tied weights " ++ name
  ++ " are not synchronized. " ++ err.

Definition before_optim_step_checks (optim_state_dict : OptimState)
  : list (M unit) :=
  [tied_grads_check;
   grads_check;
   params_synced_check before_tbi_label;
   tied_synced_check before_optim_tied_label;
   check_optim_state_in_sync rank_in optim_state_dict DP_CP].

Lemma before_optim_step_as_checks config optim_state_dict model_checks :
  before_optim_step_sanity_checks config rank_in named_parameters
    tied_id_to_param grad_accumulator optim_state_dict model_checks =
  if negb (ignore_sanity_checks config)
  then then_run (before_optim_step_checks optim_state_dict) model_checks
  else ret tt.
Proof. reflexivity. Qed.

(** What the optimizer step requires of the training state. *)
Definition ready_for_optim_step (optim_state_dict : OptimState) : Prop :=
  tied_grads_synced /\ grads_synced /\ params_synced /\ tied_synced /\
  optim_state_in_sync rank_in optim_state_dict DP_CP.

Lemma silent_before_optim_step_checks optim_state_dict :
  Forall silent (before_optim_step_checks optim_state_dict).
Proof.
  unfold before_optim_step_checks.
  repeat apply Forall_cons; try apply Forall_nil.
  - apply silent_tied_grads_check.
  - apply silent_grads_check.
  - apply silent_params_synced_check.
  - apply silent_tied_synced_check.
  - apply silent_check_optim_state.
Qed.

Lemma succeed_before_optim_step_checks optim_state_dict :
  (forall c, In c (before_optim_step_checks optim_state_dict) -> succeeds c) <->
  ready_for_optim_step optim_state_dict.
Proof.
  unfold ready_for_optim_step, before_optim_step_checks.
  rewrite <- succeeds_tied_grads_check, <- succeeds_grads_check.
  rewrite <- (succeeds_params_synced_check before_tbi_label).
  rewrite <- (succeeds_tied_synced_check before_optim_tied_label).
  rewrite <- succeeds_check_optim_state.
  split.
  - intros H. repeat split; apply H; simpl; auto 10.
  - intros (H1 & H2 & H3 & H4 & H5) c Hc. simpl in Hc.
    destruct Hc as [<-|[<-|[<-|[<-|[<-|[]]]]]]; assumption.
Qed.

(** Enabled, the checks before the first accumulation step hand over to the
    model's own checks exactly when the parameters agree with rank 0 over
    DP_CP, the tied parameters over their groups, every present gradient and
    every accumulator buffer is exactly zero and the first parameter group's
    learning rate equals the scheduler's; otherwise they raise, the model's
    checks do not run and the log is untouched. *)
Theorem before_tbi_sanity_checks_contract (config : Config)
  (lr_scheduler : LRScheduler) (model_checks : M unit) (log : list LogRecord) :
  ignore_sanity_checks config = false ->
  (ready_for_first_step lr_scheduler ->
   before_tbi_sanity_checks float_repr config rank_in named_parameters
     tied_id_to_param grad_accumulator lr_scheduler model_checks log =
   model_checks log) /\
  (~ ready_for_first_step lr_scheduler ->
   exists e,
     before_tbi_sanity_checks float_repr config rank_in named_parameters
       tied_id_to_param grad_accumulator lr_scheduler model_checks log =
     (inl e, log)).
Proof.
  intros Henabled. rewrite before_tbi_as_checks, Henabled. cbn [negb]. split.
  - intros Hready. apply then_run_all_succeed.
    now apply succeed_before_tbi_checks.
  - intros Hnot. apply then_run_some_fails.
    + apply silent_before_tbi_checks.
    + intros Hall. apply Hnot. now apply succeed_before_tbi_checks.
Qed.

(** Enabled, the checks before the optimizer step hand over to the model's
    own checks exactly when every gradient-requiring tied and named parameter
    has a gradient that agrees with rank 0 of its group, the parameters and
    tied parameters agree as well, and so do the optimizer's state tensors
    other than the step counters; otherwise they raise with the log
    untouched. *)
Theorem before_optim_step_sanity_checks_contract (config : Config)
  (optim_state_dict : OptimState) (model_checks : M unit)
  (log : list LogRecord) :
  ignore_sanity_checks config = false ->
  (ready_for_optim_step optim_state_dict ->
   before_optim_step_sanity_checks config rank_in named_parameters
     tied_id_to_param grad_accumulator optim_state_dict model_checks log =
   model_checks log) /\
  (~ ready_for_optim_step optim_state_dict ->
   exists e,
     before_optim_step_sanity_checks config rank_in named_parameters
       tied_id_to_param grad_accumulator optim_state_dict model_checks log =
     (inl e, log)).
Proof.
  intros Henabled. rewrite before_optim_step_as_checks, Henabled.
  cbn [negb]. split.
  - intros Hready. apply then_run_all_succeed.
    now apply succeed_before_optim_step_checks.
  - intros Hnot. apply then_run_some_fails.
    + apply silent_before_optim_step_checks.
    + intros Hall. apply Hnot. now apply succeed_before_optim_step_checks.
Qed.

(** A named parameter that requires a gradient and has none stops the
    optimizer step: the checks raise, whatever else holds, and the model's
    own checks do not run. *)
Theorem before_optim_step_missing_gradient_raises (config : Config)
  (optim_state_dict : OptimState) (model_checks : M unit)
  (log : list LogRecord) (name : string) (param : ModelParameter) :
  ignore_sanity_checks config = false ->
  In (name, param) named_parameters ->
  p_requires_grad param = true ->
  grad_of grad_accumulator (grad_name name param) param = None ->
  exists e,
    before_optim_step_sanity_checks config rank_in named_parameters
      tied_id_to_param grad_accumulator optim_state_dict model_checks log =
    (inl e, log).
Proof.
  intros Henabled Hin Hreq Hnone.
  rewrite before_optim_step_as_checks, Henabled. cbn [negb].
  apply then_run_some_fails; [apply silent_before_optim_step_checks|].
  intros Hall. apply succeed_before_optim_step_checks in Hall.
  destruct Hall as (_ & Hgrads & _).
  destruct (Hgrads name param Hin Hreq) as [g [Hg _]]. congruence.
Qed.

End CheckpointFacts.

(** *** A two-rank data-parallel group *)

Definition on_both_ranks (first second : Tensor) : DistTensor :=
  {| tensor_dtype := float32; on_group := fun _ => [first; second] |}.

Definition second_rank : Ranks := fun _ => 1.

Definition weight (grad : option DistTensor) : ModelParameter :=
  {| p_requires_grad := true; p_is_tied := false; p_tied_full_name := "";
     p_data := on_both_ranks [Finite 1; Finite 2] [Finite 1; Finite 2];
     p_grad := grad |}.

Definition enabled : Config := {| ignore_sanity_checks := false |}.

Lemma before_tbi_sanity_checks_contract_witness :
  before_tbi_sanity_checks (fun _ => "") enabled second_rank
    [("w", weight (Some (on_both_ranks [Finite 0; Finite 0]
                           [Finite 0; Finite 0])))]
    [] None [(Finite (1 # 1000), Finite (1 # 1000)); (Finite 1, Finite 2)]
    (ret tt) [] = (inr tt, []).
Proof.
  apply (proj1 (before_tbi_sanity_checks_contract (fun _ => "") second_rank
                  [("w", weight (Some (on_both_ranks [Finite 0; Finite 0]
                                         [Finite 0; Finite 0])))]
                  [] None enabled
                  [(Finite (1 # 1000), Finite (1 # 1000)); (Finite 1, Finite 2)]
                  (ret tt) [] eq_refl)).
  split; [|split; [|split; [|split]]].
  - intros name p [H|[]]. injection H as _ <-.
    split; [simpl; lia|reflexivity].
  - intros name gr p [].
  - intros name p g [H|[]] Hg. injection H as _ <-. simpl in Hg.
    injection Hg as <-.
    repeat constructor; exists 0%Q; split; reflexivity.
  - intros acc name b Hacc. discriminate.
  - reflexivity.
Defined.

Lemma before_optim_step_sanity_checks_contract_witness :
  before_optim_step_sanity_checks enabled second_rank
    [("w", weight (Some (on_both_ranks [Finite 3; Finite 4]
                           [Finite 3; Finite 4])))]
    [] None
    [(0, [("step", on_both_ranks [Finite 7] [Finite 8]);
          ("exp_avg", on_both_ranks [Finite 5] [Finite 5])])]
    (ret tt) [] = (inr tt, []).
Proof.
  apply (proj1 (before_optim_step_sanity_checks_contract second_rank
                  [("w", weight (Some (on_both_ranks [Finite 3; Finite 4]
                                         [Finite 3; Finite 4])))]
                  [] None enabled
                  [(0, [("step", on_both_ranks [Finite 7] [Finite 8]);
                        ("exp_avg", on_both_ranks [Finite 5] [Finite 5])])]
                  (ret tt) [] eq_refl)).
  split; [|split; [|split; [|split]]].
  - intros name gr p [].
  - intros name p [H|[]] _. injection H as _ <-.
    eexists. split; [reflexivity|]. split; [simpl; lia|reflexivity].
  - intros name p [H|[]]. injection H as _ <-.
    split; [simpl; lia|reflexivity].
  - intros name gr p [].
  - intros k st name t [H|[]] Hin Hstep. injection H as _ <-.
    destruct Hin as [H|[H|[]]]; injection H as <- <-.
    + congruence.
    + split; [simpl; lia|reflexivity].
Defined.

Lemma before_optim_step_missing_gradient_raises_witness :
  exists e,
    before_optim_step_sanity_checks enabled second_rank [("w", weight None)]
      [] None [] (ret tt) [] = (inl e, []).
Proof.
  apply (before_optim_step_missing_gradient_raises second_rank
           [("w", weight None)] [] None enabled [] (ret tt) [] "w"
           (weight None)).
  - reflexivity.
  - simpl. now left.
  - reflexivity.
  - reflexivity.
Defined.

End StepChecks.

(** * The masked mean of the loss

    [masked_mean] of [models/qwen.py].  Floats are the gradient-buffer values
    of the sanity checks: exact on finite values, with the IEEE rules for
    infinities and NaN; rounding and overflow are left out. *)

Module MaskedLoss.
Import SanityChecks.

(** A boolean of the label mask as the float it is promoted to. *)
Definition of_bool (b : bool) : fval := Finite (if b then 1 else 0).

Definition signed_inf (c : comparison) (positive : bool) : fval :=
  match c with
  | Eq => NaN
  | Gt => if positive then PosInf else NegInf
  | Lt => if positive then NegInf else PosInf
  end.

(** [a * b]: an infinity times zero is NaN. *)
Definition fmul (a b : fval) : fval :=
  match a, b with
  | NaN, _ | _, NaN => NaN
  | Finite x, Finite y => Finite (x * y)
  | Finite x, PosInf | PosInf, Finite x => signed_inf (x ?= 0)%Q true
  | Finite x, NegInf | NegInf, Finite x => signed_inf (x ?= 0)%Q false
  | PosInf, PosInf | NegInf, NegInf => PosInf
  | PosInf, NegInf | NegInf, PosInf => NegInf
  end.

(** [a + b]: opposite infinities add up to NaN. *)
Definition fadd (a b : fval) : fval :=
  match a, b with
  | NaN, _ | _, NaN => NaN
  | Finite x, Finite y => Finite (x + y)
  | PosInf, NegInf | NegInf, PosInf => NaN
  | PosInf, _ | _, PosInf => PosInf
  | NegInf, _ | _, NegInf => NegInf
  end.

(** [Tensor.sum()] of a float tensor. *)
Definition fsum (t : Tensor) : fval := fold_left fadd t (Finite 0).

(** [label_mask.sum()]: the number of [True] entries. *)
Definition mask_sum (label_mask : list bool) : nat :=
  length (filter (fun b => b) label_mask).

(** [a / n] for a count [n]: zero over zero is NaN, a non-zero finite value
    over zero an infinity. *)
Definition fdiv_count (a : fval) (n : nat) : fval :=
  match a with
  | NaN => NaN
  | PosInf => PosInf
  | NegInf => NegInf
  | Finite x =>
      if n =? 0 then signed_inf (x ?= 0)%Q true
      else Finite (x / inject_Z (Z.of_nat n))
  end.

(** [loss * label_mask] on flattened tensors: element by element when the
    sizes agree, a single element is broadcast, other sizes do not
    multiply. *)
Definition mul_mask (loss : Tensor) (label_mask : list bool)
  : option Tensor :=
  if length loss =? length label_mask
  then Some (map (fun lm => fmul (fst lm) (of_bool (snd lm)))
               (combine loss label_mask))
  else
    match loss, label_mask with
    | _, [m] => Some (map (fun l => fmul l (of_bool m)) loss)
    | [l], _ => Some (map (fun m => fmul l (of_bool m)) label_mask)
    | _, _ => None
    end.

(** [(loss * label_mask).sum(dtype=dtype) / label_mask.sum()] *)
Definition masked_mean (loss : Tensor) (label_mask : list bool)
  : option fval :=
  match mul_mask loss label_mask with
  | Some product => Some (fdiv_count (fsum product) (mask_sum label_mask))
  | None => None
  end.

(** ** Facts *)

Definition is_finite (x : fval) : bool :=
  match x with Finite _ => true | _ => false end.

Lemma fold_fadd_nan t : fold_left fadd t NaN = NaN.
Proof. induction t as [|x t IH]; simpl; [reflexivity|exact IH]. Qed.

Lemma fadd_nan_r a : fadd a NaN = NaN.
Proof. destruct a; reflexivity. Qed.

Lemma fold_fadd_with_nan t acc : In NaN t -> fold_left fadd t acc = NaN.
Proof.
  revert acc. induction t as [|x t IH]; intros acc Hin; [destruct Hin|].
  simpl. destruct Hin as [->|Hin].
  - rewrite fadd_nan_r. apply fold_fadd_nan.
  - now apply IH.
Qed.

Lemma fmul_masked_out x :
  is_finite x = false -> fmul x (of_bool false) = NaN.
Proof. destruct x; [discriminate|reflexivity..]. Qed.

Lemma mul_mask_same_length loss label_mask :
  length loss = length label_mask ->
  mul_mask loss label_mask =
  Some (map (fun lm => fmul (fst lm) (of_bool (snd lm)))
          (combine loss label_mask)).
Proof. intros H. unfold mul_mask. now rewrite H, Nat.eqb_refl. Qed.

Lemma nth_error_combine {A B} (l : list A) (l' : list B) i a b :
  nth_error l i = Some a -> nth_error l' i = Some b ->
  nth_error (combine l l') i = Some (a, b).
Proof.
  revert l l'. induction i as [|i IH]; intros [|x l] [|y l'] Ha Hb;
    simpl in *; try discriminate.
  - now injection Ha as ->; injection Hb as ->.
  - now apply IH.
Qed.

(** The selected losses lie in [lo, hi]; the others are finite. *)
Definition selected_within (lo hi : Q) (l : fval) (m : bool) : Prop :=
  exists q, l = Finite q /\ (m = true -> (lo <= q <= hi)%Q).

Definition count_Q (label_mask : list bool) : Q :=
  inject_Z (Z.of_nat (mask_sum label_mask)).

Lemma count_Q_cons_true label_mask :
  (count_Q (true :: label_mask) == count_Q label_mask + 1)%Q.
Proof.
  unfold count_Q, mask_sum. cbn [filter length].
  rewrite Nat2Z.inj_succ. unfold Z.succ. rewrite inject_Z_plus. reflexivity.
Qed.

Lemma count_Q_cons_false label_mask :
  count_Q (false :: label_mask) = count_Q label_mask.
Proof. reflexivity. Qed.

Lemma sum_selected_within lo hi loss label_mask :
  Forall2 (selected_within lo hi) loss label_mask ->
  forall a,
  exists s,
    fold_left fadd
      (map (fun lm => fmul (fst lm) (of_bool (snd lm)))
         (combine loss label_mask)) (Finite a) = Finite s /\
    (a + count_Q label_mask * lo <= s <= a + count_Q label_mask * hi)%Q.
Proof.
  induction 1 as [|l m loss label_mask [q [-> Hq]] _ IH]; intros a.
  - exists a. split; [reflexivity|]. unfold count_Q, mask_sum. cbn [filter length Z.of_nat].
    change (inject_Z 0) with 0%Q. Lqa.lra.
  - cbn [combine map fold_left fst snd]. unfold of_bool at 1.
    cbn [fmul fadd].
    destruct (IH (a + q * (if m then 1 else 0))%Q) as [s [Hs Hbound]].
    exists s. split; [exact Hs|].
    destruct m.
    + specialize (Hq eq_refl). rewrite count_Q_cons_true. Lqa.lra.
    + rewrite count_Q_cons_false. Lqa.lra.
Qed.

(** Two floats that are the same value. *)
Definition same_float (a b : fval) : Prop :=
  match a, b with
  | Finite x, Finite y => (x == y)%Q
  | PosInf, PosInf | NegInf, NegInf | NaN, NaN => True
  | _, _ => False
  end.

(** Two losses that agree wherever the mask selects and are finite wherever
    it does not. *)
Fixpoint agree_where_selected (loss loss' : Tensor) (label_mask : list bool)
  : Prop :=
  match loss, loss', label_mask with
  | [], [], [] => True
  | x :: loss, x' :: loss', m :: label_mask =>
      (if m then x = x' else is_finite x = true /\ is_finite x' = true) /\
      agree_where_selected loss loss' label_mask
  | _, _, _ => False
  end.

Lemma same_float_refl a : same_float a a.
Proof. destruct a; simpl; [reflexivity|exact I..]. Qed.

Lemma fadd_same_float a a' b b' :
  same_float a a' -> same_float b b' ->
  same_float (fadd a b) (fadd a' b').
Proof.
  destruct a, a', b, b'; simpl; try tauto.
  intros Ha Hb. now rewrite Ha, Hb.
Qed.

Lemma signed_inf_same_float x y positive :
  (x == y)%Q ->
  same_float (signed_inf (x ?= 0)%Q positive) (signed_inf (y ?= 0)%Q positive).
Proof. intros H. rewrite H. apply same_float_refl. Qed.

Lemma fdiv_count_same_float a a' n :
  same_float a a' -> same_float (fdiv_count a n) (fdiv_count a' n).
Proof.
  destruct a, a'; simpl; try tauto. intros H.
  destruct (n =? 0).
  - now apply signed_inf_same_float.
  - simpl. now rewrite H.
Qed.

Lemma agree_where_selected_length loss loss' label_mask :
  agree_where_selected loss loss' label_mask ->
  length loss = length label_mask /\ length loss' = length label_mask.
Proof.
  revert loss' label_mask.
  induction loss as [|x loss IH]; intros [|x' loss'] [|m label_mask];
    simpl; try tauto.
  intros [_ H]. destruct (IH _ _ H). split; congruence.
Qed.

Lemma sum_agree_where_selected loss loss' label_mask :
  agree_where_selected loss loss' label_mask ->
  forall acc acc', same_float acc acc' ->
  same_float
    (fold_left fadd
       (map (fun lm => fmul (fst lm) (of_bool (snd lm)))
          (combine loss label_mask)) acc)
    (fold_left fadd
       (map (fun lm => fmul (fst lm) (of_bool (snd lm)))
          (combine loss' label_mask)) acc').
Proof.
  revert loss' label_mask.
  induction loss as [|x loss IH]; intros [|x' loss'] [|m label_mask];
    simpl; try tauto.
  intros [Hm Hrest] acc acc' Hacc. apply (IH _ _ Hrest).
  apply fadd_same_float; [exact Hacc|].
  destruct m.
  - subst x'. apply same_float_refl.
  - destruct Hm as [Hx Hx'].
    destruct x as [q| | |]; try discriminate.
    destruct x' as [q'| | |]; try discriminate.
    unfold of_bool. simpl. ring.
Qed.

(** The masked mean does not depend on the losses at the positions the mask
    leaves out, as long as they are finite: two losses that agree on the
    selected positions have the same masked mean. *)
Theorem masked_out_finite_losses_are_ignored (loss loss' : Tensor)
  (label_mask : list bool) :
  agree_where_selected loss loss' label_mask ->
  exists mean mean',
    masked_mean loss label_mask = Some mean /\
    masked_mean loss' label_mask = Some mean' /\
    same_float mean mean'.
Proof.
  intros Hagree.
  destruct (agree_where_selected_length _ _ _ Hagree) as [Hlen Hlen'].
  unfold masked_mean.
  rewrite (mul_mask_same_length _ _ Hlen), (mul_mask_same_length _ _ Hlen').
  eexists _, _. split; [reflexivity|]. split; [reflexivity|].
  apply fdiv_count_same_float. unfold fsum.
  apply sum_agree_where_selected; [exact Hagree|apply same_float_refl].
Qed.

Lemma masked_out_finite_losses_are_ignored_witness :
  exists mean mean',
    masked_mean [Finite 2; Finite 100; Finite 4] [true; false; true] =
      Some mean /\
    masked_mean [Finite 2; Finite (-7); Finite 4] [true; false; true] =
      Some mean' /\
    same_float mean mean'.
Proof.
  apply (masked_out_finite_losses_are_ignored
           [Finite 2; Finite 100; Finite 4] [Finite 2; Finite (-7); Finite 4]
           [true; false; true]).
  simpl. repeat split; reflexivity.
Defined.

(** A loss that is infinite or NaN at a position the mask leaves out still
    turns the masked mean into NaN. *)
Theorem masked_out_non_finite_loss_gives_nan (loss : Tensor)
  (label_mask : list bool) (i : nat) (x : fval) :
  length loss = length label_mask ->
  nth_error loss i = Some x ->
  nth_error label_mask i = Some false ->
  is_finite x = false ->
  masked_mean loss label_mask = Some NaN.
Proof.
  intros Hlen Hx Hm Hinf. unfold masked_mean.
  rewrite (mul_mask_same_length _ _ Hlen). unfold fsum.
  rewrite fold_fadd_with_nan; [reflexivity|].
  apply in_map_iff. exists (x, false). split.
  - cbn [fst snd]. now apply fmul_masked_out.
  - apply (nth_error_In _ i). now apply nth_error_combine.
Qed.

Lemma masked_out_non_finite_loss_gives_nan_witness :
  masked_mean [Finite 2; PosInf; Finite 4] [true; false; true] = Some NaN.
Proof.
  apply (masked_out_non_finite_loss_gives_nan
           [Finite 2; PosInf; Finite 4] [true; false; true] 1 PosInf);
    reflexivity.
Defined.

(** With no position selected and a finite loss, the masked mean is NaN. *)
Theorem masked_mean_of_empty_selection (loss : Tensor)
  (label_mask : list bool) :
  length loss = length label_mask ->
  Forall (fun x => is_finite x = true) loss ->
  Forall (fun m => m = false) label_mask ->
  masked_mean loss label_mask = Some NaN.
Proof.
  intros Hlen Hfin Hnone.
  assert (Hall : Forall2 (selected_within 0 0) loss label_mask).
  { revert label_mask Hlen Hnone.
    induction Hfin as [|x loss Hx _ IH]; intros [|m label_mask] Hlen Hnone;
      try discriminate; constructor.
    - destruct x as [q| | |]; try discriminate. exists q.
      split; [reflexivity|]. inversion Hnone; subst. discriminate.
    - apply IH; [now injection Hlen|now inversion Hnone]. }
  assert (Hcount : mask_sum label_mask = 0).
  { unfold mask_sum. clear - Hnone.
    induction Hnone as [|m l -> _ IH]; [reflexivity|exact IH]. }
  unfold masked_mean. rewrite (mul_mask_same_length _ _ Hlen). unfold fsum.
  destruct (sum_selected_within 0 0 loss label_mask Hall 0) as [s [-> Hs]].
  unfold fdiv_count. rewrite Hcount. cbn [Nat.eqb].
  assert (Hzero : (s == 0)%Q) by Lqa.lra.
  apply Qeq_alt in Hzero. now rewrite Hzero.
Qed.

Lemma masked_mean_of_empty_selection_witness :
  masked_mean [Finite 2; Finite 4] [false; false] = Some NaN.
Proof.
  apply (masked_mean_of_empty_selection [Finite 2; Finite 4] [false; false]).
  - reflexivity.
  - repeat constructor.
  - repeat constructor.
Defined.

End MaskedLoss.

(** * The dataloader inspection

    [sanity_check_dataloader] of [sanity_checks.py], as one process sees it:
    the file [sanity_check.txt] and the standard output are the state, the
    dataloader is the list of the batches it yields, the loaded tokenizer is
    its decoding function. *)

Module Dataloader.

Inductive error :=
| AssertionError (msg : string)
| ZeroDivisionError.

Inductive outcome :=
| Returned
| Raised (e : error).

Record Batch := { input_ids : list (list Z) }.

Record Outputs := {
  sanity_check_txt : string;
  stdout : list string
}.

(** [f.write(s)] on the file opened for appending. *)
Definition write (s : string) (o : Outputs) : Outputs :=
  {| sanity_check_txt := sanity_check_txt o ++ s; stdout := stdout o |}.

(** [print(s)] *)
Definition print (s : string) (o : Outputs) : Outputs :=
  {| sanity_check_txt := sanity_check_txt o; stdout := stdout o ++ [s] |}.

(** [open("sanity_check.txt", "w")] followed by [f.write("")]. *)
Definition truncate (o : Outputs) : Outputs :=
  {| sanity_check_txt := ""; stdout := stdout o |}.

Definition nl : string := String (Ascii.ascii_of_nat 10) "".

Definition stars : string := "****************************************".

Definition str_of_nat (n : nat) : string :=
  NilZero.string_of_uint (Nat.to_uint n).

Definition str_of_Z (z : Z) : string := NilZero.string_of_int (Z.to_int z).

Definition NUM_BATCHES : Z := 10.

Section Inspection.

(** [tokenizer.decode] on one row of token ids, and how a batch prints. *)
Variable decode : list Z -> string.
Variable batch_repr : Batch -> string.

Definition sample_header (i j : nat) : string :=
  nl ++ nl ++ ">>Batch " ++ str_of_nat i ++ " || Sample " ++ str_of_nat j
  ++ "<<" ++ nl.

(** The body of [for j, text in enumerate(texts)]. *)
Definition show_sample (i : nat) (o : Outputs) (sample : nat * string)
  : Outputs :=
  let '(j, text) := sample in
  let o := print (sample_header i j) o in
  let o := print (substring 0 400 text) o in
  let o := write (sample_header i j) o in
  write text o.

(** The body of [if i % interval == 0], up to the test for [break]. *)
Definition show_batch (i : nat) (check_step : Z) (batch : Batch)
  (o : Outputs) : Outputs :=
  let o := write (nl ++ nl) o in
  let o := write stars o in
  let o := write ("Sanity check " ++ str_of_Z check_step) o in
  let o := write stars o in
  let o := print (batch_repr batch) o in
  let texts := map decode (input_ids batch) in
  fold_left (show_sample i) (combine (seq 0 (length texts)) texts) o.

(** [for i, batch in enumerate(dataloader)], from index [i] on; [Some]
    exception when the body raises. *)
Fixpoint inspect (interval : Z) (i : nat) (check_step : Z)
  (batches : list Batch) (o : Outputs) : Outputs * option error :=
  match batches with
  | [] => (o, None)
  | batch :: rest =>
      let check_step := (check_step + 1)%Z in
      if (interval =? 0)%Z then (o, Some ZeroDivisionError)
      else if (Z.of_nat i mod interval =? 0)%Z
      then
        let o := show_batch i check_step batch o in
        if (Z.of_nat i / interval =? NUM_BATCHES - 1)%Z
        then (o, None)
        else inspect interval (S i) check_step rest o
      else inspect interval (S i) check_step rest o
  end.

Definition sanity_check_dataloader (dataloader : list Batch)
  (sanity_check_dataloader_interval : option Z) (rank : nat) (o : Outputs)
  : Outputs * outcome :=
  match sanity_check_dataloader_interval with
  | None => (o, Returned)
  | Some interval =>
      if rank =? 0
      then
        match inspect interval 0 (-1) dataloader (truncate o) with
        | (o', Some e) => (o', Raised e)
        | (o', None) =>
            (o', Raised (AssertionError
                           "Sanity check complete - stopping training"))
        end
      else (o, Returned)
  end.

(** ** Facts *)

Lemma inspect_nonzero_interval interval i check_step batches o :
  interval <> 0%Z -> snd (inspect interval i check_step batches o) = None.
Proof.
  intros Hnz. revert i check_step o.
  induction batches as [|batch rest IH]; intros i check_step o;
    [reflexivity|].
  cbn [inspect]. cbv zeta.
  destruct (Z.eqb_spec interval 0); [contradiction|].
  destruct (Z.of_nat i mod interval =? 0)%Z; [|apply IH].
  destruct (Z.of_nat i / interval =? NUM_BATCHES - 1)%Z;
    [reflexivity|apply IH].
Qed.

(** On rank 0 with an interval set the function never returns: it ends with
    the AssertionError that stops the training, except that an interval of 0
    on a dataloader with a batch divides by zero. *)
Theorem rank_zero_always_raises (dataloader : list Batch) (interval : Z)
  (o : Outputs) :
  snd (sanity_check_dataloader dataloader (Some interval) 0 o) =
  Raised (if (interval =? 0)%Z && negb (length dataloader =? 0)
          then ZeroDivisionError
          else AssertionError "Sanity check complete - stopping training").
Proof.
  unfold sanity_check_dataloader. cbn [Nat.eqb].
  destruct (Z.eqb_spec interval 0) as [->|Hnz].
  - destruct dataloader as [|batch rest]; reflexivity.
  - pose proof (inspect_nonzero_interval interval 0 (-1) dataloader
                  (truncate o) Hnz) as H.
    destruct (inspect interval 0 (-1) dataloader (truncate o)) as [o' e].
    cbn [snd] in H. now subst e.
Qed.

(** The batches of a list with their indices, from [i] on. *)
Definition enumerate_from (i : nat) (batches : list Batch)
  : list (nat * Batch) :=
  combine (seq i (length batches)) batches.

Definition is_checked (interval : Z) (entry : nat * Batch) : bool :=
  (Z.of_nat (fst entry) mod interval =? 0)%Z.

Definition show_entry (o : Outputs) (entry : nat * Batch) : Outputs :=
  show_batch (fst entry) (Z.of_nat (fst entry)) (snd entry) o.

Lemma inspect_shows_multiples interval batches :
  (0 < interval)%Z ->
  forall i o,
    (Z.of_nat i <= 9 * interval)%Z ->
    fst (inspect interval i (Z.of_nat i - 1) batches o) =
    fold_left show_entry
      (filter (is_checked interval)
         (enumerate_from i
            (firstn (Z.to_nat (9 * interval + 1) - i) batches))) o.
Proof.
  intros Hpos. induction batches as [|batch rest IH]; intros i o Hi.
  - now rewrite firstn_nil.
  - cbn [inspect]. cbv zeta.
    destruct (Z.eqb_spec interval 0) as [|_]; [lia|].
    replace (Z.of_nat i - 1 + 1)%Z with (Z.of_nat i) by lia.
    assert (Hsteps :
      Z.to_nat (9 * interval + 1) - i =
      S (Z.to_nat (9 * interval + 1) - S i)) by lia.
    rewrite Hsteps. cbn [firstn]. unfold enumerate_from.
    cbn [length seq combine filter]. unfold is_checked at 1. cbn [fst].
    fold (enumerate_from (S i)
            (firstn (Z.to_nat (9 * interval + 1) - S i) rest)).
    destruct (Z.eqb_spec (Z.of_nat i mod interval) 0) as [Hmod|Hmod].
    + cbn [fold_left]. unfold show_entry at 2. cbn [fst snd].
      destruct (Z.eqb_spec (Z.of_nat i / interval) (NUM_BATCHES - 1))
        as [Hdiv|Hdiv].
      * assert (Hlast : Z.of_nat i = (9 * interval)%Z).
        { pose proof (Z.div_mod (Z.of_nat i) interval) as Hdm.
          unfold NUM_BATCHES in Hdiv. rewrite Hdiv, Hmod in Hdm. lia. }
        replace (Z.to_nat (9 * interval + 1) - S i) with 0 by lia.
        reflexivity.
      * assert (Hnot : Z.of_nat i <> (9 * interval)%Z).
        { intros Heq. apply Hdiv. rewrite Heq. unfold NUM_BATCHES.
          rewrite Z.div_mul by lia. reflexivity. }
        replace (Z.of_nat i) with (Z.of_nat (S i) - 1)%Z at 1 by lia.
        apply IH. lia.
    + assert (Hnot : Z.of_nat i <> (9 * interval)%Z).
      { intros Heq. apply Hmod. rewrite Heq. apply Z.mod_mul. lia. }
      replace (Z.of_nat i) with (Z.of_nat (S i) - 1)%Z at 1 by lia.
      apply IH. lia.
Qed.

(** With a positive interval, what rank 0 writes and prints is the report of
    the batches whose index is a multiple of the interval among the first
    [9 * interval + 1] batches, each under its own index, on an emptied
    file; later batches are not read. *)
Theorem reports_multiples_among_first_batches (dataloader : list Batch)
  (interval : Z) (o : Outputs) :
  (0 < interval)%Z ->
  fst (sanity_check_dataloader dataloader (Some interval) 0 o) =
  fold_left show_entry
    (filter (is_checked interval)
       (enumerate_from 0 (firstn (Z.to_nat (9 * interval + 1)) dataloader)))
    (truncate o).
Proof.
  intros Hpos. unfold sanity_check_dataloader. cbn [Nat.eqb].
  pose proof (inspect_shows_multiples interval dataloader Hpos 0 (truncate o))
    as H.
  cbn [Z.of_nat] in H. rewrite Nat.sub_0_r in H.
  change (0 - 1)%Z with (-1)%Z in H.
  destruct (inspect interval 0 (-1) dataloader (truncate o)) as [o' [e|]];
    cbn [fst] in *; apply H; lia.
Qed.

(** With a positive interval the batches after the first
    [9 * interval + 1] have no influence at all. *)
Theorem later_batches_are_not_read (dataloader more : list Batch)
  (interval : Z) (o : Outputs) :
  (0 < interval)%Z ->
  (9 * interval < Z.of_nat (length dataloader))%Z ->
  sanity_check_dataloader (dataloader ++ more) (Some interval) 0 o =
  sanity_check_dataloader dataloader (Some interval) 0 o.
Proof.
  intros Hpos Hlen.
  assert (Hfst : forall l,
    fst (sanity_check_dataloader l (Some interval) 0 o) =
    fold_left show_entry
      (filter (is_checked interval)
         (enumerate_from 0 (firstn (Z.to_nat (9 * interval + 1)) l)))
      (truncate o)).
  { intros l. unfold sanity_check_dataloader. cbn [Nat.eqb].
    pose proof (inspect_shows_multiples interval l Hpos 0 (truncate o)) as H.
    cbn [Z.of_nat] in H. rewrite Nat.sub_0_r in H.
    change (0 - 1)%Z with (-1)%Z in H.
    destruct (inspect interval 0 (-1) l (truncate o)) as [o' [e|]];
      cbn [fst] in *; apply H; lia. }
  assert (Hsnd : forall l,
    snd (sanity_check_dataloader l (Some interval) 0 o) =
    Raised (AssertionError "Sanity check complete - stopping training")).
  { intros l. unfold sanity_check_dataloader. cbn [Nat.eqb].
    pose proof (inspect_nonzero_interval interval 0 (-1) l (truncate o)) as H.
    destruct (inspect interval 0 (-1) l (truncate o)) as [o' e].
    cbn [snd] in H. rewrite H by lia. reflexivity. }
  rewrite (surjective_pairing
             (sanity_check_dataloader (dataloader ++ more) (Some interval) 0 o)).
  rewrite (surjective_pairing
             (sanity_check_dataloader dataloader (Some interval) 0 o)).
  rewrite !Hfst, !Hsnd.
  rewrite firstn_app.
  replace (Z.to_nat (9 * interval + 1) - length dataloader) with 0 by lia.
  cbn [firstn]. now rewrite app_nil_r.
Qed.

End Inspection.

(** ** A small dataloader *)

Definition two_rows : Batch := {| input_ids := [[1; 2]; [3]]%Z |}.

Definition one_row : Batch := {| input_ids := [[4]]%Z |}.

Definition empty_outputs : Outputs :=
  {| sanity_check_txt := "left over"; stdout := [] |}.

Lemma reports_multiples_among_first_batches_witness :
  fst (sanity_check_dataloader (fun _ => "text") (fun _ => "batch")
         [two_rows; one_row; two_rows] (Some 2%Z) 0 empty_outputs) =
  fold_left (show_entry (fun _ => "text") (fun _ => "batch"))
    (filter (is_checked 2)
       (enumerate_from 0
          (firstn (Z.to_nat (9 * 2 + 1)) [two_rows; one_row; two_rows])))
    (truncate empty_outputs).
Proof.
  apply (reports_multiples_among_first_batches (fun _ => "text")
           (fun _ => "batch") [two_rows; one_row; two_rows] 2 empty_outputs).
  lia.
Defined.

Lemma later_batches_are_not_read_witness :
  sanity_check_dataloader (fun _ => "text") (fun _ => "batch")
    (repeat one_row 10 ++ [two_rows]) (Some 1%Z) 0 empty_outputs =
  sanity_check_dataloader (fun _ => "text") (fun _ => "batch")
    (repeat one_row 10) (Some 1%Z) 0 empty_outputs.
Proof.
  apply (later_batches_are_not_read (fun _ => "text") (fun _ => "batch")
           (repeat one_row 10) [two_rows] 1 empty_outputs).
  - lia.
  - simpl. lia.
Defined.

End Dataloader.
